(** * The large-file upload pipeline of the grant-proposal front end

    A shallow embedding of
    - the chunked upload utility ([ChunkedUploader], [needsChunkedUpload],
      [uploadFiles]),
    - the API client's upload entry point ([GrantAPI.uploadDocuments],
      [GrantAPI.uploadDocumentsChunked]),
    - the single-file upload proxy route ([POST] of /api/upload-single),
    together with the properties of the upload pipeline.

    Asynchronous calls are sequential in every function modelled here (each
    [await] is followed by the next statement), so a run is a function from
    the history of observable events to a result and a longer history.  The
    network is an oracle that answers each [fetch] from the history so far.
    [console.log] and friends are not observable and are left out; the
    evaluation of their arguments is kept where it can throw. *)

From Stdlib Require Import ZArith QArith Qround Qpower Qabs Lia Lqa.
From Stdlib Require Import List String Ascii Bool DecimalString Sorted Permutation.
Import ListNotations.

(** ** JavaScript numbers

    File sizes are integer byte counts.  A JavaScript Number holds every
    integer of magnitude below 2^53 exactly, and sums, products and
    differences of such integers are exact while they stay in that range, so
    integer arithmetic is carried out in [Z].  Division and the product with
    100 in the progress percentage are inexact: they are rounded to the
    nearest binary64 value, ties to even.  The rounding is modelled on [Q]
    with an unbounded exponent range, which agrees with binary64 on the
    normal range (every quotient of two positive sizes below 2^53 is in it). *)
Module JsNumber.
Local Open Scope Q_scope.

Definition precision : Z := 53.
Definition MAX_SAFE_INTEGER : Z := 2 ^ 53 - 1.

(** [ilog2 x] is the binary exponent of a positive rational:
    [2 ^ ilog2 x <= x < 2 ^ (ilog2 x + 1)]. *)
Definition ilog2 (x : Q) : Z :=
  let e := (Z.log2 (Qnum x) - Z.log2 (Zpos (Qden x)))%Z in
  if Qle_bool (2 ^ e) x then e else (e - 1)%Z.

(** Nearest integer, ties to the even one. *)
Definition round_half_even (y : Q) : Z :=
  let f := Qfloor y in
  match Qcompare (y - inject_Z f) (1 # 2) with
  | Lt => f
  | Gt => (f + 1)%Z
  | Eq => if Z.even f then f else (f + 1)%Z
  end.

(** Unit in the last place of the binade of [x]. *)
Definition ulp (x : Q) : Q := 2 ^ (ilog2 x - (precision - 1)).

Definition round_pos (x : Q) : Q :=
  inject_Z (round_half_even (x / ulp x)) * ulp x.

(** Round to nearest binary64, ties to even. *)
Definition fl (x : Q) : Q :=
  match Qcompare x 0 with
  | Eq => 0
  | Gt => round_pos x
  | Lt => - round_pos (- x)
  end.

(** The operators [/] and [*] on Numbers. *)
Definition div (a b : Q) : Q := fl (a / b).
Definition mul (a b : Q) : Q := fl (a * b).

(** [Math.round]: nearest integer, ties towards positive infinity. *)
Definition Math_round (x : Q) : Z := Qfloor (x + (1 # 2)).

(** [Math.ceil]. *)
Definition Math_ceil (x : Q) : Z := Qceiling x.

(** [Math.min] on integers. *)
Definition Math_min (a b : Z) : Z := Z.min a b.

End JsNumber.

(** ** Strings built by template literals *)
Module Text.
Local Open Scope string_scope.

(** The double-quote character. *)
Definition quote : string := String "034" EmptyString.

(** Decimal rendering of a non-negative integer Number, as [`${n}`] and
    [n.toString()] produce it. *)
Definition decimal (n : Z) : string :=
  DecimalString.NilZero.string_of_uint (N.to_uint (Z.to_N n)).

(** [x.toFixed(2)] on a non-negative Number [x]: the integer [n] for which
    [n / 100 - x] is closest to zero (the larger one on a tie), written
    with two decimals. *)
Definition hundredths (x : Q) : Z := Qfloor (x * 100 + (1 # 2))%Q.

Definition toFixed2 (x : Q) : string :=
  let n := hundredths x in
  decimal (n / 100) ++ "." ++ decimal (n mod 100 / 10) ++ decimal (n mod 10).

(** The size in megabytes written by [(size / 1024 / 1024).toFixed(2)]. *)
Definition megabytes (size : Z) : string :=
  toFixed2 (JsNumber.div (JsNumber.div (inject_Z size) 1024) 1024).

(** [s.includes(t)]. *)
Definition includes (s t : string) : bool :=
  match String.index 0 t s with
  | Some _ => true
  | None => false
  end.

End Text.

(** ** Values, requests and events *)

(** A browser [File]: its name and its size in bytes.  The content is not
    inspected by the pipeline; a slice of it is known by its byte range. *)
Record File : Type := mkFile { name : string; size : Z }.

(** JavaScript values as they come out of [JSON.parse] or go into a result
    object.  An object is the list of its own properties in lookup order. *)
#[warnings="-register-all"]
Inductive JsValue : Type :=
| JsUndefined
| JsNull
| JsBool (b : bool)
| JsNumber (q : Q)
| JsString (s : string)
| JsArray (items : list JsValue)
| JsObject (fields : list (string * JsValue)).

(** Thrown values.  Every value thrown in this code base is an [Error]
    instance: [new Error(...)], the engine's [TypeError], the [SyntaxError]
    of a failed [response.json()], or the [DOMException] of an abort. *)
Inductive Exn : Type :=
| Error (msg : string)
| TypeError (msg : string)
| SyntaxError (msg : string)
| DOMException (msg : string).

Definition message (e : Exn) : string :=
  match e with
  | Error m | TypeError m | SyntaxError m | DOMException m => m
  end.

Inductive Result (A : Type) : Type :=
| Ok (a : A)
| Throw (e : Exn).
Arguments Ok {A} a.
Arguments Throw {A} e.

(** Truthiness, as [||] and [!] test it. *)
Definition truthy (v : JsValue) : bool :=
  match v with
  | JsUndefined | JsNull => false
  | JsBool b => b
  | JsNumber q => negb (Qeq_bool q 0)
  | JsString EmptyString => false
  | JsString _ | JsArray _ | JsObject _ => true
  end.

Fixpoint lookup (key : string) (fields : list (string * JsValue)) : JsValue :=
  match fields with
  | [] => JsUndefined
  | (k, v) :: rest => if String.eqb k key then v else lookup key rest
  end.

(** Property access [v.key] for the property names used here ([uploadId],
    [url], [artifact_ids]), none of which a primitive or an array has. *)
Definition get (v : JsValue) (key : string) : Result JsValue :=
  match v with
  | JsUndefined =>
      Throw (TypeError ("Cannot read properties of undefined (reading '" ++ key ++ "')"))
  | JsNull =>
      Throw (TypeError ("Cannot read properties of null (reading '" ++ key ++ "')"))
  | JsObject fields => Ok (lookup key fields)
  | _ => Ok JsUndefined
  end.

(** An entry of a [FormData]: a value converted to text, a whole file, or
    the slice [file.slice(start, stop)]. *)
Inductive FormValue : Type :=
| FormText (v : JsValue)
| FormFile (f : File)
| FormBlob (f : File) (start stop : Z).

Definition FormData : Type := list (string * FormValue).

Inductive Body : Type :=
| BodyForm (fd : FormData)
| BodyJson (v : JsValue).

(** The second argument of [fetch].  [signal] tells whether an abort signal
    is attached. *)
Record RequestInit : Type := mkInit {
  method : string;
  headers : list (string * string);
  body : Body;
  signal : bool
}.

(** What a resolved [fetch] gives: the status line and the two ways the
    body is read.  Reading the body can reject. *)
Record Response : Type := mkResponse {
  status : Z;
  text : Result string;
  json : Result JsValue
}.

(** [response.ok]: the status is in the range 200-299. *)
Definition ok (r : Response) : bool := (200 <=? status r)%Z && (status r <=? 299)%Z.

Module ChunkUploadProgress.
Record t : Type := mk {
  fileName : string;
  chunkIndex : Z;
  totalChunks : Z;
  uploadedBytes : Z;
  totalBytes : Z;
  percentage : Z
}.
End ChunkUploadProgress.

Module ChunkedUploadResult.
Record t : Type := mk {
  success : bool;
  uploadId : JsValue;
  fileName : string;
  finalUrl : option JsValue;
  error : option string
}.
End ChunkedUploadResult.

(** What a timer does when it fires: abort the controller of the pending
    request, or resolve the promise a retry is waiting on. *)
Inductive TimerAction : Type := AbortRequest | ResolveDelay.

(** What a progress callback can record: a sample handed to the callback of
    a [ChunkedUploader], or a (file name, percentage) pair handed to the
    callback of [uploadFiles]. *)
Inductive Observation : Type :=
| ChunkProgress (p : ChunkUploadProgress.t)
| FileProgress (fileName : string) (progress : Z).

Inductive Event : Type :=
| Fetch (url : string) (init : RequestInit)
| SetTimeout (action : TimerAction) (ms : Z)
| ClearTimeout
| Callback (o : Observation).

Definition Trace : Type := list Event.

Inductive FetchOutcome : Type :=
| Resolves (r : Response)
| Rejects (e : Exn).

(** The network answers the latest [fetch] of a history. *)
Definition Network : Type := Trace -> FetchOutcome.

(** ** Sequential asynchronous computations *)

Definition M (A : Type) : Type := Network -> Trace -> Result A * Trace.

Definition ret {A : Type} (a : A) : M A := fun _ tr => (Ok a, tr).

Definition throw {A : Type} (e : Exn) : M A := fun _ tr => (Throw e, tr).

Definition bind {A B : Type} (m : M A) (k : A -> M B) : M B :=
  fun net tr =>
    match m net tr with
    | (Ok a, tr') => k a net tr'
    | (Throw e, tr') => (Throw e, tr')
    end.

(** [try { m } catch (error) { handler error }]. *)
Definition try_catch {A : Type} (m : M A) (handler : Exn -> M A) : M A :=
  fun net tr =>
    match m net tr with
    | (Ok a, tr') => (Ok a, tr')
    | (Throw e, tr') => handler e net tr'
    end.

(** [await] of a promise that is already settled. *)
Definition await {A : Type} (r : Result A) : M A := fun _ tr => (r, tr).

Definition emit (e : Event) : M unit := fun _ tr => (Ok tt, tr ++ [e]).

Definition emit_all (es : list Event) : M unit := fun _ tr => (Ok tt, tr ++ es).

Definition fetch (url : string) (init : RequestInit) : M Response :=
  fun net tr =>
    let tr' := tr ++ [Fetch url init] in
    match net tr' with
    | Resolves r => (Ok r, tr')
    | Rejects e => (Throw e, tr')
    end.

Declare Scope js_scope.
Delimit Scope js_scope with js.
Notation "x <- m ;; k" := (bind m (fun x => k))
  (at level 61, m at next level, right associativity) : js_scope.
Notation "m ;; k" := (bind m (fun _ => k))
  (at level 61, right associativity) : js_scope.
Local Open Scope js_scope.
Local Open Scope string_scope.
Local Open Scope Z_scope.

(** [for (let i = lo; i < hi; i++) body(i)], for a body that assigns neither
    [i] nor [hi]. *)
Fixpoint for_range (n : nat) (i : Z) (body : Z -> M unit) : M unit :=
  match n with
  | O => ret tt
  | S n' => body i ;; for_range n' (i + 1) body
  end.

Definition for_loop (lo hi : Z) (body : Z -> M unit) : M unit :=
  for_range (Z.to_nat (hi - lo)) lo body.

(** [xs.push(x)]. *)
Definition push {A : Type} (xs : list A) (x : A) : list A := (xs ++ [x])%list.

(** [for (const x of xs) body(x)]. *)
Fixpoint for_of {A : Type} (xs : list A) (body : A -> M unit) : M unit :=
  match xs with
  | [] => ret tt
  | x :: rest => body x ;; for_of rest body
  end.

Definition POST_form (fd : FormData) : RequestInit :=
  {| method := "POST"; headers := []; body := BodyForm fd; signal := false |}.

Definition POST_json (v : JsValue) : RequestInit :=
  {| method := "POST"; headers := [("Content-Type", "application/json")];
     body := BodyJson v; signal := false |}.

(** ** The chunked upload utility *)

Definition CHUNK_SIZE : Z := 5 * 1024 * 1024.
Definition MAX_RETRIES : Z := 3.

(** A progress callback is an observer: it is modelled by what it records,
    and it neither throws nor touches the network. *)
Definition ProgressCallback : Type := ChunkUploadProgress.t -> list Observation.

Record ChunkedUploader : Type := mkChunkedUploader {
  onProgress : option ProgressCallback
}.

(** [new ChunkedUploader(p => record(p))]: the uploader whose callback
    records each sample it is given. *)
Definition recording_uploader : ChunkedUploader :=
  {| onProgress := Some (fun p => [ChunkProgress p]) |}.

(** [this.onProgress?.(p)]. *)
Definition call_onProgress (this : ChunkedUploader) (p : ChunkUploadProgress.t) : M unit :=
  match onProgress this with
  | Some callback => emit_all (map Callback (callback p))
  | None => ret tt
  end.

Definition initializeUpload (fileName : string) (totalBytes totalChunks : Z) : M JsValue :=
  response <- fetch "/api/upload/init"
                (POST_json (JsObject [("fileName", JsString fileName);
                                      ("totalBytes", JsNumber (inject_Z totalBytes));
                                      ("totalChunks", JsNumber (inject_Z totalChunks))])) ;;
  if negb (ok response) then
    throw (Error ("Failed to initialize upload: " ++ Text.decimal (status response)))
  else
    result <- await (json response) ;;
    await (get result "uploadId").

Definition chunk_request (uploadId : JsValue) (chunkIndex : Z) (chunk : FormValue) : RequestInit :=
  POST_form [("uploadId", FormText uploadId);
             ("chunkIndex", FormText (JsString (Text.decimal chunkIndex)));
             ("chunk", chunk)].

Definition uploadChunk (uploadId : JsValue) (chunkIndex : Z) (chunk : FormValue) : M unit :=
  response <- fetch "/api/upload/chunk" (chunk_request uploadId chunkIndex chunk) ;;
  if negb (ok response) then
    throw (Error ("Failed to upload chunk: " ++ Text.decimal (status response)))
  else ret tt.

Definition finalizeUpload (uploadId : JsValue) : M JsValue :=
  response <- fetch "/api/upload/finalize"
                (POST_json (JsObject [("uploadId", uploadId)])) ;;
  if negb (ok response) then
    throw (Error ("Failed to finalize upload: " ++ Text.decimal (status response)))
  else
    result <- await (json response) ;;
    await (get result "url").

(** [Math.ceil(totalBytes / CHUNK_SIZE)]. *)
Definition chunk_count (totalBytes : Z) : Z :=
  JsNumber.Math_ceil (JsNumber.div (inject_Z totalBytes) (inject_Z CHUNK_SIZE)).

(** The bounds of the slice of chunk [chunkIndex]. *)
Definition chunk_start (chunkIndex : Z) : Z := chunkIndex * CHUNK_SIZE.

Definition chunk_end (totalBytes chunkIndex : Z) : Z :=
  JsNumber.Math_min (chunk_start chunkIndex + CHUNK_SIZE) totalBytes.

(** [Math.round((uploadedBytes / totalBytes) * 100)]. *)
Definition percentage_of (uploadedBytes totalBytes : Z) : Z :=
  JsNumber.Math_round
    (JsNumber.mul (JsNumber.div (inject_Z uploadedBytes) (inject_Z totalBytes)) 100).

Definition progress_sample (file : File) (chunkIndex : Z) : ChunkUploadProgress.t :=
  let totalBytes := size file in
  let uploadedBytes := chunk_end totalBytes chunkIndex in
  {| ChunkUploadProgress.fileName := name file;
     ChunkUploadProgress.chunkIndex := chunkIndex;
     ChunkUploadProgress.totalChunks := chunk_count totalBytes;
     ChunkUploadProgress.uploadedBytes := uploadedBytes;
     ChunkUploadProgress.totalBytes := totalBytes;
     ChunkUploadProgress.percentage := percentage_of uploadedBytes totalBytes |}.

(** The delay before the next attempt: [setTimeout(resolve, 1000 * retries)]. *)
Definition backoff (retries : Z) : M unit := emit (SetTimeout ResolveDelay (1000 * retries)).

(** The loop [while (!success && retries < MAX_RETRIES)] around one chunk.
    [fuel] bounds the number of iterations; [MAX_RETRIES] of them are
    enough, since each iteration either succeeds or counts a retry. *)
Fixpoint retry_loop (this : ChunkedUploader) (file : File) (uploadId : JsValue)
    (chunkIndex : Z) (fuel : nat) (success : bool) (retries : Z) : M unit :=
  if negb success && (retries <? MAX_RETRIES) then
    match fuel with
    | O => ret tt
    | S fuel' =>
        state <- try_catch
          (uploadChunk uploadId chunkIndex
             (FormBlob file (chunk_start chunkIndex) (chunk_end (size file) chunkIndex)) ;;
           call_onProgress this (progress_sample file chunkIndex) ;;
           ret (true, retries))
          (fun _ =>
             let retries := retries + 1 in
             if retries >=? MAX_RETRIES then
               throw (Error ("Failed to upload chunk " ++ Text.decimal (chunkIndex + 1)
                             ++ " after " ++ Text.decimal MAX_RETRIES ++ " attempts"))
             else
               backoff retries ;; ret (false, retries)) ;;
        retry_loop this file uploadId chunkIndex fuel' (fst state) (snd state)
    end
  else ret tt.

(** The body of the chunk loop of [uploadFile]. *)
Definition upload_one_chunk (this : ChunkedUploader) (file : File) (uploadId : JsValue)
    (chunkIndex : Z) : M unit :=
  retry_loop this file uploadId chunkIndex (Z.to_nat MAX_RETRIES) false 0.

Definition uploadFile (this : ChunkedUploader) (file : File) : M ChunkedUploadResult.t :=
  let fileName := name file in
  let totalBytes := size file in
  let totalChunks := chunk_count totalBytes in
  try_catch
    (uploadId <- initializeUpload fileName totalBytes totalChunks ;;
     for_loop 0 totalChunks (upload_one_chunk this file uploadId) ;;
     finalUrl <- finalizeUpload uploadId ;;
     ret {| ChunkedUploadResult.success := true;
            ChunkedUploadResult.uploadId := uploadId;
            ChunkedUploadResult.fileName := fileName;
            ChunkedUploadResult.finalUrl := Some finalUrl;
            ChunkedUploadResult.error := None |})
    (fun error =>
       ret {| ChunkedUploadResult.success := false;
              ChunkedUploadResult.uploadId := JsString EmptyString;
              ChunkedUploadResult.fileName := fileName;
              ChunkedUploadResult.finalUrl := None;
              ChunkedUploadResult.error := Some (message error) |}).

Definition needsChunkedUpload (file : File) : bool :=
  let MAX_SIMPLE_UPLOAD := 25 * 1024 * 1024 in
  size file >? MAX_SIMPLE_UPLOAD.

(** The accumulators of [uploadFiles]. *)
Record UploadFilesResult : Type := mkUploadFilesResult {
  success : bool;
  results : list JsValue;
  errors : list string
}.

Definition FileProgressCallback : Type := string -> Z -> list Observation.

(** [onProgress?.(fileName, progress)]. *)
Definition call_file_progress (onProgress : option FileProgressCallback)
    (fileName : string) (progress : Z) : list Observation :=
  match onProgress with
  | Some callback => callback fileName progress
  | None => []
  end.

(** [`${result.error}`]. *)
Definition show_error (e : option string) : string :=
  match e with
  | Some m => m
  | None => "undefined"
  end.

Definition or_undefined (v : option JsValue) : JsValue :=
  match v with
  | Some x => x
  | None => JsUndefined
  end.

(** The chunked branch of [uploadFiles] for one file. *)
Definition upload_large_file (onProgress : option FileProgressCallback) (file : File)
    (acc : list JsValue * list string) : M (list JsValue * list string) :=
  let chunkedUploader :=
    {| onProgress := Some (fun progress =>
         call_file_progress onProgress (name file)
           (ChunkUploadProgress.percentage progress)) |} in
  result <- uploadFile chunkedUploader file ;;
  if ChunkedUploadResult.success result then
    ret (push (fst acc)
              (JsObject [("fileName", JsString (name file));
                         ("uploadId", ChunkedUploadResult.uploadId result);
                         ("url", or_undefined (ChunkedUploadResult.finalUrl result));
                         ("method", JsString "chunked")]),
         snd acc)
  else
    ret (fst acc,
         push (snd acc) (name file ++ ": " ++ show_error (ChunkedUploadResult.error result))).

(** The simple branch of [uploadFiles] for one file. *)
Definition upload_small_file (onProgress : option FileProgressCallback) (file : File)
    (acc : list JsValue * list string) : M (list JsValue * list string) :=
  response <- fetch "/api/upload" (POST_form [("files", FormFile file)]) ;;
  if ok response then
    result <- await (json response) ;;
    emit_all (map Callback (call_file_progress onProgress (name file) 100)) ;;
    ret (push (fst acc)
              (JsObject [("fileName", JsString (name file));
                         ("result", result);
                         ("method", JsString "simple")]),
         snd acc)
  else
    errorText <- await (text response) ;;
    ret (fst acc, push (snd acc) (name file ++ ": " ++ errorText)).

(** One iteration of the loop of [uploadFiles], with its [try]/[catch]. *)
Definition upload_one_file (onProgress : option FileProgressCallback) (file : File)
    (acc : list JsValue * list string) : M (list JsValue * list string) :=
  try_catch
    (if needsChunkedUpload file
     then upload_large_file onProgress file acc
     else upload_small_file onProgress file acc)
    (fun error => ret (fst acc, push (snd acc) (name file ++ ": " ++ message error))).

Fixpoint upload_each (onProgress : option FileProgressCallback) (files : list File)
    (acc : list JsValue * list string) : M (list JsValue * list string) :=
  match files with
  | [] => ret acc
  | file :: rest =>
      acc' <- upload_one_file onProgress file acc ;;
      upload_each onProgress rest acc'
  end.

Definition uploadFiles (files : list File) (onProgress : option FileProgressCallback)
    : M UploadFilesResult :=
  acc <- upload_each onProgress files ([], []) ;;
  ret {| success := (List.length (snd acc) =? 0)%nat;
         results := fst acc;
         errors := snd acc |}.

(** ** The API client *)
Module GrantAPI.

(** [try { m } catch (error) { console.error(...); throw error }]. *)
Definition rethrowing {A : Type} (m : M A) : M A := try_catch m (fun error => throw error).

(** The loop of [uploadDocumentsChunked]: every file goes, whole, in a
    request of its own to /api/upload-single. *)
Fixpoint upload_each_single (files : list File) (results : list JsValue) : M (list JsValue) :=
  match files with
  | [] => ret results
  | file :: rest =>
      let formData := [("files", FormFile file)] in
      response <- fetch "/api/upload-single" (POST_form formData) ;;
      if negb (ok response) then
        _ <- await (text response) ;;
        throw (Error ("Upload failed for " ++ name file ++ ": "
                      ++ Text.decimal (status response)))
      else
        result <- await (json response) ;;
        upload_each_single rest (push results result)
  end.

(** [results.flatMap(r => r.artifact_ids || [])]. *)
Fixpoint flatMap_artifact_ids (results : list JsValue) : Result (list JsValue) :=
  match results with
  | [] => Ok []
  | r :: rest =>
      match get r "artifact_ids" with
      | Throw e => Throw e
      | Ok ids =>
          let mapped := if truthy ids then ids else JsArray [] in
          match flatMap_artifact_ids rest with
          | Throw e => Throw e
          | Ok tail =>
              match mapped with
              | JsArray items => Ok (items ++ tail)%list
              | other => Ok (other :: tail)
              end
          end
      end
  end.

Definition uploadDocumentsChunked (files : list File) : M JsValue :=
  rethrowing
    (results <- upload_each_single files [] ;;
     allArtifactIds <- await (flatMap_artifact_ids results) ;;
     ret (JsObject
            [("success", JsBool true);
             ("artifact_ids", JsArray allArtifactIds);
             ("message", JsString ("Uploaded " ++ Text.decimal (Z.of_nat (List.length files))
                                   ++ " large documents successfully (chunked)"));
             ("upload_method", JsString "chunked")])).

Definition MAX_FILE_SIZE : Z := 500 * 1024 * 1024.
Definition MAX_TOTAL_SIZE : Z := 500 * 1024 * 1024.
Definition CLOUD_RUN_LIMIT : Z := 30 * 1024 * 1024.

(** The first loop of [uploadDocuments]: the per-file cap. *)
Fixpoint check_file_sizes (files : list File) : M unit :=
  match files with
  | [] => ret tt
  | file :: rest =>
      if size file >? MAX_FILE_SIZE then
        throw (Error ("File " ++ Text.quote ++ name file ++ Text.quote ++ " is "
                      ++ Text.megabytes (size file) ++ "MB. Maximum file size is 500MB."))
      else check_file_sizes rest
  end.

(** [files.reduce((sum, file) => sum + file.size, 0)]. *)
Definition total_size (files : list File) : Z :=
  fold_left (fun sum file => sum + size file) files 0.

(** The direct path: one multipart request with every file under the field
    name [files]. *)
Definition upload_direct (files : list File) : M JsValue :=
  let formData := map (fun file => ("files", FormFile file)) files in
  response <- fetch "/api/upload" (POST_form formData) ;;
  if negb (ok response) then
    errorText <- await (text response) ;;
    throw (Error ("HTTP error! status: " ++ Text.decimal (status response)
                  ++ ", body: " ++ errorText))
  else
    await (json response).

(** [uploadDocuments(files)].  The parameter is declared [File[]]; the guard
    [!files] of the body also considers a missing argument, which is [None]
    here.  The logging statements at the head of the body read
    [files.length] and call [files.map] before that guard is reached. *)
Definition uploadDocuments (files : option (list File)) : M JsValue :=
  rethrowing
    (files <- match files with
              | Some files => ret files
              | None => throw (TypeError
                  "Cannot read properties of undefined (reading 'length')")
              end ;;
     if (List.length files =? 0)%nat then
       throw (Error "No files provided for upload")
     else
       check_file_sizes files ;;
       let totalSize := total_size files in
       if totalSize >? MAX_TOTAL_SIZE then
         throw (Error ("Total upload size is " ++ Text.megabytes totalSize
                       ++ "MB. Maximum total size is 500MB. Please upload fewer files at once."))
       else if totalSize >? CLOUD_RUN_LIMIT then
         uploadDocumentsChunked files
       else
         upload_direct files).

End GrantAPI.

(** ** The single-file upload proxy route (/api/upload-single) *)
Module UploadSingleRoute.

Definition DEFAULT_API_BASE : string := "https://vertex-grant-agent-vqjdj6kdpq-uc.a.run.app".

(** [process.env.NEXT_PUBLIC_GRANT_API_URL || '<default>']. *)
Definition API_BASE (env : option string) : string :=
  match env with
  | Some (String c rest) => String c rest
  | Some EmptyString | None => DEFAULT_API_BASE
  end.

(** The result of [NextResponse.json(body, { status })]. *)
Record NextResponse : Type := mkNextResponse {
  response_body : JsValue;
  response_status : Z
}.

Definition NextResponse_json (body : JsValue) (status : option Z) : NextResponse :=
  {| response_body := body;
     response_status := match status with Some s => s | None => 200 end |}.

(** The forward to the backend, with the abort signal of the controller
    attached. *)
Definition forward_request (formData : FormData) : RequestInit :=
  {| method := "POST"; headers := []; body := BodyForm formData; signal := true |}.

(** [POST(request)].  [request] is what [request.formData()] settles to. *)
Definition POST (env : option string) (request : Result FormData) : M NextResponse :=
  try_catch
    (formData <- await request ;;
     emit (SetTimeout AbortRequest 600000) ;;
     backendResponse <- fetch (API_BASE env ++ "/upload_documents") (forward_request formData) ;;
     emit ClearTimeout ;;
     if negb (ok backendResponse) then
       errorText <- await (text backendResponse) ;;
       ret (NextResponse_json
              (JsObject [("success", JsBool false);
                         ("error", JsString ("Backend error: "
                                             ++ Text.decimal (status backendResponse)));
                         ("details", JsString errorText)])
              (Some (status backendResponse)))
     else
       result <- await (json backendResponse) ;;
       ret (NextResponse_json result None))
    (fun error =>
       ret (NextResponse_json
              (JsObject [("success", JsBool false);
                         ("error", JsString "Proxy server error");
                         ("details", JsString (message error))])
              (Some 500))).

End UploadSingleRoute.

(** ** Reading a history *)

(** The latest request of the history failed: the promise of [fetch] was
    rejected, or it resolved with a status outside 200-299. *)
Definition failed (net : Network) (history : Trace) : bool :=
  match net history with
  | Rejects _ => true
  | Resolves r => negb (ok r)
  end.

(** The samples handed to the progress callback, in order. *)
Fixpoint samples (tr : Trace) : list ChunkUploadProgress.t :=
  match tr with
  | [] => []
  | Callback (ChunkProgress p) :: rest => p :: samples rest
  | _ :: rest => samples rest
  end.

(** The requests of a history, in order. *)
Fixpoint requests (tr : Trace) : list (string * RequestInit) :=
  match tr with
  | [] => []
  | Fetch url init :: rest => (url, init) :: requests rest
  | _ :: rest => requests rest
  end.

(** The byte ranges of the slices in a form. *)
Fixpoint form_slices (fd : FormData) : list (Z * Z) :=
  match fd with
  | [] => []
  | (_, FormBlob _ start stop) :: rest => (start, stop) :: form_slices rest
  | _ :: rest => form_slices rest
  end.

(** The files a form carries whole. *)
Fixpoint form_files (fd : FormData) : list File :=
  match fd with
  | [] => []
  | (_, FormFile f) :: rest => f :: form_files rest
  | _ :: rest => form_files rest
  end.

Definition request_form (r : string * RequestInit) : FormData :=
  match body (snd r) with
  | BodyForm fd => fd
  | BodyJson _ => []
  end.

(** The byte ranges posted to /api/upload/chunk, in order. *)
Definition posted_slices (tr : Trace) : list (Z * Z) :=
  flat_map (fun r => form_slices (request_form r))
           (filter (fun r => String.eqb (fst r) "/api/upload/chunk") (requests tr)).

(** The files sent whole, in any request. *)
Definition whole_files (tr : Trace) : list File :=
  flat_map (fun r => form_files (request_form r)) (requests tr).

(** The requests sent to [url]. *)
Definition requests_to (url : string) (tr : Trace) : list (string * RequestInit) :=
  filter (fun r => String.eqb (fst r) url) (requests tr).

(** The chunk indices [0 .. n - 1]. *)
Definition indices (n : Z) : list Z := map Z.of_nat (seq 0 (Z.to_nat n)).

(** The byte ranges [uploadFile] slices for a file of [totalBytes] bytes. *)
Definition chunk_ranges (totalBytes : Z) : list (Z * Z) :=
  map (fun i => (chunk_start i, chunk_end totalBytes i)) (indices (chunk_count totalBytes)).

Definition range_length (r : Z * Z) : Z := snd r - fst r.

Definition total_length (ranges : list (Z * Z)) : Z :=
  fold_right Z.add 0 (map range_length ranges).

(** The request that posts chunk [i] of [file] in the session [uploadId]. *)
Definition chunk_post (file : File) (uploadId : JsValue) (i : Z) : Event :=
  Fetch "/api/upload/chunk"
        (chunk_request uploadId i (FormBlob file (chunk_start i) (chunk_end (size file) i))).

Definition init_post (file : File) : Event :=
  Fetch "/api/upload/init"
        (POST_json (JsObject [("fileName", JsString (name file));
                              ("totalBytes", JsNumber (inject_Z (size file)));
                              ("totalChunks", JsNumber (inject_Z (chunk_count (size file))))])).

Definition finalize_post (uploadId : JsValue) : Event :=
  Fetch "/api/upload/finalize" (POST_json (JsObject [("uploadId", uploadId)])).

(** What the callback of an uploader records for chunk [i]. *)
Definition progress_events (this : ChunkedUploader) (file : File) (i : Z) : Trace :=
  match onProgress this with
  | Some callback => map Callback (callback (progress_sample file i))
  | None => []
  end.

(** The requests of [uploadDocumentsChunked] and of the direct path. *)
Definition single_post (file : File) : Event :=
  Fetch "/api/upload-single" (POST_form [("files", FormFile file)]).

Definition direct_post (files : list File) : Event :=
  Fetch "/api/upload" (POST_form (map (fun file => ("files", FormFile file)) files)).

(** The two validation messages of [uploadDocuments]. *)
Definition file_too_large (file : File) : string :=
  "File " ++ Text.quote ++ name file ++ Text.quote ++ " is "
  ++ Text.megabytes (size file) ++ "MB. Maximum file size is 500MB.".

Definition total_too_large (totalSize : Z) : string :=
  "Total upload size is " ++ Text.megabytes totalSize
  ++ "MB. Maximum total size is 500MB. Please upload fewer files at once.".

(** ** Networks used in concrete runs *)

Definition ok_response (j : JsValue) : Response :=
  {| status := 200; text := Ok "ok"; json := Ok j |}.

Definition error_response (code : Z) (details : string) : Response :=
  {| status := code; text := Ok details;
     json := Throw (SyntaxError "Unexpected token in JSON") |}.

(** A backend that accepts every request and answers with a session id, a
    final URL and one artifact id. *)
Definition backend_reply : JsValue :=
  JsObject [("uploadId", JsString "session-1");
            ("url", JsString "gs://bucket/object");
            ("artifact_ids", JsArray [JsString "artifact-1"])].

Definition net_ok : Network := fun _ => Resolves (ok_response backend_reply).

(** The text of the field [key] of the latest request, when it is a form. *)
Definition latest_field (key : string) (history : Trace) : option JsValue :=
  match last (requests history) (EmptyString, POST_form []) with
  | (_, {| body := BodyForm fd |}) =>
      match find (fun kv => String.eqb (fst kv) key) fd with
      | Some (_, FormText v) => Some v
      | _ => None
      end
  | _ => None
  end.

(** A backend that answers 503 to every post of chunk [k] and accepts
    everything else. *)
Definition net_failing_chunk (k : Z) : Network :=
  fun history =>
    match latest_field "chunkIndex" history with
    | Some (JsString s) =>
        if String.eqb s (Text.decimal k)
        then Resolves (error_response 503 "unavailable")
        else Resolves (ok_response backend_reply)
    | _ => Resolves (ok_response backend_reply)
    end.


Definition MB : Z := 1024 * 1024.

(** ** Vocabulary of the statements *)

Local Open Scope list_scope.

(** The test of the per-file cap in [uploadDocuments]. *)
Definition oversize (file : File) : bool := size file >? GrantAPI.MAX_FILE_SIZE.

(** The message of the error thrown when a chunk has used its retries. *)
Definition retries_exhausted (chunkIndex : Z) : string :=
  ("Failed to upload chunk " ++ Text.decimal (chunkIndex + 1)
   ++ " after " ++ Text.decimal MAX_RETRIES ++ " attempts")%string.

(** The chunk indices [i, i + 1, ..., i + n - 1]. *)
Fixpoint range_from (i : Z) (n : nat) : list Z :=
  match n with
  | O => []
  | S n' => i :: range_from (i + 1) n'
  end.

(** An event of a chunked upload session: a POST to one of the three
    session endpoints that carries no whole file, a wait, or a callback. *)
Definition session_event (e : Event) : Prop :=
  match e with
  | Fetch url init =>
      In url ["/api/upload/init"; "/api/upload/chunk"; "/api/upload/finalize"] /\
      method init = "POST" /\
      form_files (request_form (url, init)) = []
  | SetTimeout action _ => action = ResolveDelay
  | ClearTimeout => False
  | Callback _ => True
  end.

Definition failure_result (file : File) (e : Exn) : ChunkedUploadResult.t :=
  {| ChunkedUploadResult.success := false;
     ChunkedUploadResult.uploadId := JsString EmptyString;
     ChunkedUploadResult.fileName := name file;
     ChunkedUploadResult.finalUrl := None;
     ChunkedUploadResult.error := Some (message e) |}.

Definition success_result (file : File) (uploadId finalUrl : JsValue) : ChunkedUploadResult.t :=
  {| ChunkedUploadResult.success := true;
     ChunkedUploadResult.uploadId := uploadId;
     ChunkedUploadResult.fileName := name file;
     ChunkedUploadResult.finalUrl := Some finalUrl;
     ChunkedUploadResult.error := None |}.


(** The history of a chunk whose three attempts were all needed. *)
Definition three_attempts (file : File) (uploadId : JsValue) (i : Z) : Trace :=
  [chunk_post file uploadId i; SetTimeout ResolveDelay 1000;
   chunk_post file uploadId i; SetTimeout ResolveDelay 2000;
   chunk_post file uploadId i].

(** ** Statements that are compared with the code *)

(** The routing of a batch by [uploadDocuments]: above the platform limit
    the batch is handed to [uploadDocumentsChunked], which posts whole files
    to /api/upload-single only; at or below it, the batch goes in exactly
    one request to /api/upload, every file under the field [files]. *)
Definition routing_claim (files : list File) : Prop :=
  forall net tr,
    (GrantAPI.total_size files > GrantAPI.CLOUD_RUN_LIMIT ->
       GrantAPI.uploadDocuments (Some files) net tr
         = GrantAPI.uploadDocumentsChunked files net tr /\
       exists k, (k <= List.length files)%nat /\
         snd (GrantAPI.uploadDocuments (Some files) net tr)
           = tr ++ map single_post (firstn k files)) /\
    (GrantAPI.total_size files <= GrantAPI.CLOUD_RUN_LIMIT ->
       snd (GrantAPI.uploadDocuments (Some files) net tr) = tr ++ [direct_post files]).

(** A message names a file of the batch and states its size in MB. *)
Definition names_offending_file (files : list File) (msg : string) : Prop :=
  exists file, In file files /\
    Text.includes msg (name file) = true /\
    Text.includes msg (Text.megabytes (size file)) = true.

(** The batch is rejected before any request, with a message that names
    the offending file and its size. *)
Definition rejection_claim (files : list File) : Prop :=
  forall net tr, exists msg,
    GrantAPI.uploadDocuments (Some files) net tr = (Throw (Error msg), tr) /\
    names_offending_file files msg.

(** Scenario B: through the entry point, one file takes 24 chunk posts and
    one finalize call, and the result is tagged [chunked]. *)
Definition scenario_B_claim (file : File) (net : Network) : Prop :=
  let run := GrantAPI.uploadDocuments (Some [file]) net [] in
  List.length (requests_to "/api/upload/chunk" (snd run)) = 24%nat /\
  List.length (requests_to "/api/upload/finalize" (snd run)) = 1%nat /\
  exists v, fst run = Ok v /\ get v "upload_method" = Ok (JsString "chunked").

(** A file is classified for the chunked path, and no upload invocation
    that contains it sends it whole. *)
Definition per_file_claim (file : File) : Prop :=
  needsChunkedUpload file = true /\
  forall files net, In file files ->
    ~ In file (whole_files (snd (GrantAPI.uploadDocuments (Some files) net []))).

(** The invocation is rejected with the message of the empty-list guard,
    before anything else happens. *)
Definition no_files_claim (files : option (list File)) : Prop :=
  forall net tr,
    GrantAPI.uploadDocuments files net tr
      = (Throw (Error "No files provided for upload"), tr).

(** The uploader [uploadFiles] builds for one file: its callback hands the
    percentage of each chunk to [onProgress] under the name of the file. *)
Definition uploader_for (onProgress : option FileProgressCallback) (file : File)
    : ChunkedUploader :=
  {| onProgress := Some (fun progress =>
       call_file_progress onProgress (name file)
         (ChunkUploadProgress.percentage progress)) |}.

(** Concrete inputs. *)
Definition big_pdf : File := mkFile "big.pdf" (120 * MB).
Definition medium_pdf : File := mkFile "medium.pdf" (26 * MB).
Definition huge_pdf : File := mkFile "huge.pdf" (600 * MB).
Definition small_bin : File := mkFile "m.bin" (11 * MB).
Definition two_large_files : list File :=
  [mkFile "a.pdf" (300 * MB); mkFile "b.pdf" (300 * MB)].
Definition five_files : list File :=
  [mkFile "1.pdf" (8 * MB); mkFile "2.pdf" (8 * MB); mkFile "3.pdf" (8 * MB);
   mkFile "4.pdf" (8 * MB); mkFile "5.pdf" (8 * MB)].

(** ** The other calls of the API client *)
Module GrantAPICalls.
Import GrantAPI.
Local Open Scope string_scope.

Definition DEFAULT_API_BASE : string := "https://vertex-grant-agent-vqjdj6kdpq-uc.a.run.app".

(** [process.env.NEXT_PUBLIC_GRANT_API_URL || '<default>']. *)
Definition API_BASE (env : option string) : string :=
  match env with
  | Some (String c rest) => String c rest
  | Some EmptyString | None => DEFAULT_API_BASE
  end.

(** [fetch(url)] without a second argument: the method is GET and the body
    is [undefined], which is also what [JSON.stringify(undefined)] is. *)
Definition GET_request : RequestInit :=
  {| method := "GET"; headers := []; body := BodyJson JsUndefined; signal := false |}.

Definition checkHealth (env : option string) : M JsValue :=
  rethrowing
    (response <- fetch (API_BASE env ++ "/health") GET_request ;;
     await (json response)).

Definition generateQuickProposal (env : option string) (data : JsValue) : M JsValue :=
  rethrowing
    (response <- fetch (API_BASE env ++ "/quick_proposal") (POST_json data) ;;
     if negb (ok response) then
       throw (Error ("HTTP error! status: " ++ Text.decimal (status response)))
     else
       await (json response)).

Definition generateFullProposal (env : option string) (data : JsValue) : M JsValue :=
  rethrowing
    (response <- fetch (API_BASE env ++ "/full_proposal") (POST_json data) ;;
     if negb (ok response) then
       throw (Error ("HTTP error! status: " ++ Text.decimal (status response)))
     else
       await (json response)).

End GrantAPICalls.

(** ** The dashboard *)
Module Dashboard.
Local Open Scope string_scope.

(** [checkAPIHealth]: the value handed to [setIsHealthy]. *)
Definition checkAPIHealth (env : option string) : M bool :=
  try_catch
    (_ <- GrantAPICalls.checkHealth env ;; ret true)
    (fun _ => ret false).

(** [proposals.filter(p => p.status === status).length]. *)
Fixpoint count_status (status : string) (proposals : list JsValue) : Result Z :=
  match proposals with
  | [] => Ok 0
  | p :: rest =>
      match get p "status" with
      | Throw e => Throw e
      | Ok s =>
          let keep := match s with
                      | JsString s' => String.eqb s' status
                      | _ => false
                      end in
          match count_status status rest with
          | Throw e => Throw e
          | Ok n => Ok (if keep then n + 1 else n)
          end
      end
  end.

(** The object handed to [setStats].  [totalFunding] is the text [$]
    followed by the rendering of [fundingAmount] in the locale of the
    browser; the number is kept. *)
Record DashboardStats : Type := mkStats {
  totalProposals : Z;
  inProgress : Z;
  completed : Z;
  successRate : Z;
  fundingAmount : Z
}.

(** The part of [loadDashboardData] after [JSON.parse] has given the array
    [proposals]: the recent proposals and the statistics. *)
Definition recent_proposals (proposals : list JsValue) : list JsValue := firstn 3 proposals.

Definition stats_of (proposals : list JsValue) : Result DashboardStats :=
  match count_status "completed" proposals with
  | Throw e => Throw e
  | Ok completed =>
      match count_status "in_progress" proposals with
      | Throw e => Throw e
      | Ok inProgress =>
          let total := Z.of_nat (List.length proposals) in
          Ok {| totalProposals := total;
                inProgress := inProgress;
                completed := completed;
                successRate := if total >? 0 then percentage_of completed total else 0;
                fundingAmount := total * 50000 |}
      end
  end.

End Dashboard.

(** ** The upload handlers of the two forms

    A handler runs from the state of its component to the state after its
    last update; the updates are functional ([prev => ...]), so the final
    state is the state the updates give one after the other.  Computed
    member access [value[key]] walks the prototype chain and the conversion
    of a value to a string depends on its kind; both are parameters. *)
Section Forms.

Variable member : JsValue -> string -> JsValue.
Variable to_text : JsValue -> string.

Inductive FileStatus : Type := StatusUploaded | StatusFailed.

(** An entry of [uploadedFiles]: [{name, url, status}]. *)
Record UploadedFile : Type := mkUploadedFile {
  file_name : string;
  file_url : JsValue;
  file_status : FileStatus
}.

Inductive UploadStatus : Type := UploadNone | Uploading | UploadSuccess | UploadFailed.

(** [{...prev, [key]: value}] on a map from file names to percentages. *)
Fixpoint set_progress (key : string) (value : Z) (prev : list (string * Z)) : list (string * Z) :=
  match prev with
  | [] => [(key, value)]
  | (k, v) :: rest =>
      if String.eqb k key then (k, value) :: rest else (k, v) :: set_progress key value rest
  end.

(** [uploadResponse.file_urls?.[file.name] || '#'], given the value of
    [uploadResponse.file_urls]. *)
Definition url_of (file_urls : JsValue) (file : File) : JsValue :=
  match file_urls with
  | JsUndefined | JsNull => JsString "#"
  | urls => if truthy (member urls (name file)) then member urls (name file) else JsString "#"
  end.

Definition uploaded_entries (file_urls : JsValue) (newFiles : list File) : list UploadedFile :=
  map (fun file => {| file_name := name file;
                      file_url := url_of file_urls file;
                      file_status := StatusUploaded |}) newFiles.

Definition failed_entries (newFiles : list File) : list UploadedFile :=
  map (fun file => {| file_name := name file;
                      file_url := JsString "#";
                      file_status := StatusFailed |}) newFiles.

(** The call of [uploadDocuments] and the test of its answer, shared by the
    two handlers: the value of [file_urls] when the answer has a truthy
    [success], an exception otherwise. *)
Definition upload_and_check (newFiles : list File) : M JsValue :=
  uploadResponse <- GrantAPI.uploadDocuments (Some newFiles) ;;
  success <- await (get uploadResponse "success") ;;
  if truthy success then
    await (get uploadResponse "file_urls")
  else
    message <- await (get uploadResponse "message") ;;
    throw (Error (if truthy message then to_text message else "Upload failed"%string)).

(** *** [QuickProposalForm] *)

Record QuickForm : Type := mkQuickForm {
  documents : list File;
  uploadedFiles : list UploadedFile;
  error : string;
  uploadStatus : UploadStatus;
  isUploading : bool;
  uploadProgress : list (string * Z);
  currentStep : Z
}.

(** The progress map shown while the upload runs: 0 for every file, then 25
    for every file when the batch is above 30 MB. *)
Definition initial_progress (newFiles : list File) : list (string * Z) :=
  let progressMap := fold_left (fun m file => set_progress (name file) 0 m) newFiles [] in
  if GrantAPI.total_size newFiles >? 30 * 1024 * 1024
  then fold_left (fun m file => set_progress (name file) 25 m) newFiles progressMap
  else progressMap.

Definition QuickForm_handleFileUpload (files : option (list File)) (st : QuickForm)
    : M QuickForm :=
  match files with
  | None => ret st
  | Some newFiles =>
      let started :=
        {| documents := documents st ++ newFiles;
           uploadedFiles := uploadedFiles st;
           error := EmptyString;
           uploadStatus := uploadStatus st;
           isUploading := true;
           uploadProgress := initial_progress newFiles;
           currentStep := currentStep st |} in
      after <- try_catch
        (file_urls <- upload_and_check newFiles ;;
         ret {| documents := documents started;
                uploadedFiles := uploadedFiles started ++ uploaded_entries file_urls newFiles;
                error := error started;
                uploadStatus := UploadSuccess;
                isUploading := isUploading started;
                uploadProgress := [];
                currentStep := currentStep started |})
        (fun _ =>
         ret {| documents := documents started;
                uploadedFiles := uploadedFiles started ++ failed_entries newFiles;
                error := "Failed to upload files. Please try again."%string;
                uploadStatus := UploadFailed;
                isUploading := isUploading started;
                uploadProgress := uploadProgress started;
                currentStep := currentStep started |}) ;;
      ret {| documents := documents after;
             uploadedFiles := uploadedFiles after;
             error := error after;
             uploadStatus := uploadStatus after;
             isUploading := false;
             uploadProgress := [];
             currentStep := currentStep after |}
  end.

(** [nextStep] and [prevStep] over the four steps of the wizard.  The
    boolean tells whether [generateProposal] is called. *)
Definition steps_length : Z := 4.

Definition nextStep (currentStep : Z) : Z * bool :=
  if currentStep <? steps_length - 1 then (currentStep + 1, false) else (currentStep, true).

Definition prevStep (currentStep : Z) : Z :=
  if currentStep >? 0 then currentStep - 1 else currentStep.

(** The buttons that change the step: Next, Previous, and Create Another
    Proposal, which goes back to step 0. *)
Inductive StepAction : Type := PressNext | PressPrevious | PressCreateAnother.

Definition step_after (action : StepAction) (currentStep : Z) : Z :=
  match action with
  | PressNext => fst (nextStep currentStep)
  | PressPrevious => prevStep currentStep
  | PressCreateAnother => 0
  end.

(** *** [FullProposalBuilder] *)

Record FullForm : Type := mkFullForm {
  full_files : list File;
  full_uploadedFiles : list UploadedFile;
  full_error : string;
  full_isUploading : bool;
  full_uploadProgress : list (string * Z);
  activeTab : Z
}.

(** The simulated progress of one file: eleven updates, 0 to 100 in steps
    of 10, each followed by a wait of 100 ms. *)
Fixpoint simulate_file (fileName : string) (n : nat) (progress : Z)
    (shown : list (string * Z)) : M (list (string * Z)) :=
  match n with
  | O => ret shown
  | S n' =>
      let shown' := set_progress fileName progress shown in
      emit (SetTimeout ResolveDelay 100) ;;
      simulate_file fileName n' (progress + 10) shown'
  end.

Fixpoint simulate_files (newFiles : list File) (shown : list (string * Z))
    : M (list (string * Z)) :=
  match newFiles with
  | [] => ret shown
  | file :: rest =>
      shown' <- simulate_file (name file) 11 0 shown ;;
      simulate_files rest shown'
  end.

(** The simulation stands at the head of the [try] block and cannot throw,
    so the state it leaves is the state both branches start from. *)
Definition FullForm_handleFileUpload (files : option (list File)) (st : FullForm)
    : M FullForm :=
  match files with
  | None => ret st
  | Some newFiles =>
      let started :=
        {| full_files := full_files st ++ newFiles;
           full_uploadedFiles := full_uploadedFiles st;
           full_error := EmptyString;
           full_isUploading := true;
           full_uploadProgress :=
             fold_left (fun m file => set_progress (name file) 0 m) newFiles [];
           activeTab := activeTab st |} in
      shown <- simulate_files newFiles (full_uploadProgress started) ;;
      after <- try_catch
        (file_urls <- upload_and_check newFiles ;;
         ret {| full_files := full_files started;
                full_uploadedFiles :=
                  full_uploadedFiles started ++ uploaded_entries file_urls newFiles;
                full_error := full_error started;
                full_isUploading := full_isUploading started;
                full_uploadProgress := shown;
                activeTab := activeTab started |})
        (fun _ =>
         ret {| full_files := full_files started;
                full_uploadedFiles := full_uploadedFiles started ++ failed_entries newFiles;
                full_error := "Failed to upload files. Please try again."%string;
                full_isUploading := full_isUploading started;
                full_uploadProgress := shown;
                activeTab := activeTab started |}) ;;
      ret {| full_files := full_files after;
             full_uploadedFiles := full_uploadedFiles after;
             full_error := full_error after;
             full_isUploading := false;
             full_uploadProgress := [];
             activeTab := activeTab after |}
  end.

(** [files.filter((_, i) => i !== index)]. *)
Fixpoint remove_at {A : Type} (index : Z) (i : Z) (files : list A) : list A :=
  match files with
  | [] => []
  | file :: rest =>
      if i =? index then remove_at index (i + 1) rest
      else file :: remove_at index (i + 1) rest
  end.

Definition removeFile (index : Z) (st : FullForm) : FullForm :=
  {| full_files := remove_at index 0 (full_files st);
     full_uploadedFiles := full_uploadedFiles st;
     full_error := full_error st;
     full_isUploading := full_isUploading st;
     full_uploadProgress := full_uploadProgress st;
     activeTab := activeTab st |}.

(** The three ways the active tab changes: the button of a tab, Previous
    and Next. *)
Inductive TabAction : Type :=
| SelectTab (index : nat)
| PreviousTab
| NextTab.

Definition tabs_length : nat := 5.

(** A tab button exists for the indices of [tabs] only. *)
Definition setActiveTab (action : TabAction) (activeTab : Z) : Z :=
  match action with
  | SelectTab index => if (index <? tabs_length)%nat then Z.of_nat index else activeTab
  | PreviousTab => Z.max 0 (activeTab - 1)
  | NextTab => Z.min 4 (activeTab + 1)
  end.

End Forms.

(** ** More vocabulary *)

(** What one answer of /api/upload-single adds to [artifact_ids]: the items
    of its [artifact_ids] when that is an array, the value itself when it is
    another truthy value, nothing otherwise. *)
Definition contribution (reply : JsValue) : list JsValue :=
  match get reply "artifact_ids" with
  | Ok (JsArray items) => items
  | Ok other => if truthy other then [other] else []
  | Throw _ => []
  end.

(** An answer on which property access throws. *)
Definition nullish (v : JsValue) : bool :=
  match v with
  | JsUndefined | JsNull => true
  | _ => false
  end.

(** The result object of [uploadDocumentsChunked]. *)
Definition chunked_result (files : list File) (artifact_ids : list JsValue) : JsValue :=
  JsObject
    [("success", JsBool true);
     ("artifact_ids", JsArray artifact_ids);
     ("message", JsString ("Uploaded " ++ Text.decimal (Z.of_nat (List.length files))
                           ++ " large documents successfully (chunked)")%string);
     ("upload_method", JsString "chunked")].

(** The slices posted when chunk [i] takes the first number of attempts of
    the list, chunk [i + 1] the second, and so on. *)
Fixpoint attempts_slices (totalBytes : Z) (i : Z) (attempts : list nat) : list (Z * Z) :=
  match attempts with
  | [] => []
  | a :: rest =>
      repeat (chunk_start i, chunk_end totalBytes i) a
      ++ attempts_slices totalBytes (i + 1) rest
  end.

(** The answer of the platform to a batch, before any request. *)
Definition rejected_before_any_request (files : list File) : bool :=
  match files with
  | [] => true
  | _ => existsb oversize files || (GrantAPI.total_size files >? GrantAPI.MAX_TOTAL_SIZE)
  end.

(** An event of the chunk loop of the session [uploadId] of [file]: the
    post of one of its chunks, the wait before a retry, or a callback. *)
Definition chunk_loop_event (file : File) (uploadId : JsValue) (e : Event) : Prop :=
  match e with
  | Fetch _ _ => exists i, 0 <= i < chunk_count (size file) /\ e = chunk_post file uploadId i
  | SetTimeout action _ => action = ResolveDelay
  | ClearTimeout => False
  | Callback _ => True
  end.

(** The history of the proxy route up to its forward to the backend. *)
Definition forward_history (env : option string) (tr : Trace) (formData : FormData) : Trace :=
  tr ++ [SetTimeout AbortRequest 600000;
         Fetch (UploadSingleRoute.API_BASE env ++ "/upload_documents")%string
               (UploadSingleRoute.forward_request formData)].

(** The body of the answer of the proxy to its own failures. *)
Definition proxy_error (e : Exn) : JsValue :=
  JsObject [("success", JsBool false);
            ("error", JsString "Proxy server error");
            ("details", JsString (message e))].

(** The request of [checkHealth], and a backend in trouble that still
    answers with a JSON body. *)
Definition health_request (env : option string) : Event :=
  Fetch (GrantAPICalls.API_BASE env ++ "/health")%string GrantAPICalls.GET_request.

Definition unhealthy_response : Response :=
  {| status := 500;
     text := Ok "{}"%string;
     json := Ok (JsObject [("status", JsString "error")]) |}.

(** The step of the wizard and the tab of the builder after a list of
    button presses. *)
Definition steps_after (actions : list StepAction) (currentStep : Z) : Z :=
  fold_left (fun step action => step_after action step) actions currentStep.

Definition tabs_after (actions : list TabAction) (activeTab : Z) : Z :=
  fold_left (fun tab action => setActiveTab action tab) actions activeTab.

(** The waits of the simulated progress of [n] files. *)
Definition simulated_waits (n : nat) : Trace := repeat (SetTimeout ResolveDelay 100) (11 * n).

(** A computed member access that looks at own properties only. *)
Definition own_member (v : JsValue) (key : string) : JsValue :=
  match v with
  | JsObject fields => lookup key fields
  | _ => JsUndefined
  end.

Definition empty_quick_form : QuickForm :=
  {| documents := []; uploadedFiles := []; error := EmptyString; uploadStatus := UploadNone;
     isUploading := false; uploadProgress := []; currentStep := 0 |}.

Definition empty_full_form : FullForm :=
  {| full_files := []; full_uploadedFiles := []; full_error := EmptyString;
     full_isUploading := false; full_uploadProgress := []; activeTab := 0 |}.

(** Whether the handlers of the forms take an answer of [uploadDocuments]
    as a success: its [success] is truthy. *)
Definition answer_accepted (uploadResponse : JsValue) : bool :=
  match get uploadResponse "success" with
  | Ok success => truthy success
  | Throw _ => false
  end.

(** The two kinds of entries of [uploadedFiles]. *)
Definition uploaded_mark (entry : UploadedFile) : Prop := file_status entry = StatusUploaded.

Definition failed_mark (entry : UploadedFile) : Prop :=
  file_status entry = StatusFailed /\ file_url entry = JsString "#".

(** An uploaded entry without a link. *)
Definition unlinked_entry (file : File) : UploadedFile :=
  {| file_name := name file; file_url := JsString "#"; file_status := StatusUploaded |}.

Definition upload_failure_text : string := "Failed to upload files. Please try again.".

(** The delays, in milliseconds, of the waits of a trace. *)
Definition waits (tr : Trace) : list Z :=
  flat_map (fun e => match e with
                     | SetTimeout ResolveDelay ms => [ms]
                     | _ => []
                     end) tr.

Definition total_wait (tr : Trace) : Z := fold_right Z.add 0 (waits tr).

(** * Properties *)

Local Open Scope js_scope.
Local Open Scope string_scope.
Local Open Scope Z_scope.
Local Open Scope list_scope.

(** ** Rounding to binary64 *)
Module JsNumberFacts.
Import JsNumber.
Local Open Scope Q_scope.

Lemma two_neq0 : ~ (2 : Q) == 0.
Proof. intro H; discriminate H. Qed.

Lemma pow2_pos (e : Z) : 0 < 2 ^ e.
Proof. apply Qpower_0_lt; reflexivity. Qed.

Lemma pow2_succ (e : Z) : 2 ^ (e + 1) == 2 * 2 ^ e.
Proof. rewrite Qpower_plus by apply two_neq0. change (2 ^ 1) with (2 : Q) at 1. ring. Qed.

Lemma pow2_pred (e : Z) : 2 ^ e == 2 * 2 ^ (e - 1).
Proof. rewrite <- pow2_succ. replace (e - 1 + 1)%Z with e by lia. reflexivity. Qed.

Lemma pow2_le (a b : Z) : (a <= b)%Z -> 2 ^ a <= 2 ^ b.
Proof. intros; apply Qpower_le_compat_l; [assumption | discriminate]. Qed.

Lemma pow2_lt (a b : Z) : (a < b)%Z -> 2 ^ a < 2 ^ b.
Proof. intros; apply Qpower_lt_compat_l; [assumption | reflexivity]. Qed.

Lemma pow2_lt_inv (a b : Z) : 2 ^ a < 2 ^ b -> (a < b)%Z.
Proof. intros; apply (Qpower_lt_compat_l_inv 2); [assumption | reflexivity]. Qed.

Lemma pow2_sub (a b : Z) : 2 ^ (a - b) == 2 ^ a / 2 ^ b.
Proof.
  unfold Z.sub. rewrite Qpower_plus by apply two_neq0. rewrite Qpower_opp.
  reflexivity.
Qed.

Lemma pow2_inject (n : Z) : (0 <= n)%Z -> 2 ^ n == inject_Z (2 ^ n).
Proof. intros; rewrite Zpower_Qpower by assumption; reflexivity. Qed.

(** The integer logarithm brackets a positive integer. *)
Lemma Zlog2_bracket (p : Z) :
  (0 < p)%Z -> inject_Z (2 ^ Z.log2 p) <= inject_Z p < inject_Z (2 ^ (Z.log2 p + 1)).
Proof.
  intros Hp. destruct (Z.log2_spec p Hp) as [H1 H2].
  replace (Z.succ (Z.log2 p)) with (Z.log2 p + 1)%Z in H2 by lia.
  split; [rewrite <- Zle_Qle | rewrite <- Zlt_Qlt]; assumption.
Qed.

Lemma Q_as_fraction (x : Q) : x == inject_Z (Qnum x) / inject_Z (Zpos (Qden x)).
Proof.
  destruct x as [p q]; simpl. unfold Qeq, Qdiv, Qmult, Qinv, inject_Z; simpl. lia.
Qed.

Lemma ilog2_spec (x : Q) : 0 < x -> 2 ^ ilog2 x <= x < 2 ^ (ilog2 x + 1).
Proof.
  intros Hx. unfold ilog2.
  set (p := Qnum x). set (q := Zpos (Qden x)).
  assert (Hp : (0 < p)%Z).
  { unfold p. destruct x as [n d]; unfold Qlt in Hx; simpl in *. lia. }
  assert (Hq : (0 < q)%Z) by (unfold q; lia).
  pose proof (Zlog2_bracket p Hp) as [Hp1 Hp2].
  pose proof (Zlog2_bracket q Hq) as [Hq1 Hq2].
  pose proof (Z.log2_nonneg p) as Lp. pose proof (Z.log2_nonneg q) as Lq.
  rewrite <- pow2_inject in Hp1, Hp2, Hq1, Hq2 by lia.
  set (lp := Z.log2 p) in *. set (lq := Z.log2 q) in *.
  assert (Hxq : x * inject_Z q == inject_Z p).
  { rewrite (Q_as_fraction x) at 1. fold p q. field.
    intro H. rewrite H in Hq1. pose proof (pow2_pos lq). lra. }
  assert (Hq0 : 0 < inject_Z q) by (pose proof (pow2_pos lq); lra).
  pose proof (pow2_pos lq) as Plq. pose proof (pow2_pos (lp - lq)) as Pe.
  assert (E1 : 2 ^ (lp - lq + 1) * 2 ^ lq == 2 ^ (lp + 1)).
  { rewrite <- Qpower_plus by apply two_neq0. replace (lp - lq + 1 + lq)%Z with (lp + 1)%Z by lia. reflexivity. }
  assert (E2 : 2 ^ (lp - lq - 1) * 2 ^ (lq + 1) == 2 ^ lp).
  { rewrite <- Qpower_plus by apply two_neq0. replace (lp - lq - 1 + (lq + 1))%Z with lp by lia. reflexivity. }
  assert (Hup : x < 2 ^ (lp - lq + 1)).
  { apply Qnot_le_lt; intro Hc.
    assert (2 ^ (lp - lq + 1) * 2 ^ lq <= x * inject_Z q) by nra. lra. }
  assert (Hlo : 2 ^ (lp - lq - 1) <= x).
  { apply Qnot_lt_le; intro Hc.
    pose proof (pow2_pos (lp - lq - 1)).
    assert (x * inject_Z q < 2 ^ (lp - lq - 1) * 2 ^ (lq + 1)) by nra. lra. }
  destruct (Qle_bool (2 ^ (lp - lq)) x) eqn:B.
  - apply Qle_bool_iff in B. split; assumption.
  - assert (x < 2 ^ (lp - lq)).
    { apply Qnot_le_lt; intro Hc. apply Qle_bool_iff in Hc. congruence. }
    replace (lp - lq - 1 + 1)%Z with (lp - lq)%Z by lia. split; assumption.
Qed.

Lemma ilog2_unique (x : Q) (e : Z) :
  2 ^ e <= x < 2 ^ (e + 1) -> ilog2 x = e.
Proof.
  intros [H1 H2].
  assert (Hx : 0 < x) by (pose proof (pow2_pos e); lra).
  destruct (ilog2_spec x Hx) as [H3 H4].
  assert ((ilog2 x < e + 1)%Z) by (apply pow2_lt_inv; lra).
  assert ((e < ilog2 x + 1)%Z) by (apply pow2_lt_inv; lra).
  lia.
Qed.

Lemma ilog2_comp (x y : Q) : 0 < x -> x == y -> ilog2 x = ilog2 y.
Proof.
  intros Hx Hxy. symmetry. apply ilog2_unique. rewrite <- Hxy. apply ilog2_spec, Hx.
Qed.

Lemma ilog2_mono (x y : Q) : 0 < x -> x <= y -> (ilog2 x <= ilog2 y)%Z.
Proof.
  intros Hx Hxy.
  destruct (ilog2_spec x Hx) as [H1 _].
  destruct (ilog2_spec y) as [_ H2]; [lra|].
  assert ((ilog2 x < ilog2 y + 1)%Z) by (apply pow2_lt_inv; lra).
  lia.
Qed.


Lemma round_half_even_comp (x y : Q) : x == y -> round_half_even x = round_half_even y.
Proof.
  intros H. unfold round_half_even. rewrite (Qfloor_comp _ _ H).
  rewrite (Qcompare_comp (x - inject_Z (Qfloor y)) (y - inject_Z (Qfloor y))
             ltac:(rewrite H; reflexivity) (1 # 2) (1 # 2) ltac:(reflexivity)).
  reflexivity.
Qed.

Lemma floor_bounds (y : Q) : inject_Z (Qfloor y) <= y < inject_Z (Qfloor y) + 1.
Proof.
  split; [apply Qfloor_le|].
  pose proof (Qlt_floor y) as H. rewrite inject_Z_plus in H. exact H.
Qed.

(** The rounded value is the floor or its successor, whichever is nearer. *)
Lemma round_half_even_cases (y : Q) :
  (round_half_even y = Qfloor y /\ y - inject_Z (Qfloor y) <= 1 # 2) \/
  (round_half_even y = (Qfloor y + 1)%Z /\ 1 # 2 <= y - inject_Z (Qfloor y)).
Proof.
  unfold round_half_even.
  destruct (Qcompare_spec (y - inject_Z (Qfloor y)) (1 # 2)) as [H|H|H].
  - destruct (Z.even (Qfloor y)); [left | right]; split; try reflexivity; lra.
  - left; split; [reflexivity | lra].
  - right; split; [reflexivity | lra].
Qed.

Lemma round_half_even_error (y : Q) :
  - (1 # 2) <= inject_Z (round_half_even y) - y <= 1 # 2.
Proof.
  pose proof (floor_bounds y) as [H1 H2].
  destruct (round_half_even_cases y) as [[-> H]|[-> H]];
    [|rewrite inject_Z_plus; change (inject_Z 1) with 1]; lra.
Qed.

Lemma round_half_even_Z (n : Z) : round_half_even (inject_Z n) = n.
Proof.
  unfold round_half_even. rewrite Qfloor_Z.
  destruct (Qcompare_spec (inject_Z n - inject_Z n) (1 # 2)) as [H|H|H];
    [lra | reflexivity | lra].
Qed.

Lemma inject_Z_lt_succ (a b : Z) : inject_Z a < inject_Z b -> inject_Z a + 1 <= inject_Z b.
Proof.
  intros H. rewrite <- Zlt_Qlt in H.
  change 1 with (inject_Z 1). rewrite <- inject_Z_plus, <- Zle_Qle. lia.
Qed.

Lemma round_half_even_mono (x y : Q) : x <= y -> (round_half_even x <= round_half_even y)%Z.
Proof.
  intros Hxy.
  pose proof (Qfloor_resp_le _ _ Hxy) as Hf.
  destruct (Z.eq_dec (Qfloor x) (Qfloor y)) as [E|NE].
  - unfold round_half_even. rewrite E.
    destruct (Qcompare_spec (x - inject_Z (Qfloor y)) (1 # 2)) as [H|H|H];
    destruct (Qcompare_spec (y - inject_Z (Qfloor y)) (1 # 2)) as [H'|H'|H'];
    try lra; destruct (Z.even (Qfloor y)); lia.
  - assert (Qfloor x + 1 <= Qfloor y)%Z by lia.
    destruct (round_half_even_cases x) as [[-> _]|[-> _]];
    destruct (round_half_even_cases y) as [[-> _]|[-> _]]; lia.
Qed.

Lemma ulp_pos (x : Q) : 0 < ulp x.
Proof. apply pow2_pos. Qed.

(** Scaled by its unit in the last place, a positive number lies in
    [2^52, 2^53). *)
Lemma scaled_range (x : Q) :
  0 < x -> 2 ^ (precision - 1) <= x / ulp x < 2 ^ precision.
Proof.
  intros Hx. destruct (ilog2_spec x Hx) as [H1 H2].
  pose proof (ulp_pos x) as Hu.
  assert (E1 : 2 ^ (precision - 1) * ulp x == 2 ^ ilog2 x).
  { unfold ulp. rewrite <- Qpower_plus by apply two_neq0.
    replace (precision - 1 + (ilog2 x - (precision - 1)))%Z with (ilog2 x) by lia.
    reflexivity. }
  assert (E2 : 2 ^ precision * ulp x == 2 ^ (ilog2 x + 1)).
  { unfold ulp. rewrite <- Qpower_plus by apply two_neq0.
    replace (precision + (ilog2 x - (precision - 1)))%Z with (ilog2 x + 1)%Z by lia.
    reflexivity. }
  split.
  - apply Qle_shift_div_l; [assumption | lra].
  - apply Qlt_shift_div_r; [assumption | lra].
Qed.

Lemma round_pos_range (x : Q) :
  0 < x -> 2 ^ ilog2 x <= round_pos x <= 2 ^ (ilog2 x + 1).
Proof.
  intros Hx. destruct (scaled_range x Hx) as [H1 H2].
  pose proof (ulp_pos x) as Hu.
  assert (P1 : (2 : Q) ^ (precision - 1) == inject_Z (2 ^ (precision - 1))) by reflexivity.
  assert (P2 : (2 : Q) ^ precision == inject_Z (2 ^ precision)) by reflexivity.
  assert (R1 : (2 ^ (precision - 1) <= round_half_even (x / ulp x))%Z).
  { rewrite <- (round_half_even_Z (2 ^ (precision - 1))).
    apply round_half_even_mono. rewrite <- P1. assumption. }
  assert (R2 : (round_half_even (x / ulp x) <= 2 ^ precision)%Z).
  { rewrite <- (round_half_even_Z (2 ^ precision)).
    apply round_half_even_mono. rewrite <- P2. lra. }
  rewrite Zle_Qle in R1, R2. rewrite <- P1 in R1. rewrite <- P2 in R2.
  assert (E1 : 2 ^ (precision - 1) * ulp x == 2 ^ ilog2 x).
  { unfold ulp. rewrite <- Qpower_plus by apply two_neq0.
    replace (precision - 1 + (ilog2 x - (precision - 1)))%Z with (ilog2 x) by lia.
    reflexivity. }
  assert (E2 : 2 ^ precision * ulp x == 2 ^ (ilog2 x + 1)).
  { unfold ulp. rewrite <- Qpower_plus by apply two_neq0.
    replace (precision + (ilog2 x - (precision - 1)))%Z with (ilog2 x + 1)%Z by lia.
    reflexivity. }
  unfold round_pos. split; nra.
Qed.

Lemma round_pos_mono (x y : Q) : 0 < x -> x <= y -> round_pos x <= round_pos y.
Proof.
  intros Hx Hxy.
  pose proof (ilog2_mono x y Hx Hxy) as He.
  destruct (Z.eq_dec (ilog2 x) (ilog2 y)) as [E|NE].
  - unfold round_pos, ulp. rewrite E.
    pose proof (pow2_pos (ilog2 y - (precision - 1))) as Hu.
    apply Qmult_le_compat_r; [|lra].
    rewrite <- Zle_Qle. apply round_half_even_mono.
    apply Qmult_le_compat_r; [assumption|].
    apply Qlt_le_weak, Qinv_lt_0_compat, Hu.
  - destruct (round_pos_range x Hx) as [_ H1].
    destruct (round_pos_range y) as [H2 _]; [lra|].
    assert (2 ^ (ilog2 x + 1) <= 2 ^ ilog2 y) by (apply pow2_le; lia).
    lra.
Qed.

Lemma round_pos_comp (x y : Q) : 0 < x -> x == y -> round_pos x == round_pos y.
Proof.
  intros Hx Hxy. unfold round_pos, ulp.
  rewrite (ilog2_comp x y Hx Hxy).
  rewrite (round_half_even_comp (x / 2 ^ (ilog2 y - (precision - 1)))
                                (y / 2 ^ (ilog2 y - (precision - 1)))).
  - reflexivity.
  - rewrite Hxy. reflexivity.
Qed.

Lemma round_pos_pos (x : Q) : 0 < x -> 0 < round_pos x.
Proof.
  intros Hx. destruct (round_pos_range x Hx) as [H _].
  pose proof (pow2_pos (ilog2 x)). lra.
Qed.

Lemma fl_pos (x : Q) : 0 < x -> fl x = round_pos x.
Proof.
  intros Hx. unfold fl. destruct (Qcompare_spec x 0); [lra | lra | reflexivity].
Qed.

Lemma fl_zero (x : Q) : x == 0 -> fl x = 0.
Proof.
  intros Hx. unfold fl. destruct (Qcompare_spec x 0); [reflexivity | lra | lra].
Qed.

(** Rounding is monotone on the non-negative numbers. *)
Lemma fl_mono (x y : Q) : 0 <= x -> x <= y -> fl x <= fl y.
Proof.
  intros Hx Hxy.
  destruct (Qlt_le_dec 0 x) as [Px|Zx].
  - rewrite !fl_pos by lra. apply round_pos_mono; assumption.
  - rewrite (fl_zero x) by lra.
    destruct (Qlt_le_dec 0 y) as [Py|Zy].
    + rewrite fl_pos by assumption. apply Qlt_le_weak, round_pos_pos, Py.
    + rewrite (fl_zero y) by lra. lra.
Qed.

Lemma fl_comp (x y : Q) : 0 <= x -> x == y -> fl x == fl y.
Proof.
  intros Hx Hxy.
  destruct (Qlt_le_dec 0 x) as [Px|Zx].
  - rewrite !fl_pos by lra. apply round_pos_comp; assumption.
  - rewrite (fl_zero x), (fl_zero y) by lra. reflexivity.
Qed.

Lemma fl_nonneg (x : Q) : 0 <= x -> 0 <= fl x.
Proof.
  intros Hx. destruct (Qlt_le_dec 0 x) as [Px|Zx].
  - rewrite fl_pos by assumption. apply Qlt_le_weak, round_pos_pos, Px.
  - rewrite fl_zero by lra. lra.
Qed.

(** The rounding error is at most half a unit in the last place. *)
Lemma fl_error (x : Q) :
  0 < x -> - (ulp x / 2) <= fl x - x <= ulp x / 2.
Proof.
  intros Hx. rewrite fl_pos by assumption. unfold round_pos.
  pose proof (ulp_pos x) as Hu.
  pose proof (round_half_even_error (x / ulp x)) as [H1 H2].
  assert (E : x == x / ulp x * ulp x) by (field; lra).
  set (r := inject_Z (round_half_even (x / ulp x))) in *.
  set (s := x / ulp x) in *. set (u := ulp x) in *.
  assert (A1 : (r - s) * u <= (1 # 2) * u)
    by (apply Qmult_le_compat_r; lra).
  assert (A2 : - (1 # 2) * u <= (r - s) * u)
    by (apply Qmult_le_compat_r; lra).
  assert (D : u / 2 == (1 # 2) * u) by (field).
  rewrite D. split; lra.
Qed.


(** A number [m * 2^e] with a mantissa [m] below 2^53 is represented exactly. *)
Lemma fl_representable (m e : Z) :
  (0 <= m < 2 ^ precision)%Z -> fl (inject_Z m * 2 ^ e) == inject_Z m * 2 ^ e.
Proof.
  intros [Hm0 Hm].
  destruct (Z.eq_dec m 0) as [->|Hne].
  { rewrite fl_zero; ring. }
  assert (Hpos : (0 < m)%Z) by lia.
  pose proof (pow2_pos e) as He.
  assert (Hx : 0 < inject_Z m * 2 ^ e).
  { apply Qmult_lt_0_compat; [|assumption]. change 0 with (inject_Z 0).
    rewrite <- Zlt_Qlt. assumption. }
  rewrite fl_pos by assumption.
  pose proof (Zlog2_bracket m Hpos) as [B1 B2].
  pose proof (Z.log2_nonneg m) as L0.
  assert (L52 : (Z.log2 m < precision)%Z).
  { apply Z.log2_lt_pow2; [assumption|]. assumption. }
  rewrite <- pow2_inject in B1, B2 by lia.
  set (L := Z.log2 m) in *.
  assert (EL : ilog2 (inject_Z m * 2 ^ e) = (L + e)%Z).
  { apply ilog2_unique.
    replace (L + e + 1)%Z with (L + 1 + e)%Z by lia.
    rewrite !(Qpower_plus 2 _ e) by apply two_neq0.
    split; [apply Qmult_le_compat_r | apply Qmult_lt_compat_r]; lra. }
  unfold round_pos, ulp. rewrite EL.
  set (k := (precision - 1 - L)%Z).
  assert (Hk : (0 <= k)%Z) by (unfold k; lia).
  assert (Hs : inject_Z m * 2 ^ e / 2 ^ (L + e - (precision - 1)) == inject_Z (m * 2 ^ k)).
  { rewrite inject_Z_mult, <- pow2_inject by assumption.
    replace (L + e - (precision - 1))%Z with (e - k)%Z by (unfold k; lia).
    rewrite pow2_sub. field.
    split; apply Qnot_eq_sym, Qlt_not_eq, pow2_pos. }
  rewrite (round_half_even_comp _ _ Hs), round_half_even_Z.
  rewrite inject_Z_mult, <- pow2_inject by assumption.
  replace (L + e - (precision - 1))%Z with (e - k)%Z by (unfold k; lia).
  rewrite pow2_sub. field.
  apply Qnot_eq_sym, Qlt_not_eq, pow2_pos.
Qed.

(** Every safe non-negative integer is a Number. *)
Lemma fl_integer (n : Z) :
  (0 <= n <= MAX_SAFE_INTEGER)%Z -> fl (inject_Z n) == inject_Z n.
Proof.
  intros Hn. pose proof (fl_representable n 0) as H.
  change (2 ^ 0) with 1 in H.
  assert (E : inject_Z n * 1 == inject_Z n) by ring.
  rewrite <- E at 2. rewrite <- H.
  - apply fl_comp; [|rewrite E; reflexivity].
    change 0 with (inject_Z 0). rewrite <- Zle_Qle. lia.
  - unfold MAX_SAFE_INTEGER, precision in *. lia.
Qed.

(** Division of a safe integer by a power of two is exact. *)
Lemma div_pow2_exact (n k : Z) :
  (0 <= n <= MAX_SAFE_INTEGER)%Z -> (0 <= k)%Z ->
  div (inject_Z n) (inject_Z (2 ^ k)) == inject_Z n / inject_Z (2 ^ k).
Proof.
  intros Hn Hk. unfold div.
  assert (E : inject_Z n / inject_Z (2 ^ k) == inject_Z n * 2 ^ (- k)).
  { rewrite <- pow2_inject by assumption. rewrite Qpower_opp. reflexivity. }
  rewrite E at 2. rewrite <- (fl_representable n (- k)).
  - apply fl_comp; [|exact E].
    rewrite E. apply Qmult_le_0_compat.
    + change 0 with (inject_Z 0). rewrite <- Zle_Qle. lia.
    + apply Qlt_le_weak, pow2_pos.
  - unfold MAX_SAFE_INTEGER, precision in *. lia.
Qed.

Lemma Qceiling_unique (y : Q) (m : Z) :
  inject_Z m < y -> y <= inject_Z (m + 1) -> Qceiling y = (m + 1)%Z.
Proof.
  intros H1 H2.
  pose proof (Qceiling_lt y) as C1. pose proof (Qle_ceiling y) as C2.
  assert (inject_Z (Qceiling y - 1) < inject_Z (m + 1)) by lra.
  assert (inject_Z m < inject_Z (Qceiling y)) by lra.
  rewrite <- Zlt_Qlt in *. lia.
Qed.

(** The unit in the last place is at most [x * 2^-52]. *)
Lemma ulp_le (x : Q) : 0 < x -> ulp x * 2 ^ (precision - 1) <= x.
Proof.
  intros Hx. destruct (ilog2_spec x Hx) as [H _].
  unfold ulp. rewrite <- Qpower_plus by apply two_neq0.
  replace (ilog2 x - (precision - 1) + (precision - 1))%Z with (ilog2 x) by lia.
  assumption.
Qed.

Lemma half_ulp_aux (h T x A B : Q) :
  0 < h -> h * T <= x -> x * B == A -> A < T -> 0 < B -> 0 < A -> h * B < 1.
Proof.
  intros Hh HT HxB HAT HB HA.
  apply Qnot_le_lt; intro Hc.
  assert (S1 : A * 1 <= A * (h * B)) by (apply Qmult_le_l; assumption).
  assert (S2 : (h * B) * A < (h * B) * T).
  { apply Qmult_lt_l; [|assumption]. apply Qmult_lt_0_compat; assumption. }
  assert (S3 : (h * T) * B <= x * B) by (apply Qmult_le_compat_r; lra).
  assert (E1 : A * (h * B) == h * B * A) by ring.
  assert (E2 : h * B * T == h * T * B) by ring.
  lra.
Qed.

(** [Math.ceil (a / b)] on safe positive integers is the exact ceiling of
    the quotient: the rounding of the division never reaches the integer
    below. *)
Lemma Math_ceil_div (a b : Z) :
  (0 < a <= MAX_SAFE_INTEGER)%Z -> (0 < b)%Z ->
  Math_ceil (div (inject_Z a) (inject_Z b)) = ((a + b - 1) / b)%Z.
Proof.
  intros Ha Hb. unfold Math_ceil, div.
  set (m := (a / b)%Z). set (r := (a mod b)%Z).
  assert (Hab : a = (b * m + r)%Z) by (apply Z.div_mod; lia).
  assert (Hr : (0 <= r < b)%Z) by (apply Z.mod_pos_bound; lia).
  assert (Hm0 : (0 <= m)%Z) by (apply Z.div_pos; lia).
  assert (Hma : (m <= a)%Z) by nia.
  assert (Qb : 0 < inject_Z b) by (change 0 with (inject_Z 0); rewrite <- Zlt_Qlt; lia).
  assert (Qa : inject_Z a == inject_Z b * inject_Z m + inject_Z r).
  { rewrite Hab at 1. rewrite inject_Z_plus, inject_Z_mult. reflexivity. }
  assert (Qr : 0 <= inject_Z r) by (change 0 with (inject_Z 0); rewrite <- Zle_Qle; lia).
  assert (Qm : 0 <= inject_Z m) by (change 0 with (inject_Z 0); rewrite <- Zle_Qle; lia).
  assert (Hx : inject_Z a / inject_Z b == inject_Z m + inject_Z r / inject_Z b).
  { rewrite Qa. field. lra. }
  destruct (Z.eq_dec r 0) as [R0|RN].
  - assert (Hxm : inject_Z a / inject_Z b == inject_Z m).
    { rewrite Hx, R0. change (inject_Z 0) with 0. field. lra. }
    rewrite (Qceiling_comp _ (inject_Z m)).
    + rewrite Qceiling_Z. rewrite Hab, R0.
      replace (b * m + 0 + b - 1)%Z with ((b - 1) + m * b)%Z by lia.
      rewrite Z.div_add by lia. rewrite Z.div_small by lia. lia.
    + rewrite (fl_comp _ (inject_Z m)); [apply fl_integer; lia | lra | exact Hxm].
  - assert (Hr1 : 1 <= inject_Z r).
    { change 1 with (inject_Z 1). rewrite <- Zle_Qle. lia. }
    assert (Hrb : inject_Z r < inject_Z b) by (rewrite <- Zlt_Qlt; lia).
    assert (Hrb1 : inject_Z r / inject_Z b < 1).
    { apply Qlt_shift_div_r; lra. }
    assert (Hrb0 : / inject_Z b <= inject_Z r / inject_Z b).
    { unfold Qdiv. rewrite <- (Qmult_1_l (/ inject_Z b)) at 1.
      apply Qmult_le_compat_r; [assumption|].
      apply Qlt_le_weak, Qinv_lt_0_compat, Qb. }
    assert (Pib : 0 < / inject_Z b) by (apply Qinv_lt_0_compat, Qb).
    set (x := inject_Z a / inject_Z b) in *.
    assert (Px : 0 < x) by lra.
    replace ((a + b - 1) / b)%Z with (m + 1)%Z.
    2:{ rewrite Hab. replace (b * m + r + b - 1)%Z with ((r - 1) + (m + 1) * b)%Z by lia.
        rewrite Z.div_add by lia. rewrite Z.div_small by lia. lia. }
    apply Qceiling_unique.
    + (* the rounded quotient stays above [m] *)
      pose proof (fl_error x Px) as [E1 _].
      pose proof (ulp_le x Px) as U. pose proof (ulp_pos x) as Up.
      change (2 ^ (precision - 1)) with (inject_Z (2 ^ 52)) in U.
      assert (Ha53 : inject_Z a < inject_Z (2 ^ 53)).
      { rewrite <- Zlt_Qlt. unfold MAX_SAFE_INTEGER in Ha. lia. }
      assert (Hxb : x * inject_Z b == inject_Z a) by (unfold x; field; lra).
      assert (U2 : ulp x / 2 * inject_Z (2 ^ 53) <= x).
      { change (inject_Z (2 ^ 53)) with (2 * inject_Z (2 ^ 52)).
        assert (D : ulp x / 2 * (2 * inject_Z (2 ^ 52)) == ulp x * inject_Z (2 ^ 52)) by field.
        rewrite D. exact U. }
      assert (Hh : 0 < ulp x / 2).
      { assert (D : ulp x / 2 == ulp x * (1 # 2)) by field. rewrite D. lra. }
      assert (Qa0 : 0 < inject_Z a).
      { change 0 with (inject_Z 0). rewrite <- Zlt_Qlt. lia. }
      pose proof (half_ulp_aux _ _ _ _ _ Hh U2 Hxb Ha53 Qb Qa0) as U3.
      assert (U4 : ulp x / 2 < / inject_Z b).
      { apply Qnot_le_lt; intro Hc.
        assert (/ inject_Z b * inject_Z b <= ulp x / 2 * inject_Z b)
          by (apply Qmult_le_compat_r; lra).
        assert (/ inject_Z b * inject_Z b == 1) by (field; lra). lra. }
      lra.
    + assert (Hm1 : (m + 1 <= a)%Z) by nia.
      assert (F : fl (inject_Z (m + 1)) == inject_Z (m + 1)) by (apply fl_integer; lia).
      assert (M : fl x <= fl (inject_Z (m + 1))).
      { apply fl_mono; [lra|]. rewrite inject_Z_plus. change (inject_Z 1) with 1. lra. }
      lra.
Qed.

Lemma Math_round_mono (x y : Q) : x <= y -> (Math_round x <= Math_round y)%Z.
Proof. intros H. unfold Math_round. apply Qfloor_resp_le. lra. Qed.

Lemma Math_round_integer (n : Z) : Math_round (inject_Z n) = n.
Proof.
  unfold Math_round.
  pose proof (floor_bounds (inject_Z n + (1 # 2))) as [H1 H2].
  set (f := Qfloor (inject_Z n + (1 # 2))) in *.
  assert (inject_Z f < inject_Z (n + 1)).
  { rewrite inject_Z_plus. change (inject_Z 1) with 1. lra. }
  assert (inject_Z n < inject_Z (f + 1)).
  { rewrite inject_Z_plus. change (inject_Z 1) with 1. lra. }
  rewrite <- Zlt_Qlt in *. lia.
Qed.

(** The rounding is observable: 145 MB of 1000 MB is 14.5 percent exactly,
    which [Math.round] would take to 15, but the binary64 product is just
    below 14.5. *)
Example rounding_is_observable :
  Math_round (mul (div (inject_Z (145 * 1048576)) (inject_Z (1000 * 1048576))) 100) = 14%Z /\
  Qfloor (inject_Z (145 * 1048576) / inject_Z (1000 * 1048576) * 100 + (1 # 2)) = 15%Z.
Proof. split; vm_compute; reflexivity. Qed.

End JsNumberFacts.

(** ** Running sequential computations *)
Section Runs.
Context {A B : Type}.

Lemma bind_ok (m : M A) (k : A -> M B) net tr a tr' :
  m net tr = (Ok a, tr') -> bind m k net tr = k a net tr'.
Proof. intros H. unfold bind. rewrite H. reflexivity. Qed.

Lemma bind_throw (m : M A) (k : A -> M B) net tr e tr' :
  m net tr = (Throw e, tr') -> bind m k net tr = (Throw e, tr').
Proof. intros H. unfold bind. rewrite H. reflexivity. Qed.

Lemma try_catch_ok (m : M A) handler net tr a tr' :
  m net tr = (Ok a, tr') -> try_catch m handler net tr = (Ok a, tr').
Proof. intros H. unfold try_catch. rewrite H. reflexivity. Qed.

Lemma try_catch_throw (m : M A) handler net tr e tr' :
  m net tr = (Throw e, tr') -> try_catch m handler net tr = handler e net tr'.
Proof. intros H. unfold try_catch. rewrite H. reflexivity. Qed.

Lemma rethrowing_run (m : M A) net tr : GrantAPI.rethrowing m net tr = m net tr.
Proof.
  unfold GrantAPI.rethrowing, try_catch, throw.
  destruct (m net tr) as [[a|e] tr']; reflexivity.
Qed.

End Runs.


(** ** The upload entry point *)
Module GrantAPIFacts.
Import GrantAPI.

Lemma check_file_sizes_run files net tr :
  check_file_sizes files net tr =
  match find oversize files with
  | Some file => (Throw (Error (file_too_large file)), tr)
  | None => (Ok tt, tr)
  end.
Proof.
  induction files as [|file rest IH]; simpl; [reflexivity|].
  unfold oversize at 1. destruct (size file >? MAX_FILE_SIZE); [reflexivity | exact IH].
Qed.

Lemma find_oversize_none files :
  Forall (fun file => size file <= MAX_FILE_SIZE) files -> find oversize files = None.
Proof.
  induction 1 as [|file rest Hf _ IH]; simpl; [reflexivity|].
  unfold oversize at 1. destruct (Z.gtb_spec (size file) MAX_FILE_SIZE); [lia | exact IH].
Qed.

Lemma find_oversize_some files :
  Exists (fun file => size file > MAX_FILE_SIZE) files ->
  exists file, find oversize files = Some file /\ In file files /\ size file > MAX_FILE_SIZE.
Proof.
  induction 1 as [file rest Hf | file rest _ IH]; simpl; unfold oversize at 1.
  - destruct (Z.gtb_spec (size file) MAX_FILE_SIZE); [|lia].
    exists file. auto.
  - destruct (Z.gtb_spec (size file) MAX_FILE_SIZE).
    + exists file. split; [reflexivity|]. split; [left; reflexivity | lia].
    + destruct IH as (f & H1 & H2 & H3). exists f. auto.
Qed.

(** The decision of [uploadDocuments] on a list that is present and not
    empty. *)
Lemma uploadDocuments_run files net tr :
  files <> [] ->
  uploadDocuments (Some files) net tr =
  match find oversize files with
  | Some file => (Throw (Error (file_too_large file)), tr)
  | None =>
      if total_size files >? MAX_TOTAL_SIZE
      then (Throw (Error (total_too_large (total_size files))), tr)
      else if total_size files >? CLOUD_RUN_LIMIT
           then uploadDocumentsChunked files net tr
           else upload_direct files net tr
  end.
Proof.
  intros Hne. unfold uploadDocuments. rewrite rethrowing_run.
  unfold bind at 1. unfold ret at 1.
  destruct files as [|file rest]; [contradiction|].
  change (List.length (file :: rest) =? 0)%nat with false. cbv iota.
  unfold bind at 1. rewrite check_file_sizes_run.
  destruct (find oversize (file :: rest)); [reflexivity|].
  destruct (total_size (file :: rest) >? MAX_TOTAL_SIZE); [reflexivity|].
  destruct (total_size (file :: rest) >? CLOUD_RUN_LIMIT); reflexivity.
Qed.

Lemma upload_direct_trace files net tr :
  snd (upload_direct files net tr) = (tr ++ [direct_post files]).
Proof.
  unfold upload_direct, bind, fetch, direct_post.
  destruct (net _) as [r|e]; [|reflexivity].
  destruct (negb (ok r)); unfold await, throw.
  - destruct (text r); reflexivity.
  - reflexivity.
Qed.

(** [uploadDocumentsChunked] posts the files one by one, each whole, to
    /api/upload-single, and stops at the first failure. *)
Lemma upload_each_single_trace files results net tr :
  exists k, (k <= List.length files)%nat /\
    snd (upload_each_single files results net tr) =
    (tr ++ map single_post (firstn k files)).
Proof.
  revert results tr. induction files as [|file rest IH]; intros results tr.
  - exists O. simpl. split; [lia | symmetry; apply app_nil_r].
  - simpl. unfold bind at 1. unfold fetch at 1. fold (single_post file).
    destruct (net _) as [r|e].
    + destruct (negb (ok r)).
      * exists 1%nat. split; [simpl; lia|].
        unfold bind, await, throw. destruct (text r); reflexivity.
      * unfold bind at 1. unfold await at 1. destruct (json r) as [j|e].
        -- destruct (IH (push results j) (tr ++ [single_post file])) as (k & Hk & E).
           exists (S k). split; [simpl; lia|]. rewrite E. simpl.
           rewrite <- app_assoc. reflexivity.
        -- exists 1%nat. split; [simpl; lia | reflexivity].
    + exists 1%nat. split; [simpl; lia | reflexivity].
Qed.

Lemma uploadDocumentsChunked_trace files net tr :
  exists k, (k <= List.length files)%nat /\
    snd (uploadDocumentsChunked files net tr) =
    (tr ++ map single_post (firstn k files)).
Proof.
  unfold uploadDocumentsChunked. rewrite rethrowing_run.
  destruct (upload_each_single_trace files [] net tr) as (k & Hk & E).
  exists k. split; [exact Hk|].
  unfold bind at 1. destruct (upload_each_single files [] net tr) as [[results|e] tr'];
    simpl in E; subst tr'; [|reflexivity].
  unfold bind, await, ret. destruct (flatMap_artifact_ids results); reflexivity.
Qed.

End GrantAPIFacts.

(** ** The retry loop around one chunk *)
Module RetryFacts.

(** One attempt: the post of the chunk, then the callback when it went
    through. *)
Lemma attempt_run this file uploadId i net tr (retries : Z) :
  (uploadChunk uploadId i (FormBlob file (chunk_start i) (chunk_end (size file) i)) ;;
   call_onProgress this (progress_sample file i) ;;
   ret (true, retries)) net tr =
  if failed net (tr ++ [chunk_post file uploadId i])
  then (Throw (match net (tr ++ [chunk_post file uploadId i]) with
               | Rejects e => e
               | Resolves r =>
                   Error ("Failed to upload chunk: " ++ Text.decimal (status r))%string
               end),
        tr ++ [chunk_post file uploadId i])
  else (Ok (true, retries), (tr ++ [chunk_post file uploadId i]) ++ progress_events this file i).
Proof.
  unfold uploadChunk, chunk_post, failed. unfold bind, fetch. cbv beta zeta.
  destruct (net _) as [r|e]; [|reflexivity].
  destruct (negb (ok r)); [reflexivity|].
  unfold ret, call_onProgress, progress_events, emit_all.
  destruct (onProgress this); [reflexivity|].
  rewrite app_nil_r. reflexivity.
Qed.

(** With [success] set the loop is over, whatever the fuel. *)
Lemma retry_loop_done this file uploadId i fuel retries net tr :
  retry_loop this file uploadId i fuel true retries net tr = (Ok tt, tr).
Proof. destruct fuel; reflexivity. Qed.

(** With the retries used up the loop is over, whatever the fuel. *)
Lemma retry_loop_spent this file uploadId i fuel success retries net tr :
  MAX_RETRIES <= retries ->
  retry_loop this file uploadId i fuel success retries net tr = (Ok tt, tr).
Proof.
  intros H. destruct fuel; simpl;
    destruct (Z.ltb_spec retries MAX_RETRIES); try lia;
    rewrite andb_false_r; reflexivity.
Qed.

(** One iteration of the loop. *)
Lemma retry_loop_step this file uploadId i fuel retries net tr :
  retries < MAX_RETRIES ->
  retry_loop this file uploadId i (S fuel) false retries net tr =
  let t := (tr ++ [chunk_post file uploadId i]) in
  if failed net t then
    if retries + 1 >=? MAX_RETRIES
    then (Throw (Error (retries_exhausted i)), t)
    else retry_loop this file uploadId i fuel false (retries + 1) net
           (t ++ [SetTimeout ResolveDelay (1000 * (retries + 1))])
  else (Ok tt, (t ++ progress_events this file i)).
Proof.
  intros H. cbn zeta. cbn [retry_loop].
  destruct (Z.ltb_spec retries MAX_RETRIES); [|lia]. cbn [negb andb].
  unfold bind at 1. unfold try_catch. rewrite attempt_run.
  destruct (failed net _).
  - destruct (retries + 1 >=? MAX_RETRIES); [reflexivity|].
    reflexivity.
  - cbn [fst snd]. apply retry_loop_done.
Qed.

(** Enough fuel: the loop does the same with any fuel that covers the
    retries left. *)
Lemma retry_loop_fuel this file uploadId i fuel fuel' success retries net tr :
  0 <= retries ->
  (Z.to_nat (MAX_RETRIES - retries) <= fuel)%nat ->
  (Z.to_nat (MAX_RETRIES - retries) <= fuel')%nat ->
  retry_loop this file uploadId i fuel success retries net tr =
  retry_loop this file uploadId i fuel' success retries net tr.
Proof.
  revert fuel' success retries tr.
  induction fuel as [|fuel IH]; intros fuel' success retries tr H0 H1 H2.
  - rewrite !retry_loop_spent by lia. reflexivity.
  - destruct success; [rewrite !retry_loop_done; reflexivity|].
    destruct (Z.le_gt_cases MAX_RETRIES retries) as [Hs|Hs];
      [rewrite !retry_loop_spent by lia; reflexivity|].
    destruct fuel' as [|fuel']; [lia|].
    rewrite !retry_loop_step by lia. cbn zeta.
    destruct (failed net _); [|reflexivity].
    destruct (retries + 1 >=? MAX_RETRIES); [reflexivity|].
    apply IH; lia.
Qed.

(** The complete decision of [upload_one_chunk]: at most three posts of the
    chunk, a wait of 1000 ms after the first failure and of 2000 ms after
    the second, and the error after the third. *)
Lemma upload_one_chunk_run this file uploadId i net tr :
  let F := chunk_post file uploadId i in
  let t1 := (tr ++ [F]) in
  let t2 := (tr ++ [F; SetTimeout ResolveDelay 1000; F]) in
  let t3 := (tr ++ [F; SetTimeout ResolveDelay 1000; F; SetTimeout ResolveDelay 2000; F]) in
  upload_one_chunk this file uploadId i net tr =
  if negb (failed net t1) then (Ok tt, (t1 ++ progress_events this file i))
  else if negb (failed net t2) then (Ok tt, (t2 ++ progress_events this file i))
  else if negb (failed net t3) then (Ok tt, (t3 ++ progress_events this file i))
  else (Throw (Error (retries_exhausted i)), t3).
Proof.
  cbn zeta. unfold upload_one_chunk.
  change (Z.to_nat MAX_RETRIES) with 3%nat.
  rewrite retry_loop_step by (unfold MAX_RETRIES; lia). cbn zeta.
  destruct (failed net (tr ++ [chunk_post file uploadId i])); [|reflexivity].
  cbn [negb]. change (0 + 1 >=? MAX_RETRIES) with false. cbv iota.
  rewrite retry_loop_step by (unfold MAX_RETRIES; lia). cbn zeta.
  change (1000 * (0 + 1)) with 1000.
  replace (((tr ++ [chunk_post file uploadId i]) ++ [SetTimeout ResolveDelay 1000]) ++
           [chunk_post file uploadId i])
    with (tr ++ [chunk_post file uploadId i; SetTimeout ResolveDelay 1000;
                 chunk_post file uploadId i])
    by (rewrite <- !app_assoc; reflexivity).
  destruct (failed net _); [|reflexivity].
  cbn [negb]. change (0 + 1 + 1 >=? MAX_RETRIES) with false. cbv iota.
  rewrite retry_loop_step by (unfold MAX_RETRIES; lia). cbn zeta.
  change (1000 * (0 + 1 + 1)) with 2000.
  replace (((tr ++ [chunk_post file uploadId i; SetTimeout ResolveDelay 1000;
                    chunk_post file uploadId i]) ++ [SetTimeout ResolveDelay 2000]) ++
           [chunk_post file uploadId i])
    with (tr ++ [chunk_post file uploadId i; SetTimeout ResolveDelay 1000;
                 chunk_post file uploadId i; SetTimeout ResolveDelay 2000;
                 chunk_post file uploadId i])
    by (rewrite <- !app_assoc; reflexivity).
  destruct (failed net _); [|reflexivity].
  cbn [negb]. change (0 + 1 + 1 + 1 >=? MAX_RETRIES) with true. reflexivity.
Qed.

End RetryFacts.

(** ** The chunk loop and [uploadFile] *)
Module ChunkedUploaderFacts.
Import RetryFacts.

Lemma range_from_length i n : List.length (range_from i n) = n.
Proof. revert i. induction n; intros; simpl; [reflexivity | f_equal; apply IHn]. Qed.

Lemma range_from_snoc i n : range_from i (S n) = range_from i n ++ [i + Z.of_nat n].
Proof.
  revert i. induction n as [|n IH]; intros i.
  - simpl. f_equal. lia.
  - change (range_from i (S (S n))) with (i :: range_from (i + 1) (S n)).
    rewrite IH. simpl. do 3 f_equal. lia.
Qed.

Lemma indices_range_from n : indices n = range_from 0 (Z.to_nat n).
Proof.
  unfold indices. generalize (Z.to_nat n) as k. intros k.
  change 0 with (Z.of_nat 0) at 1. generalize 0%nat as s.
  induction k as [|k IH]; intros s; simpl; [reflexivity|].
  f_equal. rewrite IH. f_equal. lia.
Qed.

Lemma range_from_In i n j : In j (range_from i n) <-> i <= j < i + Z.of_nat n.
Proof.
  revert i. induction n as [|n IH]; intros i; simpl.
  - split; [contradiction | lia].
  - rewrite IH. lia.
Qed.

Lemma range_from_nth i n k : (k < n)%nat -> nth k (range_from i n) 0 = i + Z.of_nat k.
Proof.
  revert i k. induction n as [|n IH]; intros i k Hk; [lia|].
  destruct k as [|k]; simpl; [lia|]. rewrite IH by lia. lia.
Qed.

Lemma samples_app tr1 tr2 : samples (tr1 ++ tr2) = samples tr1 ++ samples tr2.
Proof.
  induction tr1 as [|e tr1 IH]; [reflexivity|].
  destruct e as [url init|action ms| |[p|fileName progress]]; simpl; rewrite IH; reflexivity.
Qed.

Lemma requests_app tr1 tr2 : requests (tr1 ++ tr2) = requests tr1 ++ requests tr2.
Proof.
  induction tr1 as [|e tr1 IH]; [reflexivity|].
  destruct e; simpl; rewrite IH; reflexivity.
Qed.

Lemma session_chunk_post file uploadId i : session_event (chunk_post file uploadId i).
Proof. simpl. intuition. Qed.

Lemma session_progress_events this file i : Forall session_event (progress_events this file i).
Proof.
  unfold progress_events. destruct (onProgress this) as [callback|]; [|constructor].
  induction (callback (progress_sample file i)); constructor; simpl; auto.
Qed.

(** What one chunk adds to the history. *)
Lemma upload_one_chunk_added this file uploadId i net tr :
  exists added,
    snd (upload_one_chunk this file uploadId i net tr) = tr ++ added /\
    Forall session_event added /\
    samples added =
      match fst (upload_one_chunk this file uploadId i net tr) with
      | Ok _ => samples (progress_events this file i)
      | Throw _ => []
      end /\
    (forall e, fst (upload_one_chunk this file uploadId i net tr) = Throw e ->
               e = Error (retries_exhausted i)).
Proof.
  rewrite upload_one_chunk_run. cbn zeta.
  pose proof (session_chunk_post file uploadId i) as HF.
  pose proof (session_progress_events this file i) as HP.
  set (F := chunk_post file uploadId i) in *.
  assert (HS : session_event (SetTimeout ResolveDelay 1000)) by reflexivity.
  assert (HS' : session_event (SetTimeout ResolveDelay 2000)) by reflexivity.
  assert (SF : samples [F] = []) by reflexivity.
  destruct (failed net (tr ++ [F])); cbn [negb].
  2:{ exists ([F] ++ progress_events this file i). rewrite app_assoc.
      repeat split; try discriminate.
      - apply Forall_app; split; [repeat constructor; assumption | assumption]. }
  destruct (failed net (tr ++ [F; SetTimeout ResolveDelay 1000; F])); cbn [negb].
  2:{ exists ([F; SetTimeout ResolveDelay 1000; F] ++ progress_events this file i).
      rewrite app_assoc. repeat split; try discriminate.
      - apply Forall_app; split; [repeat constructor; assumption | assumption]. }
  destruct (failed net _); cbn [negb].
  2:{ exists ([F; SetTimeout ResolveDelay 1000; F; SetTimeout ResolveDelay 2000; F]
              ++ progress_events this file i).
      rewrite app_assoc. repeat split; try discriminate.
      - apply Forall_app; split; [repeat constructor; assumption | assumption]. }
  exists [F; SetTimeout ResolveDelay 1000; F; SetTimeout ResolveDelay 2000; F].
  repeat split.
  - repeat constructor; assumption.
  - intros e [= <-]. reflexivity.
Qed.

(** What the chunk loop adds to the history: session events only, and one
    sample per chunk that went through, in index order. *)
Lemma for_range_added this file uploadId n i net tr :
  exists added k,
    snd (for_range n i (upload_one_chunk this file uploadId) net tr) = tr ++ added /\
    Forall session_event added /\
    (k <= n)%nat /\
    samples added = flat_map (fun j => samples (progress_events this file j)) (range_from i k) /\
    match fst (for_range n i (upload_one_chunk this file uploadId) net tr) with
    | Ok _ => k = n
    | Throw e => (k < n)%nat /\ e = Error (retries_exhausted (i + Z.of_nat k))
    end.
Proof.
  revert i tr. induction n as [|n IH]; intros i tr.
  - exists [], O. simpl. rewrite app_nil_r. repeat split; auto.
  - cbn [for_range].
    destruct (upload_one_chunk_added this file uploadId i net tr) as (a1 & E1 & S1 & P1 & X1).
    destruct (upload_one_chunk this file uploadId i net tr) as [[[]|e] t1] eqn:E;
      cbn [fst snd] in *; subst t1.
    + rewrite (bind_ok _ _ _ _ _ _ E).
      destruct (IH (i + 1) (tr ++ a1)) as (a2 & k & E2 & S2 & Hk & P2 & R2).
      exists (a1 ++ a2), (S k). rewrite E2, app_assoc.
      split; [reflexivity|]. split; [apply Forall_app; auto|].
      split; [lia|]. split.
      * rewrite samples_app, P1, P2. reflexivity.
      * destruct (fst (for_range n (i + 1) _ net (tr ++ a1))) as [[]|e'].
        -- congruence.
        -- destruct R2 as [Hlt ->]. split; [lia|]. do 2 f_equal. lia.
    + rewrite (bind_throw _ _ _ _ _ _ E).
      exists a1, O. cbn [fst snd]. repeat split; auto; try lia.
      rewrite (X1 e eq_refl). do 2 f_equal. lia.
Qed.

(** When every post of a chunk goes through at once, the loop posts the
    chunks in index order, each followed by its callback. *)
Lemma for_range_all_accepted this file uploadId n i net tr :
  (forall history j, failed net (history ++ [chunk_post file uploadId j]) = false) ->
  for_range n i (upload_one_chunk this file uploadId) net tr =
  (Ok tt, tr ++ flat_map (fun j => chunk_post file uploadId j :: progress_events this file j)
                         (range_from i n)).
Proof.
  intros Hnet. revert i tr. induction n as [|n IH]; intros i tr.
  - simpl. rewrite app_nil_r. reflexivity.
  - cbn [for_range]. unfold bind at 1.
    rewrite upload_one_chunk_run. cbn zeta. rewrite Hnet. cbn [negb].
    rewrite IH. cbn [range_from flat_map].
    rewrite <- !app_assoc. reflexivity.
Qed.

Lemma initializeUpload_trace file net tr :
  snd (initializeUpload (name file) (size file) (chunk_count (size file)) net tr) =
  tr ++ [init_post file].
Proof.
  unfold initializeUpload, init_post. unfold bind, fetch. cbv beta zeta.
  destruct (net _) as [r|e]; [|reflexivity].
  destruct (negb (ok r)); [reflexivity|].
  unfold await. destruct (json r); reflexivity.
Qed.

Lemma finalizeUpload_trace uploadId net tr :
  snd (finalizeUpload uploadId net tr) = tr ++ [finalize_post uploadId].
Proof.
  unfold finalizeUpload, finalize_post. unfold bind, fetch. cbv beta zeta.
  destruct (net _) as [r|e]; [|reflexivity].
  destruct (negb (ok r)); [reflexivity|].
  unfold await. destruct (json r); reflexivity.
Qed.

(** [uploadFile] step by step: every exception of the three stages ends in
    the failure result. *)
Lemma uploadFile_run this file net tr :
  uploadFile this file net tr =
  match initializeUpload (name file) (size file) (chunk_count (size file)) net tr with
  | (Throw e, t0) => (Ok (failure_result file e), t0)
  | (Ok uploadId, t0) =>
      match for_loop 0 (chunk_count (size file)) (upload_one_chunk this file uploadId) net t0 with
      | (Throw e, t1) => (Ok (failure_result file e), t1)
      | (Ok _, t1) =>
          match finalizeUpload uploadId net t1 with
          | (Throw e, t2) => (Ok (failure_result file e), t2)
          | (Ok finalUrl, t2) => (Ok (success_result file uploadId finalUrl), t2)
          end
      end
  end.
Proof.
  unfold uploadFile. cbv zeta. unfold try_catch. unfold bind at 1.
  destruct (initializeUpload _ _ _ net tr) as [[uploadId|e] t0]; [|reflexivity].
  unfold bind at 1.
  destruct (for_loop _ _ _ net t0) as [[[]|e] t1]; [|reflexivity].
  unfold bind at 1.
  destruct (finalizeUpload uploadId net t1) as [[finalUrl|e] t2]; reflexivity.
Qed.

End ChunkedUploaderFacts.

(** ** Chunk arithmetic *)
Module ChunkArithmetic.
Import ChunkedUploaderFacts.

Lemma CHUNK_SIZE_pos : 0 < CHUNK_SIZE.
Proof. reflexivity. Qed.

(** The exact ceiling of a quotient of integers. *)
Lemma Qceiling_quotient (a b : Z) :
  0 < b -> Qceiling (inject_Z a / inject_Z b) = (a + b - 1) / b.
Proof.
  intros Hb.
  set (c := (a + b - 1) / b).
  assert (Hc : (c - 1) * b < a <= c * b).
  { pose proof (Z.div_mod (a + b - 1) b ltac:(lia)) as E.
    pose proof (Z.mod_pos_bound (a + b - 1) b Hb) as M.
    fold c in E. nia. }
  assert (Qb : (0 < inject_Z b)%Q) by (change 0%Q with (inject_Z 0); rewrite <- Zlt_Qlt; lia).
  replace c with (c - 1 + 1) by lia.
  apply JsNumberFacts.Qceiling_unique.
  - apply Qlt_shift_div_l; [assumption|].
    rewrite <- inject_Z_mult, <- Zlt_Qlt. lia.
  - apply Qle_shift_div_r; [assumption|].
    rewrite <- inject_Z_mult, <- Zle_Qle. lia.
Qed.

(** [Math.ceil(totalBytes / CHUNK_SIZE)] is the exact ceiling. *)
Lemma chunk_count_exact (totalBytes : Z) :
  0 < totalBytes <= JsNumber.MAX_SAFE_INTEGER ->
  chunk_count totalBytes = (totalBytes + CHUNK_SIZE - 1) / CHUNK_SIZE.
Proof.
  intros H. unfold chunk_count. apply JsNumberFacts.Math_ceil_div; [assumption | reflexivity].
Qed.

Lemma chunk_count_bounds (totalBytes : Z) :
  0 < totalBytes <= JsNumber.MAX_SAFE_INTEGER ->
  0 < chunk_count totalBytes /\
  (chunk_count totalBytes - 1) * CHUNK_SIZE < totalBytes <= chunk_count totalBytes * CHUNK_SIZE.
Proof.
  intros H. rewrite chunk_count_exact by assumption.
  pose proof CHUNK_SIZE_pos as Hc.
  pose proof (Z.div_mod (totalBytes + CHUNK_SIZE - 1) CHUNK_SIZE ltac:(lia)) as E.
  pose proof (Z.mod_pos_bound (totalBytes + CHUNK_SIZE - 1) CHUNK_SIZE Hc) as M.
  set (c := (totalBytes + CHUNK_SIZE - 1) / CHUNK_SIZE) in *.
  split; [|nia].
  destruct (Z.le_gt_cases c 0); [nia | assumption].
Qed.

(** A file without bytes, or with a size that is not positive, has no
    chunk. *)
Lemma chunk_count_nonpositive (totalBytes : Z) :
  totalBytes <= 0 -> chunk_count totalBytes <= 0.
Proof.
  intros H. unfold chunk_count, JsNumber.Math_ceil, JsNumber.div.
  set (x := (inject_Z totalBytes / inject_Z CHUNK_SIZE)%Q).
  assert (Hx : (x <= 0)%Q).
  { unfold x. apply Qle_shift_div_r; [reflexivity|].
    change (0 * inject_Z CHUNK_SIZE)%Q with (inject_Z 0). rewrite <- Zle_Qle. assumption. }
  assert (Hf : (JsNumber.fl x <= 0)%Q).
  { unfold JsNumber.fl. destruct (Qcompare_spec x 0) as [E|L|G].
    - apply Qle_refl.
    - assert (0 < JsNumber.round_pos (- x))%Q by (apply JsNumberFacts.round_pos_pos; lra).
      lra.
    - lra. }
  change 0 with (Qceiling 0). apply Qceiling_resp_le. exact Hf.
Qed.

Lemma chunk_end_le (totalBytes i j : Z) :
  i <= j -> chunk_end totalBytes i <= chunk_end totalBytes j.
Proof.
  intros H. unfold chunk_end, chunk_start, JsNumber.Math_min.
  pose proof CHUNK_SIZE_pos. nia.
Qed.

Lemma chunk_end_positive (totalBytes i : Z) :
  0 < totalBytes -> 0 <= i -> 0 < chunk_end totalBytes i <= totalBytes.
Proof.
  intros H Hi. unfold chunk_end, chunk_start, JsNumber.Math_min.
  pose proof CHUNK_SIZE_pos. nia.
Qed.

Lemma total_length_snoc ranges r :
  total_length (ranges ++ [r]) = total_length ranges + range_length r.
Proof.
  unfold total_length. induction ranges as [|x rest IH]; simpl; [lia|].
  rewrite IH. lia.
Qed.

(** The first [k] slices cover exactly the bytes before [k * CHUNK_SIZE]. *)
Lemma total_length_prefix (totalBytes : Z) (k : nat) :
  Z.of_nat k * CHUNK_SIZE <= totalBytes + CHUNK_SIZE - 1 ->
  0 < totalBytes ->
  total_length (map (fun i => (chunk_start i, chunk_end totalBytes i)) (range_from 0 k)) =
  Z.min (Z.of_nat k * CHUNK_SIZE) totalBytes.
Proof.
  intros Hk Ht. pose proof CHUNK_SIZE_pos as Hc. induction k as [|k IH].
  - unfold total_length. cbn [range_from map fold_right]. change (Z.of_nat 0) with 0. lia.
  - rewrite Nat2Z.inj_succ in Hk.
    rewrite range_from_snoc, map_app. cbn [map]. rewrite total_length_snoc.
    rewrite IH by nia.
    unfold range_length, chunk_end, chunk_start, JsNumber.Math_min. cbn [fst snd].
    rewrite Nat2Z.inj_succ. nia.
Qed.

(** The slices of a file are contiguous from byte 0 to the last byte. *)
Lemma chunk_ranges_facts (totalBytes : Z) :
  0 < totalBytes <= JsNumber.MAX_SAFE_INTEGER ->
  let n := chunk_count totalBytes in
  chunk_start 0 = 0 /\
  chunk_end totalBytes (n - 1) = totalBytes /\
  (forall i, 0 <= i < n -> chunk_start i < chunk_end totalBytes i) /\
  (forall i, 0 <= i < n - 1 -> chunk_end totalBytes i = chunk_start (i + 1)) /\
  (forall i j, 0 <= i < j -> j < n -> chunk_end totalBytes i <= chunk_start j) /\
  total_length (chunk_ranges totalBytes) = totalBytes.
Proof.
  intros H. cbn zeta.
  destruct (chunk_count_bounds totalBytes H) as (Hn & Hlo & Hhi).
  pose proof CHUNK_SIZE_pos as Hc.
  set (n := chunk_count totalBytes) in *.
  unfold chunk_end, chunk_start, JsNumber.Math_min.
  repeat split.
  - nia.
  - intros i Hi. nia.
  - intros i Hi. nia.
  - intros i j Hij Hj. nia.
  - unfold chunk_ranges. fold n. rewrite indices_range_from.
    rewrite total_length_prefix by (rewrite ?Z2Nat.id; lia).
    rewrite Z2Nat.id by lia. lia.
Qed.

Lemma posted_slices_app tr1 tr2 :
  posted_slices (tr1 ++ tr2) = posted_slices tr1 ++ posted_slices tr2.
Proof.
  unfold posted_slices. rewrite requests_app, filter_app, flat_map_app. reflexivity.
Qed.

Lemma requests_callbacks (os : list Observation) : requests (map Callback os) = [].
Proof. induction os; simpl; auto. Qed.

Lemma requests_progress_events this file i : requests (progress_events this file i) = [].
Proof.
  unfold progress_events. destruct (onProgress this); [apply requests_callbacks | reflexivity].
Qed.

(** The slices posted by an undisturbed chunk loop. *)
Lemma posted_slices_chunks this file uploadId (l : list Z) :
  posted_slices (flat_map (fun j => chunk_post file uploadId j :: progress_events this file j) l) =
  map (fun i => (chunk_start i, chunk_end (size file) i)) l.
Proof.
  induction l as [|j l IH]; [reflexivity|].
  cbn [flat_map map].
  rewrite posted_slices_app, IH.
  unfold posted_slices, chunk_post. cbn [requests].
  rewrite requests_progress_events. reflexivity.
Qed.

End ChunkArithmetic.

(** ** Progress percentages *)
Module ProgressFacts.
Import ChunkedUploaderFacts ChunkArithmetic.

Lemma inject_Z_nonneg (n : Z) : 0 <= n -> (0 <= inject_Z n)%Q.
Proof. intros H. change 0%Q with (inject_Z 0). rewrite <- Zle_Qle. assumption. Qed.

Lemma inject_Z_pos (n : Z) : 0 < n -> (0 < inject_Z n)%Q.
Proof. intros H. change 0%Q with (inject_Z 0). rewrite <- Zlt_Qlt. assumption. Qed.

(** The percentage grows with the bytes sent, rounding included. *)
Lemma percentage_of_mono (totalBytes u u' : Z) :
  0 < totalBytes -> 0 <= u <= u' ->
  percentage_of u totalBytes <= percentage_of u' totalBytes.
Proof.
  intros Ht [Hu Huu]. unfold percentage_of, JsNumber.mul, JsNumber.div.
  pose proof (inject_Z_pos _ Ht) as Qt.
  pose proof (inject_Z_nonneg _ Hu) as Qu.
  assert (Quu : (inject_Z u <= inject_Z u')%Q) by (rewrite <- Zle_Qle; assumption).
  assert (Pi : (0 < / inject_Z totalBytes)%Q) by (apply Qinv_lt_0_compat, Qt).
  assert (D0 : (0 <= inject_Z u / inject_Z totalBytes)%Q).
  { apply Qle_shift_div_l; [assumption | lra]. }
  assert (D1 : (inject_Z u / inject_Z totalBytes <= inject_Z u' / inject_Z totalBytes)%Q).
  { unfold Qdiv. apply Qmult_le_compat_r; [assumption | lra]. }
  pose proof (JsNumberFacts.fl_nonneg _ D0) as F0.
  pose proof (JsNumberFacts.fl_mono _ _ D0 D1) as F1.
  apply JsNumberFacts.Math_round_mono, JsNumberFacts.fl_mono; lra.
Qed.

(** When every byte is sent the percentage is 100. *)
Lemma percentage_of_full (totalBytes : Z) :
  0 < totalBytes -> percentage_of totalBytes totalBytes = 100.
Proof.
  intros Ht. unfold percentage_of, JsNumber.mul, JsNumber.div.
  pose proof (inject_Z_pos _ Ht) as Qt.
  assert (E1 : (inject_Z totalBytes / inject_Z totalBytes == inject_Z 1)%Q).
  { change (inject_Z 1) with 1%Q. field. lra. }
  assert (F1 : (JsNumber.fl (inject_Z totalBytes / inject_Z totalBytes) == inject_Z 1)%Q).
  { assert (N1 : (0 <= inject_Z totalBytes / inject_Z totalBytes)%Q)
      by (rewrite E1; discriminate).
    rewrite (JsNumberFacts.fl_comp _ _ N1 E1).
    apply JsNumberFacts.fl_integer. unfold JsNumber.MAX_SAFE_INTEGER. lia. }
  assert (E2 : (JsNumber.fl (inject_Z totalBytes / inject_Z totalBytes) * 100 == inject_Z 100)%Q).
  { rewrite F1. reflexivity. }
  assert (F2 : (JsNumber.fl (JsNumber.fl (inject_Z totalBytes / inject_Z totalBytes) * 100)
                == inject_Z 100)%Q).
  { assert (N2 : (0 <= JsNumber.fl (inject_Z totalBytes / inject_Z totalBytes) * 100)%Q)
      by (rewrite E2; discriminate).
    rewrite (JsNumberFacts.fl_comp _ _ N2 E2).
    apply JsNumberFacts.fl_integer. unfold JsNumber.MAX_SAFE_INTEGER. lia. }
  unfold JsNumber.Math_round.
  rewrite (Qfloor_comp _ (inject_Z 100 + (1 # 2))%Q) by (rewrite F2; reflexivity).
  reflexivity.
Qed.

Lemma samples_recording file i :
  samples (progress_events recording_uploader file i) = [progress_sample file i].
Proof. reflexivity. Qed.

Lemma flat_map_singleton {X Y : Type} (f : X -> Y) (l : list X) :
  flat_map (fun x => [f x]) l = map f l.
Proof. induction l; simpl; [reflexivity | f_equal; assumption]. Qed.

(** The samples a recording uploader is given: those of the chunks
    [0 .. k - 1] for some [k], all of them when the upload succeeds. *)
Lemma uploadFile_samples file net tr :
  exists added k,
    snd (uploadFile recording_uploader file net tr) = tr ++ added /\
    (k <= Z.to_nat (chunk_count (size file)))%nat /\
    samples added = map (progress_sample file) (range_from 0 k) /\
    (forall r, fst (uploadFile recording_uploader file net tr) = Ok r ->
               ChunkedUploadResult.success r = true ->
               k = Z.to_nat (chunk_count (size file))).
Proof.
  rewrite uploadFile_run.
  pose proof (initializeUpload_trace file net tr) as Ei.
  destruct (initializeUpload _ _ _ net tr) as [[uploadId|e] t0]; cbn [snd] in Ei; subst t0.
  2:{ exists [init_post file], O. cbn [fst snd]. repeat split; try lia.
      intros r [= <-]. discriminate. }
  unfold for_loop. rewrite Z.sub_0_r.
  destruct (for_range_added recording_uploader file uploadId
              (Z.to_nat (chunk_count (size file))) 0 net (tr ++ [init_post file]))
    as (a & k & Ea & _ & Hk & Sa & Ra).
  rewrite (flat_map_singleton (progress_sample file)) in Sa.
  destruct (for_range _ 0 _ net (tr ++ [init_post file])) as [[[]|e] t1];
    cbn [fst snd] in *; subst t1.
  - pose proof (finalizeUpload_trace uploadId net ((tr ++ [init_post file]) ++ a)) as Ef.
    exists ([init_post file] ++ a ++ [finalize_post uploadId]), k.
    destruct (finalizeUpload uploadId net _) as [[finalUrl|e] t2];
      cbn [fst snd] in *; subst t2;
      (split; [rewrite <- !app_assoc; reflexivity|]);
      (split; [exact Hk|]);
      (split; [rewrite !samples_app, Sa; cbn [samples app]; rewrite app_nil_r; reflexivity|]);
      intros; exact Ra.
  - exists ([init_post file] ++ a), k. cbn [fst snd].
    split; [rewrite <- app_assoc; reflexivity|].
    split; [exact Hk|].
    split; [rewrite samples_app, Sa; reflexivity|].
    intros r [= <-]. discriminate.
Qed.

End ProgressFacts.

(** ** Messages *)
Module TextFacts.
Local Open Scope string_scope.

Lemma substring_prefix (t b : string) : substring 0 (String.length t) (t ++ b) = t.
Proof.
  induction t as [|c t IH]; simpl.
  - destruct b; reflexivity.
  - rewrite IH. reflexivity.
Qed.

Lemma substring_skip (a s : string) (n : nat) :
  substring (String.length a) n (a ++ s) = substring 0 n s.
Proof. induction a as [|c a IH]; simpl; [reflexivity | exact IH]. Qed.

Lemma index_empty (s : string) : String.index 0 EmptyString s = Some O.
Proof. destruct s; reflexivity. Qed.

Lemma append_assoc (a b c : string) : (a ++ b) ++ c = a ++ b ++ c.
Proof. induction a as [|x a IH]; simpl; [reflexivity | rewrite IH; reflexivity]. Qed.

(** A string includes each of the pieces it is concatenated from. *)
Lemma includes_middle (a t b : string) : Text.includes (a ++ t ++ b) t = true.
Proof.
  unfold Text.includes.
  destruct (String.index 0 t (a ++ t ++ b)) eqn:E; [reflexivity|].
  destruct t as [|c t].
  - rewrite index_empty in E. discriminate.
  - exfalso.
    apply (index_correct3 0 (String.length a) _ _ E); [discriminate | lia |].
    rewrite substring_skip. apply substring_prefix.
Qed.

Lemma file_too_large_names (file : File) :
  Text.includes (file_too_large file) (name file) = true /\
  Text.includes (file_too_large file) (Text.megabytes (size file)) = true.
Proof.
  unfold file_too_large. split.
  - rewrite <- (append_assoc "File " Text.quote). apply includes_middle.
  - rewrite <- (append_assoc Text.quote " is ").
    rewrite <- (append_assoc (name file)).
    rewrite <- (append_assoc Text.quote).
    rewrite <- (append_assoc "File ").
    apply includes_middle.
Qed.

Lemma total_too_large_states (totalSize : Z) :
  Text.includes (total_too_large totalSize) (Text.megabytes totalSize) = true.
Proof. unfold total_too_large. apply includes_middle. Qed.

(** The size in megabytes is computed without rounding error before
    [toFixed] rounds it to hundredths. *)
Lemma megabytes_exact (size : Z) :
  (0 <= size <= JsNumber.MAX_SAFE_INTEGER)%Z ->
  (JsNumber.div (JsNumber.div (inject_Z size) 1024) 1024 == inject_Z size / inject_Z (2 ^ 20))%Q.
Proof.
  intros H.
  pose proof (JsNumberFacts.div_pow2_exact size 10 H ltac:(lia)) as D1.
  change (inject_Z (2 ^ 10)) with 1024%Q in D1.
  assert (N0 : (0 <= inject_Z size)%Q).
  { change 0%Q with (inject_Z 0). rewrite <- Zle_Qle. lia. }
  assert (E : (JsNumber.div (inject_Z size) 1024 / 1024 == inject_Z size * 2 ^ (- 20))%Q).
  { rewrite D1. change (2 ^ (- 20))%Q with (/ inject_Z (2 ^ 20))%Q.
    change (inject_Z (2 ^ 20)) with (1024 * 1024)%Q. field. }
  assert (N : (0 <= JsNumber.div (inject_Z size) 1024 / 1024)%Q).
  { rewrite E. apply Qmult_le_0_compat; [assumption | discriminate]. }
  unfold JsNumber.div at 1.
  rewrite (JsNumberFacts.fl_comp _ _ N E).
  rewrite JsNumberFacts.fl_representable.
  - reflexivity.
  - unfold JsNumber.MAX_SAFE_INTEGER, JsNumber.precision in *. lia.
Qed.

(** The number of hundredths [toFixed(2)] writes for a size. *)
Lemma megabytes_hundredths (size : Z) :
  (0 <= size <= JsNumber.MAX_SAFE_INTEGER)%Z ->
  Text.hundredths (JsNumber.div (JsNumber.div (inject_Z size) 1024) 1024)
  = ((200 * size + 2 ^ 20) / 2 ^ 21)%Z.
Proof.
  intros H. unfold Text.hundredths.
  rewrite Zdiv_Qdiv. apply Qfloor_comp.
  rewrite (megabytes_exact size H).
  rewrite inject_Z_plus, inject_Z_mult.
  change (inject_Z (2 ^ 21)) with (2 * inject_Z (2 ^ 20))%Q.
  change (inject_Z 200) with 200%Q.
  field. discriminate.
Qed.

(** The written value is within half a hundredth of the size in MB. *)
Lemma megabytes_accuracy (size : Z) :
  (0 <= size <= JsNumber.MAX_SAFE_INTEGER)%Z ->
  let n := Text.hundredths (JsNumber.div (JsNumber.div (inject_Z size) 1024) 1024) in
  (2 * Z.abs (n * 2 ^ 20 - 100 * size) <= 2 ^ 20)%Z.
Proof.
  intros H. cbn zeta. rewrite megabytes_hundredths by assumption.
  pose proof (Z.div_mod (200 * size + 2 ^ 20) (2 ^ 21) ltac:(lia)) as E.
  pose proof (Z.mod_pos_bound (200 * size + 2 ^ 20) (2 ^ 21) ltac:(lia)) as M.
  set (q := ((200 * size + 2 ^ 20) / 2 ^ 21)%Z) in *.
  change (2 ^ 21)%Z with 2097152%Z in *. change (2 ^ 20)%Z with 1048576%Z in *.
  lia.
Qed.

End TextFacts.

(** ** Whole runs of [uploadFile] and [uploadFiles] *)
Module UploadFacts.
Import RetryFacts ChunkedUploaderFacts ChunkArithmetic.

Lemma for_range_app (body : Z -> M unit) (n m : nat) (i : Z) net tr :
  for_range (n + m) i body net tr =
  match for_range n i body net tr with
  | (Ok _, t) => for_range m (i + Z.of_nat n) body net t
  | (Throw e, t) => (Throw e, t)
  end.
Proof.
  revert i tr. induction n as [|n IH]; intros i tr.
  - simpl. rewrite Z.add_0_r. reflexivity.
  - cbn [Nat.add for_range]. unfold bind.
    destruct (body i net tr) as [[[]|e] t]; [|reflexivity].
    rewrite IH. replace (i + 1 + Z.of_nat n) with (i + Z.of_nat (S n)) by lia.
    reflexivity.
Qed.

Lemma session_init_post file : session_event (init_post file).
Proof. simpl. intuition. Qed.

Lemma session_finalize_post uploadId : session_event (finalize_post uploadId).
Proof. simpl. intuition. Qed.

(** [uploadFile] always returns a result, and adds session events only. *)
Lemma uploadFile_added this file net tr :
  exists r added,
    uploadFile this file net tr = (Ok r, tr ++ added) /\
    Forall session_event added /\
    ChunkedUploadResult.fileName r = name file.
Proof.
  rewrite uploadFile_run.
  pose proof (initializeUpload_trace file net tr) as Ei.
  pose proof (session_init_post file) as Si.
  destruct (initializeUpload _ _ _ net tr) as [[uploadId|e] t0]; cbn [snd] in Ei; subst t0.
  2:{ exists (failure_result file e), [init_post file]. repeat split. repeat constructor; assumption. }
  unfold for_loop.
  destruct (for_range_added this file uploadId
              (Z.to_nat (chunk_count (size file) - 0)) 0 net (tr ++ [init_post file]))
    as (a & k & Ea & Sa & _).
  destruct (for_range _ 0 _ net (tr ++ [init_post file])) as [[[]|e] t1];
    cbn [snd] in Ea; subst t1.
  - pose proof (finalizeUpload_trace uploadId net ((tr ++ [init_post file]) ++ a)) as Ef.
    pose proof (session_finalize_post uploadId) as Sf.
    assert (Sall : Forall session_event ([init_post file] ++ a ++ [finalize_post uploadId])).
    { apply Forall_app; split; [repeat constructor; assumption|].
      apply Forall_app; split; [assumption | repeat constructor; assumption]. }
    destruct (finalizeUpload uploadId net _) as [[finalUrl|e] t2]; cbn [snd] in Ef; subst t2.
    + exists (success_result file uploadId finalUrl), ([init_post file] ++ a ++ [finalize_post uploadId]).
      rewrite <- !app_assoc. repeat split. exact Sall.
    + exists (failure_result file e), ([init_post file] ++ a ++ [finalize_post uploadId]).
      rewrite <- !app_assoc. repeat split. exact Sall.
  - exists (failure_result file e), ([init_post file] ++ a).
    rewrite <- app_assoc. repeat split.
    apply Forall_app; split; [repeat constructor; assumption | assumption].
Qed.

(** When the session opens and every chunk goes through at once, the run is
    the init request, the chunks in index order, and the finalize request. *)
Lemma uploadFile_accepted this file net tr uploadId :
  initializeUpload (name file) (size file) (chunk_count (size file)) net tr
    = (Ok uploadId, tr ++ [init_post file]) ->
  (forall history j, failed net (history ++ [chunk_post file uploadId j]) = false) ->
  exists r,
    uploadFile this file net tr =
    (Ok r, tr ++ [init_post file]
              ++ flat_map (fun j => chunk_post file uploadId j :: progress_events this file j)
                          (indices (chunk_count (size file)))
              ++ [finalize_post uploadId]).
Proof.
  intros Hinit Hchunks. rewrite uploadFile_run, Hinit.
  unfold for_loop. rewrite Z.sub_0_r.
  rewrite (for_range_all_accepted _ _ _ _ _ _ _ Hchunks).
  rewrite indices_range_from.
  set (chunks := flat_map _ _).
  pose proof (finalizeUpload_trace uploadId net ((tr ++ [init_post file]) ++ chunks)) as Ef.
  destruct (finalizeUpload uploadId net _) as [[finalUrl|e] t2]; cbn [snd] in Ef; subst t2;
    eexists; rewrite <- !app_assoc; reflexivity.
Qed.

Lemma whole_files_app tr1 tr2 : whole_files (tr1 ++ tr2) = whole_files tr1 ++ whole_files tr2.
Proof. unfold whole_files. rewrite requests_app, flat_map_app. reflexivity. Qed.

Lemma whole_files_session added : Forall session_event added -> whole_files added = [].
Proof.
  induction 1 as [|e rest He _ IH]; [reflexivity|].
  change (e :: rest) with ([e] ++ rest). rewrite whole_files_app, IH, app_nil_r.
  destruct e as [url init|action ms| |o]; try reflexivity.
  destruct He as (_ & _ & Hf). unfold whole_files. cbn [requests flat_map].
  rewrite Hf. reflexivity.
Qed.

Lemma whole_files_callbacks (os : list Observation) : whole_files (map Callback os) = [].
Proof. unfold whole_files. rewrite requests_callbacks. reflexivity. Qed.

(** One iteration of [uploadFiles]: a file above the threshold goes through
    [uploadFile]; a file at or below it goes whole to /api/upload. *)
Lemma upload_one_file_added onProgress file acc net tr :
  exists acc' added,
    upload_one_file onProgress file acc net tr = (Ok acc', tr ++ added) /\
    whole_files added = if needsChunkedUpload file then [] else [file].
Proof.
  unfold upload_one_file. destruct (needsChunkedUpload file).
  - unfold upload_large_file, try_catch. unfold bind at 1.
    match goal with |- context [uploadFile ?u file net tr] =>
      destruct (uploadFile_added u file net tr) as (r & added & E & Hs & _) end.
    rewrite E. destruct (ChunkedUploadResult.success r);
      eexists; exists added; (split; [reflexivity | apply whole_files_session, Hs]).
  - unfold upload_small_file, try_catch. unfold bind at 1. unfold fetch at 1.
    set (F := Fetch "/api/upload" (POST_form [("files", FormFile file)])).
    destruct (net (tr ++ [F])) as [r|e].
    + destruct (ok r).
      * unfold bind at 1. unfold await at 1. destruct (json r) as [j|e].
        -- unfold bind, emit_all, ret. eexists.
           exists ([F] ++ map Callback (call_file_progress onProgress (name file) 100)).
           rewrite app_assoc. split; [reflexivity|].
           rewrite whole_files_app, whole_files_callbacks. reflexivity.
        -- unfold ret. eexists. exists [F]. split; reflexivity.
      * unfold bind, await, ret. destruct (text r) as [t|e];
          eexists; exists [F]; split; reflexivity.
    + unfold ret. eexists. exists [F]. split; reflexivity.
Qed.

(** [uploadFiles] sends whole exactly the files [needsChunkedUpload]
    rejects. *)
Lemma upload_each_added onProgress files acc net tr :
  exists acc' added,
    upload_each onProgress files acc net tr = (Ok acc', tr ++ added) /\
    whole_files added = filter (fun file => negb (needsChunkedUpload file)) files.
Proof.
  revert acc tr. induction files as [|file rest IH]; intros acc tr.
  - exists acc, []. rewrite app_nil_r. split; reflexivity.
  - cbn [upload_each]. 
    destruct (upload_one_file_added onProgress file acc net tr) as (acc1 & a1 & E1 & W1).
    rewrite (bind_ok _ _ _ _ _ _ E1).
    destruct (IH acc1 (tr ++ a1)) as (acc2 & a2 & E2 & W2).
    exists acc2, (a1 ++ a2). rewrite E2, app_assoc. split; [reflexivity|].
    rewrite whole_files_app, W1, W2. cbn [filter].
    destruct (needsChunkedUpload file); reflexivity.
Qed.

Lemma uploadFiles_whole_files files onProgress net :
  whole_files (snd (uploadFiles files onProgress net [])) =
  filter (fun file => negb (needsChunkedUpload file)) files.
Proof.
  unfold uploadFiles.
  destruct (upload_each_added onProgress files ([], []) net []) as (acc & added & E & W).
  rewrite (bind_ok _ _ _ _ _ _ E). cbn [ret snd app]. exact W.
Qed.

(** The session of [uploadFile] opens with the init request of the file. *)
Lemma uploadFile_session this file net tr :
  exists r session,
    uploadFile this file net tr = (Ok r, tr ++ init_post file :: session) /\
    Forall session_event (init_post file :: session).
Proof.
  destruct (uploadFile_added this file net tr) as (r & added & E & Hs & _).
  pose proof (initializeUpload_trace file net tr) as Ei.
  assert (Hhead : exists session, added = init_post file :: session).
  { rewrite uploadFile_run in E.
    destruct (initializeUpload _ _ _ net tr) as [[uploadId|e] t0]; cbn [snd] in Ei; subst t0.
    2:{ injection E as _ E. apply app_inv_head in E. exists []. symmetry. exact E. }
    unfold for_loop in E.
    destruct (for_range_added this file uploadId
                (Z.to_nat (chunk_count (size file) - 0)) 0 net (tr ++ [init_post file]))
      as (a & k & Ea & _).
    destruct (for_range _ 0 _ net (tr ++ [init_post file])) as [[[]|e] t1];
      cbn [snd] in Ea; subst t1.
    - pose proof (finalizeUpload_trace uploadId net ((tr ++ [init_post file]) ++ a)) as Ef.
      destruct (finalizeUpload uploadId net _) as [[finalUrl|e] t2]; cbn [snd] in Ef; subst t2;
        injection E as _ E; rewrite <- !app_assoc in E; apply app_inv_head in E;
        exists (a ++ [finalize_post uploadId]); symmetry; exact E.
    - injection E as _ E. rewrite <- app_assoc in E. apply app_inv_head in E.
      exists a. symmetry. exact E. }
  destruct Hhead as [session ->]. exists r, session. split; assumption.
Qed.

(** A file above the threshold: the iteration of [uploadFiles] is the run
    of [uploadFile] with the uploader built for the file. *)
Lemma upload_one_file_large onProgress file acc net tr :
  needsChunkedUpload file = true ->
  exists acc',
    upload_one_file onProgress file acc net tr
    = (Ok acc', snd (uploadFile (uploader_for onProgress file) file net tr)).
Proof.
  intros Hneeds. unfold upload_one_file. rewrite Hneeds.
  unfold upload_large_file, try_catch. unfold bind at 1. fold (uploader_for onProgress file).
  destruct (uploadFile_added (uploader_for onProgress file) file net tr)
    as (r & added & E & _).
  rewrite E. cbn [snd]. destruct (ChunkedUploadResult.success r); eexists; reflexivity.
Qed.

Lemma upload_each_app onProgress (before rest : list File) acc net tr :
  upload_each onProgress (before ++ rest) acc net tr =
  match upload_each onProgress before acc net tr with
  | (Ok acc1, t1) => upload_each onProgress rest acc1 net t1
  | (Throw e, t1) => (Throw e, t1)
  end.
Proof.
  revert acc tr. induction before as [|file before IH]; intros acc tr; [reflexivity|].
  cbn [app upload_each]. unfold bind.
  destruct (upload_one_file onProgress file acc net tr) as [[acc1|e] t1]; [apply IH | reflexivity].
Qed.

End UploadFacts.

(** * The claims *)

(** ** The upload entry point *)
Module EntryPoint.
Import GrantAPI GrantAPIFacts.

(** The guard of [uploadDocuments] works for the empty list: the call
    rejects with the message 'No files provided for upload', whatever the
    network would answer, and leaves the history as it was. *)
Lemma empty_list_rejected : no_files_claim (Some []).
Proof. intros net tr. reflexivity. Qed.

(** C10.  The claim is right and the code misses it for a missing list.
    The guard [!files || files.length === 0] is written for both cases, but
    the logging statements at the head of [uploadDocuments] read
    [files.length] before the guard is reached: called without a list, the
    call rejects with the engine's [TypeError] and not with the message
    'No files provided for upload'.  In both cases no size is validated and
    no request is sent; for the empty list the message is the claimed
    one. *)
Theorem missing_list_type_error (net : Network) (tr : Trace) :
  uploadDocuments None net tr
    = (Throw (TypeError "Cannot read properties of undefined (reading 'length')"), tr) /\
  uploadDocuments None net tr <> (Throw (Error "No files provided for upload"), tr) /\
  uploadDocuments (Some []) net tr = (Throw (Error "No files provided for upload"), tr).
Proof.
  split; [reflexivity|]. split; [|reflexivity].
  intros H. discriminate H.
Qed.

(** C1, as stated, fails for the empty batch: it is within both caps and
    within the platform limit, yet no request is sent. *)
Lemma empty_batch_not_routed :
  Forall (fun file => size file <= MAX_FILE_SIZE) [] /\
  total_size [] <= MAX_TOTAL_SIZE /\
  ~ routing_claim [].
Proof.
  split; [constructor|]. split; [discriminate|].
  intros H. destruct (H net_ok []) as [_ Hdirect].
  specialize (Hdirect ltac:(discriminate)). discriminate Hdirect.
Qed.

(** C1, amended: for every batch that is not empty, with every file at most
    500 MB and the total at most 500 MB: when the total exceeds 30 MB,
    [uploadDocuments] behaves as [uploadDocumentsChunked] and sends requests
    to /api/upload-single only; when the total is at most 30 MB, it sends
    exactly one request, the multipart POST to /api/upload with every file
    under the field name [files]. *)
Theorem nonempty_batch_routed (files : list File) :
  files <> [] ->
  Forall (fun file => size file <= MAX_FILE_SIZE) files ->
  total_size files <= MAX_TOTAL_SIZE ->
  routing_claim files.
Proof.
  intros Hne Hsizes Htotal net tr.
  rewrite (uploadDocuments_run files net tr Hne).
  rewrite (find_oversize_none files Hsizes).
  destruct (Z.gtb_spec (total_size files) MAX_TOTAL_SIZE) as [Hgt|_]; [lia|].
  split; intros Hlimit.
  - destruct (Z.gtb_spec (total_size files) CLOUD_RUN_LIMIT) as [_|Hle]; [|lia].
    split; [reflexivity | apply uploadDocumentsChunked_trace].
  - destruct (Z.gtb_spec (total_size files) CLOUD_RUN_LIMIT) as [Hgt|_]; [lia|].
    apply upload_direct_trace.
Qed.

(** A batch of five files of 8 MB and a batch of one file of 26 MB are
    routed as C1 says. *)
Lemma nonempty_batch_routed_witness :
  routing_claim five_files /\ routing_claim [medium_pdf].
Proof.
  split.
  - apply (nonempty_batch_routed five_files).
    + discriminate.
    + repeat constructor; discriminate.
    + discriminate.
  - apply (nonempty_batch_routed [medium_pdf]).
    + discriminate.
    + repeat constructor; discriminate.
    + discriminate.
Defined.

End EntryPoint.

(** ** Validation of the sizes *)
Module Validation.
Import GrantAPI GrantAPIFacts.

(** C3, as stated, fails for a batch that is over the total cap with every
    file under the per-file cap: two files of 300 MB are rejected with
    'Total upload size is 600.00MB. ...', which names neither file. *)
Lemma total_cap_message_names_no_file :
  total_size two_large_files > MAX_TOTAL_SIZE /\ ~ rejection_claim two_large_files.
Proof.
  split; [reflexivity|].
  intros H. destruct (H net_ok []) as (msg & Hrun & file & Hin & Hname & _).
  vm_compute in Hrun. injection Hrun as <-.
  destruct Hin as [<-|[<-|[]]]; vm_compute in Hname; discriminate Hname.
Qed.

(** C3, amended: an invocation with a file larger than 500 MB is rejected
    before any request with the message [File "<name>" is <size>MB. Maximum
    file size is 500MB.] for the first such file in list order, whatever the
    total is; an invocation whose files are all within the cap and whose
    total exceeds 500 MB is rejected before any request with the message
    [Total upload size is <total>MB. ...], which states the total and names
    no file.  The size written is the size divided by 2^20, rounded to the
    nearest hundredth. *)
Theorem oversize_rejected (files : list File) (net : Network) (tr : Trace) :
  Exists (fun file => size file > MAX_FILE_SIZE) files \/ total_size files > MAX_TOTAL_SIZE ->
  (exists msg,
     uploadDocuments (Some files) net tr = (Throw (Error msg), tr) /\
     ((exists file,
         find oversize files = Some file /\ In file files /\ size file > MAX_FILE_SIZE /\
         msg = file_too_large file /\
         Text.includes msg (name file) = true /\
         Text.includes msg (Text.megabytes (size file)) = true)
      \/
      (Forall (fun file => size file <= MAX_FILE_SIZE) files /\
       total_size files > MAX_TOTAL_SIZE /\
       msg = total_too_large (total_size files) /\
       Text.includes msg (Text.megabytes (total_size files)) = true))) /\
  (forall bytes, 0 <= bytes <= JsNumber.MAX_SAFE_INTEGER ->
     Text.megabytes bytes =
       Text.toFixed2 (JsNumber.div (JsNumber.div (inject_Z bytes) 1024) 1024) /\
     2 * Z.abs (Text.hundredths (JsNumber.div (JsNumber.div (inject_Z bytes) 1024) 1024)
                * 2 ^ 20 - 100 * bytes) <= 2 ^ 20).
Proof.
  intros Hover. split.
  2:{ intros bytes Hb. split; [reflexivity | apply TextFacts.megabytes_accuracy, Hb]. }
  assert (Hne : files <> []).
  { intros ->. destruct Hover as [H|H]; [inversion H | discriminate H]. }
  rewrite (uploadDocuments_run files net tr Hne).
  destruct (find oversize files) as [file|] eqn:Hfind.
  - exists (file_too_large file). split; [reflexivity|]. left. exists file.
    destruct (find_some _ _ Hfind) as [Hin Hbig]. unfold oversize in Hbig.
    destruct (TextFacts.file_too_large_names file) as [N1 N2].
    repeat split; auto. lia.
  - assert (Hall : Forall (fun file => size file <= MAX_FILE_SIZE) files).
    { apply Forall_forall. intros file Hin.
      pose proof (find_none _ _ Hfind file Hin) as Hsmall. unfold oversize in Hsmall. lia. }
    assert (Htotal : total_size files > MAX_TOTAL_SIZE).
    { destruct Hover as [Hex|Ht]; [|exact Ht].
      destruct (find_oversize_some files Hex) as (file & Hsome & _). congruence. }
    destruct (Z.gtb_spec (total_size files) MAX_TOTAL_SIZE) as [_|Hle]; [|lia].
    exists (total_too_large (total_size files)). split; [reflexivity|]. right.
    repeat split; auto. apply TextFacts.total_too_large_states.
Qed.

(** Scenario D: one file of 600 MB is rejected before any request; so are
    two files of 300 MB. *)
Lemma oversize_rejected_witness :
  (exists msg, uploadDocuments (Some [huge_pdf]) net_ok [] = (Throw (Error msg), [])) /\
  (exists msg, uploadDocuments (Some two_large_files) net_ok [] = (Throw (Error msg), [])).
Proof.
  split.
  - destruct (oversize_rejected [huge_pdf] net_ok []) as [(msg & Hrun & _) _].
    + left. constructor. reflexivity.
    + exists msg. exact Hrun.
  - destruct (oversize_rejected two_large_files net_ok []) as [(msg & Hrun & _) _].
    + right. reflexivity.
    + exists msg. exact Hrun.
Defined.

End Validation.

(** ** Which path a large file takes *)
Module LargeFiles.
Import GrantAPI GrantAPIFacts ChunkedUploaderFacts ChunkArithmetic UploadFacts.

(** The run of [uploadDocumentsChunked] on one file: one request with the
    whole file, and a result tagged [chunked] when it returns one. *)
Lemma uploadDocumentsChunked_one_file file net tr :
  snd (uploadDocumentsChunked [file] net tr) = tr ++ [single_post file] /\
  (forall v, fst (uploadDocumentsChunked [file] net tr) = Ok v ->
             get v "upload_method" = Ok (JsString "chunked")) /\
  (forall r j ids,
     net (tr ++ [single_post file]) = Resolves r -> ok r = true -> json r = Ok j ->
     get j "artifact_ids" = Ok ids ->
     exists v, fst (uploadDocumentsChunked [file] net tr) = Ok v).
Proof.
  unfold uploadDocumentsChunked, rethrowing, try_catch.
  cbn [upload_each_single]. unfold bind, fetch, await, ret, throw.
  fold (single_post file). cbv beta zeta.
  destruct (net (tr ++ [single_post file])) as [r|e].
  2:{ repeat split; discriminate. }
  destruct (ok r) eqn:Hokr; cbn [negb].
  2:{ destruct (text r); repeat split; try discriminate;
        intros r' j' ids' [= <-] Hok; congruence. }
  destruct (json r) as [j|e] eqn:Hjson.
  2:{ repeat split; try discriminate.
      intros r' j' ids' [= <-] _ Hj. congruence. }
  unfold push. cbn [app flatMap_artifact_ids].
  destruct (get j "artifact_ids") as [ids|e] eqn:Hget.
  2:{ repeat split; try discriminate.
      intros r' j' ids' [= <-] _ Hj Hids. congruence. }
  destruct (if truthy ids then ids else JsArray []); cbn [fst snd];
    (split; [reflexivity|]);
    (split; [intros v [= <-]; reflexivity|]);
    intros; eexists; reflexivity.
Qed.

(** C7, as stated, fails: through [uploadDocuments], a file of 120 MB is
    sent in no chunk post at all, even when the backend accepts every
    request. *)
Lemma entry_point_sends_no_chunk :
  size big_pdf = 120 * MB /\ ~ scenario_B_claim big_pdf net_ok.
Proof.
  split; [reflexivity|].
  intros [Hchunks _]. vm_compute in Hchunks. discriminate Hchunks.
Qed.

(** C7, amended: through [uploadDocuments], one file of 120 MB takes the
    [uploadDocumentsChunked] path, which sends exactly one request, the
    whole file to /api/upload-single, and no chunk or finalize request; the
    result, when there is one, carries [upload_method] equal to [chunked],
    and there is one when the backend accepts the request and answers with
    a JSON object.  [ChunkedUploader.uploadFile] on the same file, when the
    session opens and every chunk post is accepted, sends the init request,
    24 chunk posts in index order and then one finalize request. *)
Theorem scenario_B (file : File) (net : Network) :
  size file = 120 * MB ->
  snd (uploadDocuments (Some [file]) net []) = [single_post file] /\
  (forall v, fst (uploadDocuments (Some [file]) net []) = Ok v ->
             get v "upload_method" = Ok (JsString "chunked")) /\
  (forall r j ids,
     net [single_post file] = Resolves r -> ok r = true -> json r = Ok j ->
     get j "artifact_ids" = Ok ids ->
     exists v, fst (uploadDocuments (Some [file]) net []) = Ok v) /\
  chunk_count (size file) = 24 /\
  (forall this uploadId,
     initializeUpload (name file) (size file) (chunk_count (size file)) net []
       = (Ok uploadId, [init_post file]) ->
     (forall history j, failed net (history ++ [chunk_post file uploadId j]) = false) ->
     exists r,
       uploadFile this file net [] =
       (Ok r, [init_post file]
              ++ flat_map (fun j => chunk_post file uploadId j :: progress_events this file j)
                          (indices 24)
              ++ [finalize_post uploadId])).
Proof.
  intros Hsize.
  assert (Hrun : uploadDocuments (Some [file]) net [] = uploadDocumentsChunked [file] net []).
  { rewrite uploadDocuments_run by discriminate.
    cbn [find]. unfold oversize, total_size. cbn [fold_left]. rewrite Hsize.
    reflexivity. }
  assert (Hcount : chunk_count (size file) = 24).
  { rewrite Hsize. vm_compute. reflexivity. }
  rewrite Hrun.
  destruct (uploadDocumentsChunked_one_file file net []) as (H1 & H2 & H3).
  split; [exact H1|]. split; [exact H2|]. split; [exact H3|]. split; [exact Hcount|].
  intros this uploadId Hinit Hchunks.
  destruct (uploadFile_accepted this file net [] uploadId Hinit Hchunks) as [r Hr].
  exists r. rewrite Hr, Hcount. reflexivity.
Qed.

(** The file of scenario B against a backend that accepts everything. *)
Lemma scenario_B_witness :
  snd (uploadDocuments (Some [big_pdf]) net_ok []) = [single_post big_pdf] /\
  chunk_count (size big_pdf) = 24.
Proof.
  destruct (scenario_B big_pdf net_ok) as (H1 & _ & _ & H4 & _).
  - reflexivity.
  - split; [exact H1 | exact H4].
Defined.

(** C2, as stated, fails for the entry point: a file of 26 MB is above the
    per-file threshold, and [uploadDocuments] sends it whole in the direct
    request, because only the total of the batch is compared with a limit
    there. *)
Lemma entry_point_ignores_file_threshold :
  size medium_pdf > 25 * MB /\ ~ per_file_claim medium_pdf.
Proof.
  split; [reflexivity|].
  intros [_ H]. apply (H [medium_pdf] net_ok); [left; reflexivity|].
  vm_compute. left. reflexivity.
Qed.

(** C2, amended: for every file larger than 25 MB, [needsChunkedUpload]
    returns [true], and [uploadFiles], which consults it, routes the file
    through [ChunkedUploader.uploadFile] whatever the batch is: when the
    files before it have been handled, the events of the file are the run
    of [uploadFile] on it, which opens with the init request of the file
    and consists of init, chunk and finalize requests only, none of them
    with a whole file; the files after it follow.  The files [uploadFiles]
    sends whole are exactly those of at most 25 MB, in their order.
    [uploadDocuments] does not consult the per-file threshold: in a batch
    within the caps whose total is at most 30 MB, every file is sent whole
    in the one direct request. *)
Theorem large_file_classified (file : File) :
  size file > 25 * MB ->
  needsChunkedUpload file = true /\
  (forall before after onProgress net,
     exists acc history session later,
       upload_each onProgress before ([], []) net [] = (Ok acc, history) /\
       snd (uploadFile (uploader_for onProgress file) file net history)
         = history ++ init_post file :: session /\
       Forall session_event (init_post file :: session) /\
       whole_files (init_post file :: session) = [] /\
       snd (uploadFiles (before ++ file :: after) onProgress net [])
         = history ++ (init_post file :: session) ++ later) /\
  (forall files onProgress net,
     whole_files (snd (uploadFiles files onProgress net []))
       = filter (fun sent => size sent <=? 25 * MB) files /\
     ~ In file (whole_files (snd (uploadFiles files onProgress net [])))) /\
  (forall files net,
     In file files ->
     Forall (fun f => size f <= MAX_FILE_SIZE) files ->
     total_size files <= CLOUD_RUN_LIMIT ->
     whole_files (snd (uploadDocuments (Some files) net [])) = files).
Proof.
  intros Hsize.
  assert (Hneeds : needsChunkedUpload file = true).
  { unfold needsChunkedUpload. cbv zeta. change (25 * 1024 * 1024) with (25 * MB).
    destruct (Z.gtb_spec (size file) (25 * MB)); [reflexivity | lia]. }
  assert (Hfilter : forall files onProgress net,
            whole_files (snd (uploadFiles files onProgress net []))
            = filter (fun sent => size sent <=? 25 * MB) files).
  { intros files onProgress net. rewrite uploadFiles_whole_files.
    apply filter_ext. intros sent. unfold needsChunkedUpload. cbv zeta.
    change (25 * 1024 * 1024) with (25 * MB).
    destruct (Z.gtb_spec (size sent) (25 * MB)), (Z.leb_spec (size sent) (25 * MB));
      try reflexivity; lia. }
  split; [exact Hneeds|]. split; [|split].
  - intros before after onProgress net.
    destruct (upload_each_added onProgress before ([], []) net [])
      as (acc & history & Ebefore & _).
    cbn [app] in Ebefore.
    destruct (uploadFile_session (uploader_for onProgress file) file net history)
      as (r & session & Efile & Hsession).
    destruct (upload_one_file_large onProgress file acc net history Hneeds) as [acc1 Eone].
    rewrite Efile in Eone. cbn [snd] in Eone.
    destruct (upload_each_added onProgress after acc1 net
                (history ++ init_post file :: session)) as (acc2 & later & Eafter & _).
    exists acc, history, session, later.
    split; [exact Ebefore|]. split; [rewrite Efile; reflexivity|].
    split; [exact Hsession|]. split; [apply whole_files_session, Hsession|].
    unfold uploadFiles. unfold bind at 1.
    rewrite upload_each_app, Ebefore. cbn [upload_each].
    rewrite (bind_ok _ _ _ _ _ _ Eone), Eafter. unfold ret. cbn [snd].
    rewrite <- app_assoc. reflexivity.
  - intros files onProgress net. split; [apply Hfilter|].
    rewrite Hfilter. intros Hin. apply filter_In in Hin. destruct Hin as [_ Hsmall].
    destruct (Z.leb_spec (size file) (25 * MB)); [lia | discriminate Hsmall].
  - intros files net Hin Hsizes Htotal.
    assert (Hne : files <> []) by (intros ->; contradiction).
    rewrite (uploadDocuments_run files net [] Hne), (find_oversize_none files Hsizes).
    destruct (Z.gtb_spec (total_size files) MAX_TOTAL_SIZE) as [Hgt|_].
    { unfold MAX_TOTAL_SIZE, CLOUD_RUN_LIMIT in *. lia. }
    destruct (Z.gtb_spec (total_size files) CLOUD_RUN_LIMIT) as [Hgt|_]; [lia|].
    rewrite upload_direct_trace. cbn [app]. unfold whole_files, direct_post.
    cbn [requests flat_map request_form snd body POST_form]. rewrite app_nil_r.
    clear. induction files as [|f rest IH]; [reflexivity|].
    cbn [map form_files]. f_equal. exact IH.
Qed.

(** The file of 26 MB: classified for the chunked path; in a batch with a
    file of 11 MB before it, [uploadFiles] sends the small file whole and
    opens a session for the large one; [uploadDocuments] sends it whole. *)
Lemma large_file_classified_witness :
  size medium_pdf > 25 * MB /\
  needsChunkedUpload medium_pdf = true /\
  whole_files (snd (uploadFiles [small_bin; medium_pdf] None net_ok [])) = [small_bin] /\
  (exists history session later,
     snd (uploadFiles ([small_bin] ++ medium_pdf :: []) None net_ok [])
       = history ++ (init_post medium_pdf :: session) ++ later) /\
  whole_files (snd (uploadDocuments (Some [medium_pdf]) net_ok [])) = [medium_pdf].
Proof.
  split; [reflexivity|].
  destruct (large_file_classified medium_pdf) as (H1 & H2 & H3 & H4); [reflexivity|].
  split; [exact H1|]. split; [|split].
  - eapply eq_trans; [apply (proj1 (H3 [small_bin; medium_pdf] None net_ok)) | reflexivity].
  - destruct (H2 [small_bin] [] None net_ok) as (acc & history & session & later & _ & _ & _ & _ & E).
    exists history, session, later. exact E.
  - apply H4.
    + left. reflexivity.
    + repeat constructor. discriminate.
    + discriminate.
Defined.

End LargeFiles.

(** ** The chunked upload client *)
Module ChunkedClient.
Import RetryFacts ChunkedUploaderFacts ChunkArithmetic ProgressFacts UploadFacts.

(** C4: for every file of [totalBytes > 0] bytes (a safe integer, as every
    file size is), [totalChunks] is the exact ceiling of
    [totalBytes / CHUNK_SIZE]; the slices [i * CHUNK_SIZE,
    min(totalBytes, (i + 1) * CHUNK_SIZE)) of the chunks [0 .. totalChunks - 1]
    start at byte 0, end at byte [totalBytes], are not empty, each end where
    the next starts (no gap, no overlap), and their lengths sum to
    [totalBytes]; and these are the slices [uploadFile] posts, in this
    order, when the session opens and every chunk post is accepted. *)
Theorem chunks_partition_file (file : File) :
  0 < size file <= JsNumber.MAX_SAFE_INTEGER ->
  let totalBytes := size file in
  let totalChunks := chunk_count totalBytes in
  totalChunks = Qceiling (inject_Z totalBytes / inject_Z CHUNK_SIZE) /\
  0 < totalChunks /\
  (totalChunks - 1) * CHUNK_SIZE < totalBytes <= totalChunks * CHUNK_SIZE /\
  chunk_start 0 = 0 /\
  chunk_end totalBytes (totalChunks - 1) = totalBytes /\
  (forall i, 0 <= i < totalChunks -> chunk_start i < chunk_end totalBytes i) /\
  (forall i, 0 <= i < totalChunks - 1 -> chunk_end totalBytes i = chunk_start (i + 1)) /\
  (forall i j, 0 <= i < j -> j < totalChunks -> chunk_end totalBytes i <= chunk_start j) /\
  total_length (chunk_ranges totalBytes) = totalBytes /\
  (forall this net tr uploadId,
     initializeUpload (name file) totalBytes totalChunks net tr
       = (Ok uploadId, tr ++ [init_post file]) ->
     (forall history j, failed net (history ++ [chunk_post file uploadId j]) = false) ->
     posted_slices (snd (uploadFile this file net tr))
       = posted_slices tr ++ chunk_ranges totalBytes).
Proof.
  intros H. cbv zeta.
  destruct (chunk_count_bounds (size file) H) as (Hn & Hlo & Hhi).
  destruct (chunk_ranges_facts (size file) H) as (R1 & R2 & R3 & R4 & R5 & R6).
  split.
  { rewrite chunk_count_exact by assumption. symmetry. apply Qceiling_quotient. reflexivity. }
  repeat (split; [assumption|]).
  split; [split; assumption|].
  repeat (split; [assumption|]).
  intros this net tr uploadId Hinit Hchunks.
  destruct (uploadFile_accepted this file net tr uploadId Hinit Hchunks) as [r Hr].
  rewrite Hr. cbn [snd]. rewrite !posted_slices_app, posted_slices_chunks.
  unfold chunk_ranges. cbn. rewrite app_nil_r. reflexivity.
Qed.

(** A file of 11 MB against a backend that accepts everything: three
    chunks, the last one of 1 MB. *)
Lemma chunks_partition_file_witness :
  chunk_count (size small_bin) = 3 /\
  total_length (chunk_ranges (size small_bin)) = size small_bin /\
  posted_slices (snd (uploadFile recording_uploader small_bin net_ok []))
    = chunk_ranges (size small_bin).
Proof.
  assert (Hsize : 0 < size small_bin <= JsNumber.MAX_SAFE_INTEGER)
    by (split; [reflexivity | discriminate]).
  destruct (chunks_partition_file small_bin Hsize)
    as (_ & _ & _ & _ & _ & _ & _ & _ & Hsum & Hposted).
  split; [vm_compute; reflexivity|]. split; [exact Hsum|].
  apply (Hposted recording_uploader net_ok [] (JsString "session-1")).
  - vm_compute. reflexivity.
  - intros history j. reflexivity.
Defined.

(** C5: take a chunk [i] of a file whose session is open and whose chunks
    before [i] went through, leaving the history [tr].  If the three posts
    of the chunk fail, [uploadFile] has sent the chunk exactly three times,
    with a wait of 1000 ms after the first failure and of 2000 ms after the
    second, sends nothing else, and returns the failed result with the
    message [Failed to upload chunk <i + 1> after 3 attempts].  If one of
    the three posts is accepted, no further post of the chunk is made and
    the loop stands at chunk [i + 1]. *)
Theorem retry_bound (this : ChunkedUploader) (file : File) (net : Network)
    (uploadId : JsValue) (i : Z) (tr : Trace) :
  0 <= i < chunk_count (size file) ->
  initializeUpload (name file) (size file) (chunk_count (size file)) net []
    = (Ok uploadId, [init_post file]) ->
  for_range (Z.to_nat i) 0 (upload_one_chunk this file uploadId) net [init_post file]
    = (Ok tt, tr) ->
  let F := chunk_post file uploadId i in
  let t1 := tr ++ [F] in
  let t2 := tr ++ [F; SetTimeout ResolveDelay (1000 * 1); F] in
  let t3 := tr ++ three_attempts file uploadId i in
  three_attempts file uploadId i
    = [F; SetTimeout ResolveDelay (1000 * 1); F; SetTimeout ResolveDelay (1000 * 2); F] /\
  (failed net t1 = true -> failed net t2 = true -> failed net t3 = true ->
     uploadFile this file net []
       = (Ok (failure_result file (Error (retries_exhausted i))), t3) /\
     retries_exhausted i
       = ("Failed to upload chunk " ++ Text.decimal (i + 1) ++ " after 3 attempts")%string) /\
  (forall t,
     (failed net t1 = false /\ t = t1) \/
     (failed net t1 = true /\ failed net t2 = false /\ t = t2) \/
     (failed net t1 = true /\ failed net t2 = true /\ failed net t3 = false /\ t = t3) ->
     for_range (Z.to_nat (i + 1)) 0 (upload_one_chunk this file uploadId) net [init_post file]
       = (Ok tt, t ++ progress_events this file i)).
Proof.
  intros Hi Hinit Hbefore. cbv zeta.
  change (1000 * 1) with 1000. change (1000 * 2) with 2000.
  split; [reflexivity|].
  pose proof (upload_one_chunk_run this file uploadId i net tr) as Hone. cbv zeta in Hone.
  fold (three_attempts file uploadId i) in Hone.
  split.
  - intros F1 F2 F3. split; [|reflexivity].
    rewrite F1, F2, F3 in Hone. cbn [negb] in Hone.
    rewrite uploadFile_run, Hinit. unfold for_loop. rewrite Z.sub_0_r.
    replace (Z.to_nat (chunk_count (size file)))
      with (Z.to_nat i + S (Z.to_nat (chunk_count (size file) - i - 1)))%nat by lia.
    rewrite for_range_app, Hbefore. cbn [for_range].
    rewrite Z2Nat.id by lia. cbn [Z.add].
    rewrite (bind_throw _ _ _ _ _ _ Hone). reflexivity.
  - intros t Hcases.
    replace (Z.to_nat (i + 1)) with (Z.to_nat i + 1)%nat by lia.
    rewrite for_range_app, Hbefore. cbn [for_range].
    rewrite Z2Nat.id by lia. cbn [Z.add].
    destruct Hcases as [[F1 ->]|[(F1 & F2 & ->)|(F1 & F2 & F3 & ->)]].
    + rewrite F1 in Hone. cbn [negb] in Hone.
      rewrite (bind_ok _ _ _ _ _ _ Hone). reflexivity.
    + rewrite F1, F2 in Hone. cbn [negb] in Hone.
      rewrite (bind_ok _ _ _ _ _ _ Hone). reflexivity.
    + rewrite F1, F2, F3 in Hone. cbn [negb] in Hone.
      rewrite (bind_ok _ _ _ _ _ _ Hone). reflexivity.
Qed.

(** With a backend that answers 503 to every post of chunk 1, the upload of
    a file of 11 MB fails after three posts of that chunk. *)
Lemma retry_bound_witness :
  exists tr,
    uploadFile recording_uploader small_bin (net_failing_chunk 1) []
      = (Ok (failure_result small_bin (Error "Failed to upload chunk 2 after 3 attempts")),
         tr ++ three_attempts small_bin (JsString "session-1") 1).
Proof.
  exists [init_post small_bin; chunk_post small_bin (JsString "session-1") 0;
          Callback (ChunkProgress (progress_sample small_bin 0))].
  refine (proj1 (proj1 (proj2 (retry_bound recording_uploader small_bin (net_failing_chunk 1)
                         (JsString "session-1") 1 _ _ _ _)) _ _ _)).
  - vm_compute. split; [discriminate | reflexivity].
  - vm_compute. reflexivity.
  - vm_compute. reflexivity.
  - vm_compute. reflexivity.
  - vm_compute. reflexivity.
  - vm_compute. reflexivity.
Defined.

End ChunkedClient.

(** ** Progress, results and the proxy *)
Module Reporting.
Import RetryFacts ChunkedUploaderFacts ChunkArithmetic ProgressFacts UploadFacts.

(** The percentages of the chunks [i .. i + k - 1] do not decrease. *)
Lemma percentages_sorted (file : File) (i : Z) (k : nat) :
  0 < size file -> 0 <= i ->
  StronglySorted Z.le
    (map ChunkUploadProgress.percentage (map (progress_sample file) (range_from i k))).
Proof.
  intros Hsize. revert i. induction k as [|k IH]; intros i Hi; [constructor|].
  cbn [range_from map]. constructor; [apply IH; lia|].
  apply Forall_forall. intros pct Hin.
  rewrite map_map in Hin. apply in_map_iff in Hin. destruct Hin as (j & <- & Hj).
  apply range_from_In in Hj. cbn [progress_sample ChunkUploadProgress.percentage].
  apply percentage_of_mono; [assumption|].
  pose proof (chunk_end_positive (size file) i Hsize Hi).
  pose proof (chunk_end_le (size file) i j ltac:(lia)). lia.
Qed.

(** C6: the samples handed to the progress callback during a run of
    [uploadFile] are those of the chunks [0 .. k - 1] in index order, one
    per chunk that went through; the percentage of each is
    [Math.round((uploadedBytes / totalBytes) * 100)] with [uploadedBytes]
    the end of its chunk; the percentages do not decrease; and when every
    chunk went through (as in every successful run) the last percentage is
    100. *)
Theorem progress_monotone (file : File) (net : Network) :
  let run := uploadFile recording_uploader file net [] in
  let emitted := samples (snd run) in
  (exists k, (k <= Z.to_nat (chunk_count (size file)))%nat /\
     emitted = map (progress_sample file) (range_from 0 k)) /\
  Forall (fun p =>
            ChunkUploadProgress.percentage p
              = percentage_of (ChunkUploadProgress.uploadedBytes p)
                              (ChunkUploadProgress.totalBytes p) /\
            ChunkUploadProgress.uploadedBytes p
              = chunk_end (size file) (ChunkUploadProgress.chunkIndex p) /\
            ChunkUploadProgress.totalBytes p = size file) emitted /\
  StronglySorted Z.le (map ChunkUploadProgress.percentage emitted) /\
  (forall r, fst run = Ok r -> ChunkedUploadResult.success r = true ->
     List.length emitted = Z.to_nat (chunk_count (size file))) /\
  (0 < size file <= JsNumber.MAX_SAFE_INTEGER ->
   List.length emitted = Z.to_nat (chunk_count (size file)) ->
   exists earlier, map ChunkUploadProgress.percentage emitted = earlier ++ [100]).
Proof.
  cbv zeta.
  destruct (uploadFile_samples file net []) as (added & k & Erun & Hk & Hs & Hall).
  cbn [app] in Erun. rewrite Erun, Hs.
  split; [exists k; split; [exact Hk | reflexivity]|].
  split.
  { apply Forall_forall. intros p Hin. apply in_map_iff in Hin.
    destruct Hin as (j & <- & _). repeat split. }
  split.
  { destruct (Z.le_gt_cases (size file) 0) as [Hle|Hgt].
    - pose proof (chunk_count_nonpositive (size file) Hle).
      replace k with O by lia. constructor.
    - apply percentages_sorted; [assumption | lia]. }
  split.
  { intros r Hr Hsucc. rewrite length_map, range_from_length. apply (Hall r Hr Hsucc). }
  intros Hsize Hlen. rewrite length_map, range_from_length in Hlen. subst k.
  destruct (chunk_count_bounds (size file) Hsize) as (Hn & _ & _).
  destruct (chunk_ranges_facts (size file) Hsize) as (_ & Hlast & _).
  cbv zeta in Hlast.
  set (n := chunk_count (size file)) in *.
  replace (Z.to_nat n) with (S (Z.to_nat (n - 1))) by lia.
  rewrite range_from_snoc, !map_app. cbn [map].
  eexists. f_equal. f_equal.
  cbn [progress_sample ChunkUploadProgress.percentage].
  rewrite Z2Nat.id by lia. cbn [Z.add]. rewrite Hlast.
  apply percentage_of_full. lia.
Qed.

(** A file of 11 MB against a backend that accepts everything: the
    percentages are 45, 91 and 100. *)
Lemma progress_monotone_witness :
  map ChunkUploadProgress.percentage
      (samples (snd (uploadFile recording_uploader small_bin net_ok []))) = [45; 91; 100] /\
  exists earlier,
    map ChunkUploadProgress.percentage
        (samples (snd (uploadFile recording_uploader small_bin net_ok []))) = earlier ++ [100].
Proof.
  split; [vm_compute; reflexivity|].
  refine (proj2 (proj2 (proj2 (proj2 (progress_monotone small_bin net_ok)))) _ _).
  - split; [reflexivity | discriminate].
  - vm_compute. reflexivity.
Defined.



End Reporting.

(** ** The single-file proxy route *)
Module ProxyRoute.
Import UploadSingleRoute.

(** C8: whenever the route can read the form of the request, it arms the
    abort timer with 600000 ms and then forwards the form to the backend
    with the abort signal attached; these are its only two events before
    the answer.  When the backend answers with a status outside 200-299 and
    the text [t], the route responds with [{success: false, error:
    'Backend error: <status>', details: t}] and the backend's status.  When
    the backend answers within 200-299 with the JSON body [j], the route
    responds with [j] unchanged, and status 200.  When the form cannot be
    read, nothing is forwarded. *)
Theorem proxy_forward (env : option string) (request : Result FormData)
    (net : Network) (tr : Trace) :
  (forall formData, request = Ok formData ->
     let forward := Fetch (API_BASE env ++ "/upload_documents")%string
                          (forward_request formData) in
     let history := tr ++ [SetTimeout AbortRequest (10 * 60 * 1000); forward] in
     signal (forward_request formData) = true /\
     body (forward_request formData) = BodyForm formData /\
     (exists rest, snd (POST env request net tr) = history ++ rest /\
                   (rest = [] \/ rest = [ClearTimeout])) /\
     (forall r t, net history = Resolves r -> ok r = false -> text r = Ok t ->
        fst (POST env request net tr) =
        Ok {| response_body :=
                JsObject [("success", JsBool false);
                          ("error", JsString ("Backend error: " ++ Text.decimal (status r))%string);
                          ("details", JsString t)];
              response_status := status r |}) /\
     (forall r j, net history = Resolves r -> ok r = true -> json r = Ok j ->
        fst (POST env request net tr) = Ok {| response_body := j; response_status := 200 |})) /\
  (forall e, request = Throw e ->
     snd (POST env request net tr) = tr /\
     exists response, fst (POST env request net tr) = Ok response /\
                      response_status response = 500).
Proof.
  split.
  - intros formData ->. cbv zeta. change (10 * 60 * 1000) with 600000.
    split; [reflexivity|]. split; [reflexivity|].
    unfold POST, try_catch, bind, await, emit, fetch. cbv beta zeta.
    rewrite <- app_assoc. cbn [app].
    set (history := tr ++ [SetTimeout AbortRequest 600000;
                           Fetch (API_BASE env ++ "/upload_documents")%string
                                 (forward_request formData)]).
    destruct (net history) as [r|e] eqn:Enet.
    2:{ unfold ret. split; [exists []; rewrite app_nil_r; auto|].
        split; intros; discriminate. }
    destruct (ok r) eqn:Eok; cbn [negb].
    + destruct (json r) as [j|e] eqn:Ej; unfold ret; cbn [fst snd].
      * split; [exists [ClearTimeout]; auto|]. split.
        -- intros r' t [= <-] Hok. congruence.
        -- intros r' j' [= <-] _ Hj. rewrite Ej in Hj. injection Hj as <-. reflexivity.
      * split; [exists [ClearTimeout]; auto|]. split.
        -- intros r' t [= <-] Hok. congruence.
        -- intros r' j' [= <-] _ Hj. congruence.
    + destruct (text r) as [t|e] eqn:Et; unfold ret; cbn [fst snd].
      * split; [exists [ClearTimeout]; auto|]. split.
        -- intros r' t' [= <-] _ Ht. rewrite Et in Ht. injection Ht as <-. reflexivity.
        -- intros r' j' [= <-] Hok. congruence.
      * split; [exists [ClearTimeout]; auto|]. split.
        -- intros r' t' [= <-] _ Ht. congruence.
        -- intros r' j' [= <-] Hok. congruence.
  - intros e ->. split; [reflexivity|]. eexists. split; reflexivity.
Qed.

(** A backend that answers 413, and one that accepts. *)
Lemma proxy_forward_witness :
  fst (POST None (Ok [("files", FormFile big_pdf)])
            (fun _ => Resolves (error_response 413 "too large")) []) =
    Ok {| response_body :=
            JsObject [("success", JsBool false);
                      ("error", JsString "Backend error: 413");
                      ("details", JsString "too large")];
          response_status := 413 |} /\
  fst (POST None (Ok [("files", FormFile big_pdf)]) net_ok []) =
    Ok {| response_body := backend_reply; response_status := 200 |}.
Proof.
  split.
  - exact (proj1 (proj2 (proj2 (proj2 (proj1
              (proxy_forward None (Ok [("files", FormFile big_pdf)])
                 (fun _ => Resolves (error_response 413 "too large")) [])
              _ eq_refl))))
             (error_response 413 "too large") "too large" eq_refl eq_refl eq_refl).
  - exact (proj2 (proj2 (proj2 (proj2 (proj1
              (proxy_forward None (Ok [("files", FormFile big_pdf)]) net_ok [])
              _ eq_refl))))
             (ok_response backend_reply) backend_reply eq_refl eq_refl eq_refl).
Defined.

End ProxyRoute.

(** * Further properties *)

(** ** More of the upload entry point *)
Module EntryPointMore.
Import GrantAPI GrantAPIFacts.

(** While the backend accepts the files of [accepted] one after the other,
    the loop of [uploadDocumentsChunked] collects their answers and goes
    on with the rest. *)
Lemma upload_each_single_accepted (accepted : list File) :
  forall (replies results : list JsValue) (rest : list File) net tr,
  List.length replies = List.length accepted ->
  (forall k, (k < List.length accepted)%nat ->
     exists r, net (tr ++ map single_post (firstn (S k) accepted)) = Resolves r /\
               ok r = true /\ json r = Ok (nth k replies JsNull)) ->
  upload_each_single (accepted ++ rest) results net tr =
  upload_each_single rest (results ++ replies) net (tr ++ map single_post accepted).
Proof.
  induction accepted as [|file accepted IH]; intros replies results rest net tr Hlen Hacc.
  - destruct replies; [|discriminate]. cbn [map app]. rewrite !app_nil_r. reflexivity.
  - destruct replies as [|reply replies]; [discriminate|].
    destruct (Hacc O ltac:(simpl; lia)) as (r & Hnet & Hok & Hjson).
    cbn [firstn map nth] in Hnet, Hjson.
    cbn [app upload_each_single]. unfold bind at 1. unfold fetch at 1.
    fold (single_post file). cbv beta zeta. rewrite Hnet, Hok. cbn [negb].
    unfold bind at 1. unfold await at 1. rewrite Hjson.
    rewrite (IH replies (push results reply) rest net (tr ++ [single_post file])).
    + unfold push. rewrite <- !app_assoc. reflexivity.
    + simpl in Hlen. lia.
    + intros k Hk. destruct (Hacc (S k) ltac:(simpl; lia)) as (r' & Hnet' & Hok' & Hjson').
      exists r'. rewrite <- app_assoc. cbn [app].
      change (firstn (S (S k)) (file :: accepted))
        with (file :: firstn (S k) accepted) in Hnet'.
      cbn [map] in Hnet'. cbn [nth] in Hjson'. auto.
Qed.

(** X1.  [uploadDocumentsChunked] sends the files one at a time in list
    order and stops at the first refusal: when the backend has accepted the
    files of [accepted] and answers the next file with a status outside
    200-299, the call rejects with [Upload failed for <name>: <status>],
    the refused file is the last request, and no file after it is sent.
    The requests of the files accepted before it have been made. *)
Theorem chunked_stops_at_first_refusal
    (accepted : list File) (file : File) (rest : list File)
    (replies : list JsValue) (net : Network) (tr : Trace) (r : Response) (details : string) :
  List.length replies = List.length accepted ->
  (forall k, (k < List.length accepted)%nat ->
     exists r', net (tr ++ map single_post (firstn (S k) accepted)) = Resolves r' /\
                ok r' = true /\ json r' = Ok (nth k replies JsNull)) ->
  net (tr ++ map single_post (accepted ++ [file])) = Resolves r ->
  ok r = false ->
  text r = Ok details ->
  uploadDocumentsChunked (accepted ++ file :: rest) net tr =
  (Throw (Error ("Upload failed for " ++ name file ++ ": " ++ Text.decimal (status r))%string),
   tr ++ map single_post (accepted ++ [file])).
Proof.
  intros Hlen Hacc Hnet Hok Htext.
  unfold uploadDocumentsChunked. rewrite rethrowing_run.
  unfold bind at 1.
  rewrite (upload_each_single_accepted accepted replies [] (file :: rest) net tr Hlen Hacc).
  cbn [upload_each_single]. unfold bind at 1. unfold fetch at 1.
  fold (single_post file). cbv beta zeta.
  rewrite map_app in Hnet. cbn [map] in Hnet. rewrite app_assoc in Hnet.
  rewrite Hnet, Hok. cbn [negb].
  unfold bind, await, throw. rewrite Htext.
  rewrite map_app, app_assoc. reflexivity.
Qed.

(** A batch of five files whose second file the backend refuses. *)
Lemma chunked_stops_at_first_refusal_witness :
  exists msg,
    uploadDocumentsChunked five_files
      (fun history => if (List.length (requests history) =? 2)%nat
                      then Resolves (error_response 413 "too large")
                      else Resolves (ok_response backend_reply)) []
    = (Throw (Error msg), map single_post (firstn 2 five_files)).
Proof.
  eexists.
  refine (chunked_stops_at_first_refusal
            (firstn 1 five_files) (nth 1 five_files big_pdf) (skipn 2 five_files)
            [backend_reply] _ [] (error_response 413 "too large") "too large"
            eq_refl _ eq_refl eq_refl eq_refl).
  intros k Hk. exists (ok_response backend_reply).
  destruct k as [|k]; [|simpl in Hk; lia].
  repeat split.
Defined.

(** The items collected by [flatMap]: the contributions of the answers, in
    order, unless property access throws on one of them. *)
Lemma flatMap_artifact_ids_run (replies : list JsValue) :
  (existsb nullish replies = false ->
     flatMap_artifact_ids replies = Ok (flat_map contribution replies)) /\
  (existsb nullish replies = true ->
     exists msg, flatMap_artifact_ids replies = Throw (TypeError msg)).
Proof.
  induction replies as [|reply replies [IHok IHbad]]; [split; [reflexivity | discriminate]|].
  cbn [existsb flatMap_artifact_ids flat_map]. unfold contribution.
  destruct (nullish reply) eqn:Hnull; cbn [orb].
  - split; [discriminate|]. intros _.
    destruct reply; try discriminate Hnull; eexists; reflexivity.
  - assert (Hget : exists v, get reply "artifact_ids" = Ok v).
    { destruct reply; try discriminate Hnull; eexists; reflexivity. }
    destruct Hget as [v Hget]. rewrite Hget. cbv zeta. split; intros H.
    + rewrite (IHok H).
      destruct v as [| |b|q|s|items|fields]; cbn [truthy]; try reflexivity.
      * destruct b; reflexivity.
      * destruct (negb (Qeq_bool q 0)); reflexivity.
      * destruct s; reflexivity.
    + destruct (IHbad H) as [msg ->]. exists msg. reflexivity.
Qed.

(** X2.  When the backend accepts every file, [uploadDocumentsChunked] has
    sent one request per file, in list order, and returns
    [{success: true, artifact_ids, message, upload_method: 'chunked'}]
    whose [artifact_ids] are the contributions of the answers in file
    order: the items of an [artifact_ids] array, and nothing for an answer
    without [artifact_ids].  If an answer is the JSON value [null], the
    call rejects with a [TypeError] although every file was uploaded. *)
Theorem chunked_collects_artifacts
    (files : list File) (replies : list JsValue) (net : Network) (tr : Trace) :
  List.length replies = List.length files ->
  (forall k, (k < List.length files)%nat ->
     exists r, net (tr ++ map single_post (firstn (S k) files)) = Resolves r /\
               ok r = true /\ json r = Ok (nth k replies JsNull)) ->
  snd (uploadDocumentsChunked files net tr) = tr ++ map single_post files /\
  (existsb nullish replies = false ->
     fst (uploadDocumentsChunked files net tr)
       = Ok (chunked_result files (flat_map contribution replies))) /\
  (existsb nullish replies = true ->
     exists msg, fst (uploadDocumentsChunked files net tr) = Throw (TypeError msg)).
Proof.
  intros Hlen Hacc.
  assert (E : uploadDocumentsChunked files net tr =
              (match flatMap_artifact_ids replies with
               | Ok ids => Ok (chunked_result files ids)
               | Throw e => Throw e
               end, tr ++ map single_post files)).
  { unfold uploadDocumentsChunked. rewrite rethrowing_run.
    unfold bind at 1.
    pose proof (upload_each_single_accepted files replies [] [] net tr Hlen Hacc) as Hrun.
    rewrite app_nil_r in Hrun. rewrite Hrun. cbn [upload_each_single app]. unfold ret at 1.
    unfold bind, await, ret. destruct (flatMap_artifact_ids replies); reflexivity. }
  rewrite E. cbn [fst snd].
  destruct (flatMap_artifact_ids_run replies) as [Hok Hbad].
  split; [reflexivity|]. split.
  - intros H. rewrite (Hok H). reflexivity.
  - intros H. destruct (Hbad H) as [msg ->]. exists msg. reflexivity.
Qed.

(** Five files, each answered with one artifact id. *)
Lemma chunked_collects_artifacts_witness :
  fst (uploadDocumentsChunked five_files net_ok [])
    = Ok (chunked_result five_files (repeat (JsString "artifact-1") 5)).
Proof.
  refine (proj1 (proj2 (chunked_collects_artifacts five_files (repeat backend_reply 5)
                          net_ok [] eq_refl _)) eq_refl).
  intros k Hk. exists (ok_response backend_reply). repeat split.
  do 5 (destruct k as [|k]; [reflexivity|]). simpl in Hk. lia.
Defined.

(** X3.  The direct path is one request and one answer: for a batch that
    is not empty, within the caps and of at most 30 MB in total,
    [uploadDocuments] sends the one request to /api/upload and then gives
    back what reading the JSON body gives when the status is in 200-299,
    rejects with [HTTP error! status: <status>, body: <text>] when it is
    not, and rejects with the error of [fetch] when the request fails.
    Nothing is retried. *)
Theorem direct_path_outcome (files : list File) (net : Network) (tr : Trace) :
  files <> [] ->
  Forall (fun file => size file <= MAX_FILE_SIZE) files ->
  total_size files <= CLOUD_RUN_LIMIT ->
  let history := tr ++ [direct_post files] in
  snd (uploadDocuments (Some files) net tr) = history /\
  (forall r, net history = Resolves r -> ok r = true ->
     fst (uploadDocuments (Some files) net tr) = json r) /\
  (forall r details, net history = Resolves r -> ok r = false -> text r = Ok details ->
     fst (uploadDocuments (Some files) net tr) =
     Throw (Error ("HTTP error! status: " ++ Text.decimal (status r)
                   ++ ", body: " ++ details)%string)) /\
  (forall e, net history = Rejects e ->
     fst (uploadDocuments (Some files) net tr) = Throw e).
Proof.
  intros Hne Hsizes Htotal. cbv zeta.
  rewrite (uploadDocuments_run files net tr Hne), (find_oversize_none files Hsizes).
  destruct (Z.gtb_spec (total_size files) MAX_TOTAL_SIZE) as [Hgt|_].
  { unfold MAX_TOTAL_SIZE, CLOUD_RUN_LIMIT in *. lia. }
  destruct (Z.gtb_spec (total_size files) CLOUD_RUN_LIMIT) as [Hgt|_]; [lia|].
  split; [apply upload_direct_trace|].
  unfold upload_direct, bind, fetch. fold (direct_post files). cbv beta zeta.
  destruct (net (tr ++ [direct_post files])) as [r|e].
  - destruct (ok r) eqn:Hok; cbn [negb]; unfold await, throw.
    + split; [intros r' [= <-] _; reflexivity|].
      split; [intros r' details [= <-] H; congruence | intros e H; discriminate H].
    + split; [intros r' [= <-] H; congruence|].
      split; [|intros e H; discriminate H].
      intros r' details [= <-] _ Ht. rewrite Ht. reflexivity.
  - split; [intros r H; discriminate H|].
    split; [intros r details H; discriminate H|].
    intros e' [= <-]. reflexivity.
Qed.

(** One file of 26 MB, refused by the backend with status 413. *)
Lemma direct_path_outcome_witness :
  uploadDocuments (Some [medium_pdf]) (fun _ => Resolves (error_response 413 "too large")) []
  = (Throw (Error "HTTP error! status: 413, body: too large"), [direct_post [medium_pdf]]).
Proof.
  pose proof (direct_path_outcome [medium_pdf]
                (fun _ => Resolves (error_response 413 "too large")) []) as H.
  destruct H as (Htrace & _ & Hrefused & _).
  - discriminate.
  - repeat constructor. discriminate.
  - discriminate.
  - specialize (Hrefused (error_response 413 "too large") "too large" eq_refl eq_refl eq_refl).
    rewrite (surjective_pairing (uploadDocuments _ _ _)), Htrace, Hrefused. reflexivity.
Defined.




Lemma find_existsb {X : Type} (f : X -> bool) (l : list X) :
  existsb f l = match find f l with Some _ => true | None => false end.
Proof. induction l as [|x l IH]; simpl; [reflexivity|]. destruct (f x); auto. Qed.

(** The outcome of the validation in [uploadDocuments]. *)
Lemma validation_run (files : list File) net tr :
  (rejected_before_any_request files = true ->
     exists msg, uploadDocuments (Some files) net tr = (Throw (Error msg), tr)) /\
  (rejected_before_any_request files = false ->
     uploadDocuments (Some files) net tr =
     if total_size files >? CLOUD_RUN_LIMIT
     then uploadDocumentsChunked files net tr
     else upload_direct files net tr).
Proof.
  destruct files as [|file rest].
  - split; [intros _; eexists; reflexivity | discriminate].
  - rewrite uploadDocuments_run by discriminate.
    unfold rejected_before_any_request. rewrite find_existsb.
    destruct (find oversize (file :: rest)); cbn [orb].
    + split; [intros _; eexists; reflexivity | discriminate].
    + destruct (total_size (file :: rest) >? MAX_TOTAL_SIZE).
      * split; [intros _; eexists; reflexivity | discriminate].
      * split; [discriminate | reflexivity].
Qed.





End EntryPointMore.

(** ** More of the chunked upload client *)
Module ChunkedClientMore.
Import RetryFacts ChunkedUploaderFacts ChunkArithmetic ProgressFacts UploadFacts.

Lemma posted_slices_chunk_post file uploadId i :
  posted_slices [chunk_post file uploadId i] = [(chunk_start i, chunk_end (size file) i)].
Proof. reflexivity. Qed.

Lemma posted_slices_progress this file i : posted_slices (progress_events this file i) = [].
Proof. unfold posted_slices. rewrite requests_progress_events. reflexivity. Qed.

(** One chunk is posted once, twice or three times. *)
Lemma upload_one_chunk_slices this file uploadId i net tr :
  exists a, (1 <= a <= 3)%nat /\
    posted_slices (snd (upload_one_chunk this file uploadId i net tr)) =
    posted_slices tr ++ repeat (chunk_start i, chunk_end (size file) i) a.
Proof.
  rewrite upload_one_chunk_run. cbv zeta.
  pose proof (posted_slices_progress this file i) as HP.
  destruct (failed net (tr ++ [chunk_post file uploadId i])); cbn [negb].
  2:{ exists 1%nat. split; [lia|]. cbn [snd].
      rewrite !posted_slices_app, HP, app_nil_r. reflexivity. }
  destruct (failed net (tr ++ [chunk_post file uploadId i; _; _])); cbn [negb].
  2:{ exists 2%nat. split; [lia|]. cbn [snd].
      rewrite !posted_slices_app, HP, app_nil_r. reflexivity. }
  destruct (failed net _); cbn [negb].
  2:{ exists 3%nat. split; [lia|]. cbn [snd].
      rewrite !posted_slices_app, HP, app_nil_r. reflexivity. }
  exists 3%nat. split; [lia|]. cbn [snd]. rewrite posted_slices_app. reflexivity.
Qed.

Lemma for_range_slices this file uploadId n i net tr :
  exists attempts,
    (List.length attempts <= n)%nat /\
    Forall (fun a => (1 <= a <= 3)%nat) attempts /\
    posted_slices (snd (for_range n i (upload_one_chunk this file uploadId) net tr)) =
    posted_slices tr ++ attempts_slices (size file) i attempts.
Proof.
  revert i tr. induction n as [|n IH]; intros i tr.
  - exists []. simpl. rewrite app_nil_r. repeat split; auto.
  - cbn [for_range].
    destruct (upload_one_chunk_slices this file uploadId i net tr) as (a & Ha & Ea).
    destruct (upload_one_chunk this file uploadId i net tr) as [[[]|e] t1] eqn:E;
      cbn [snd] in Ea.
    + rewrite (bind_ok _ _ _ _ _ _ E).
      destruct (IH (i + 1) t1) as (attempts & Hlen & Hall & Es).
      exists (a :: attempts). split; [simpl; lia|]. split; [constructor; assumption|].
      rewrite Es, Ea. cbn [attempts_slices]. rewrite <- app_assoc. reflexivity.
    + rewrite (bind_throw _ _ _ _ _ _ E). cbn [snd].
      exists [a]. split; [simpl; lia|]. split; [constructor; [assumption | constructor]|].
      rewrite Ea. cbn [attempts_slices]. rewrite app_nil_r. reflexivity.
Qed.

(** X5.  Whatever the network does, the slices [uploadFile] posts are those
    of the chunks 0, 1, 2, ... in this order, without skipping an index,
    each posted once, twice or three times in a row; so no more than three
    times [totalChunks] chunk requests are sent, and a chunk is never sent
    again once a later chunk has been sent. *)
Theorem chunks_sent_in_order (this : ChunkedUploader) (file : File)
    (net : Network) (tr : Trace) :
  exists attempts,
    (List.length attempts <= Z.to_nat (chunk_count (size file)))%nat /\
    Forall (fun a => (1 <= a <= 3)%nat) attempts /\
    posted_slices (snd (uploadFile this file net tr)) =
      posted_slices tr ++ attempts_slices (size file) 0 attempts /\
    (List.length (attempts_slices (size file) 0 attempts)
       <= 3 * Z.to_nat (chunk_count (size file)))%nat.
Proof.
  assert (Hbound : forall attempts i,
            Forall (fun a => (1 <= a <= 3)%nat) attempts ->
            (List.length (attempts_slices (size file) i attempts)
               <= 3 * List.length attempts)%nat).
  { induction attempts as [|a attempts IH]; intros i Hall; [simpl; lia|].
    inversion Hall as [|? ? Ha Hrest]; subst.
    cbn [attempts_slices]. rewrite length_app, repeat_length.
    specialize (IH (i + 1) Hrest). simpl. lia. }
  rewrite uploadFile_run.
  pose proof (initializeUpload_trace file net tr) as Ei.
  destruct (initializeUpload _ _ _ net tr) as [[uploadId|e] t0]; cbn [snd] in Ei; subst t0.
  2:{ exists []. cbn [snd]. rewrite posted_slices_app. cbn.
      repeat split; auto; lia. }
  unfold for_loop. rewrite Z.sub_0_r.
  destruct (for_range_slices this file uploadId (Z.to_nat (chunk_count (size file))) 0 net
              (tr ++ [init_post file])) as (attempts & Hlen & Hall & Es).
  rewrite posted_slices_app in Es. change (posted_slices [init_post file]) with (@nil (Z * Z)) in Es.
  rewrite app_nil_r in Es.
  exists attempts. split; [exact Hlen|]. split; [exact Hall|].
  split; [|specialize (Hbound attempts 0 Hall); lia].
  destruct (for_range _ 0 _ net (tr ++ [init_post file])) as [[[]|e] t1]; cbn [snd] in Es.
  - pose proof (finalizeUpload_trace uploadId net t1) as Ef.
    destruct (finalizeUpload uploadId net t1) as [[finalUrl|e] t2]; cbn [snd] in *; subst t2;
      rewrite posted_slices_app, Es;
      change (posted_slices [finalize_post uploadId]) with (@nil (Z * Z));
      rewrite app_nil_r; reflexivity.
  - cbn [snd]. exact Es.
Qed.

(** X6.  Every percentage handed to the progress callback is between 0 and
    100. *)
Theorem percentages_in_range (file : File) (net : Network) :
  Forall (fun p => 0 <= ChunkUploadProgress.percentage p <= 100)
         (samples (snd (uploadFile recording_uploader file net []))).
Proof.
  destruct (uploadFile_samples file net []) as (added & k & Erun & Hk & Hs & _).
  cbn [app] in Erun. rewrite Erun, Hs.
  apply Forall_forall. intros p Hin. apply in_map_iff in Hin.
  destruct Hin as (j & <- & Hj). apply range_from_In in Hj.
  cbn [progress_sample ChunkUploadProgress.percentage].
  assert (Hsize : 0 < size file).
  { destruct (Z.le_gt_cases (size file) 0) as [Hle|Hgt]; [|lia].
    pose proof (chunk_count_nonpositive (size file) Hle). lia. }
  pose proof (chunk_end_positive (size file) j Hsize ltac:(lia)) as Hend.
  assert (Hzero : percentage_of 0 (size file) = 0).
  { unfold percentage_of, JsNumber.mul, JsNumber.div.
    assert (E0 : (inject_Z 0 / inject_Z (size file) == 0)%Q).
    { unfold Qdiv. change (inject_Z 0) with 0%Q. ring. }
    rewrite (JsNumberFacts.fl_zero _ E0).
    rewrite (JsNumberFacts.fl_zero (0 * 100)%Q) by reflexivity. reflexivity. }
  pose proof (percentage_of_mono (size file) 0 (chunk_end (size file) j) Hsize ltac:(lia)).
  pose proof (percentage_of_mono (size file) (chunk_end (size file) j) (size file)
                Hsize ltac:(lia)).
  rewrite percentage_of_full in * by assumption. lia.
Qed.

Lemma upload_one_chunk_loop_events this file uploadId i net tr :
  0 <= i < chunk_count (size file) ->
  exists added,
    snd (upload_one_chunk this file uploadId i net tr) = tr ++ added /\
    Forall (chunk_loop_event file uploadId) added.
Proof.
  intros Hi. rewrite upload_one_chunk_run. cbv zeta.
  assert (HF : chunk_loop_event file uploadId (chunk_post file uploadId i)).
  { exists i. split; [exact Hi | reflexivity]. }
  assert (HP : Forall (chunk_loop_event file uploadId) (progress_events this file i)).
  { unfold progress_events. destruct (onProgress this) as [callback|]; [|constructor].
    induction (callback (progress_sample file i)); constructor; simpl; auto. }
  assert (HS : forall ms, chunk_loop_event file uploadId (SetTimeout ResolveDelay ms))
    by reflexivity.
  destruct (failed net (tr ++ [chunk_post file uploadId i])); cbn [negb].
  2:{ eexists. rewrite <- app_assoc. split; [reflexivity|].
      apply Forall_app; split; [repeat constructor; auto | exact HP]. }
  destruct (failed net (tr ++ [chunk_post file uploadId i; _; _])); cbn [negb].
  2:{ eexists. rewrite <- app_assoc. split; [reflexivity|].
      apply Forall_app; split; [repeat constructor; auto | exact HP]. }
  destruct (failed net _); cbn [negb].
  2:{ eexists. rewrite <- app_assoc. split; [reflexivity|].
      apply Forall_app; split; [repeat constructor; auto | exact HP]. }
  eexists. split; [reflexivity|]. unfold three_attempts. repeat constructor; auto.
Qed.

Lemma for_range_loop_events this file uploadId n i net tr :
  0 <= i -> i + Z.of_nat n <= chunk_count (size file) ->
  exists added,
    snd (for_range n i (upload_one_chunk this file uploadId) net tr) = tr ++ added /\
    Forall (chunk_loop_event file uploadId) added.
Proof.
  revert i tr. induction n as [|n IH]; intros i tr Hi Hn.
  - exists []. simpl. rewrite app_nil_r. split; auto.
  - cbn [for_range].
    destruct (upload_one_chunk_loop_events this file uploadId i net tr ltac:(lia))
      as (a1 & E1 & S1).
    destruct (upload_one_chunk this file uploadId i net tr) as [[[]|e] t1] eqn:E;
      cbn [snd] in E1; subst t1.
    + rewrite (bind_ok _ _ _ _ _ _ E).
      destruct (IH (i + 1) (tr ++ a1) ltac:(lia) ltac:(lia)) as (a2 & E2 & S2).
      exists (a1 ++ a2). rewrite E2, app_assoc. split; [reflexivity|].
      apply Forall_app; auto.
    + rewrite (bind_throw _ _ _ _ _ _ E). exists a1. split; [reflexivity | exact S1].
Qed.

(** X7.  The requests of [uploadFile] have one shape, whatever the network
    does: the init request comes first; if it fails nothing else is sent;
    otherwise only posts of chunks of this file follow, each carrying the
    [uploadId] that init returned, and then, exactly when every chunk went
    through, one finalize request with the same [uploadId], which is the
    last event. *)
Theorem session_shape (this : ChunkedUploader) (file : File) (net : Network) (tr : Trace) :
  (forall e t0,
     initializeUpload (name file) (size file) (chunk_count (size file)) net tr = (Throw e, t0) ->
     snd (uploadFile this file net tr) = tr ++ [init_post file]) /\
  (forall uploadId t0,
     initializeUpload (name file) (size file) (chunk_count (size file)) net tr
       = (Ok uploadId, t0) ->
     exists chunks closing,
       snd (uploadFile this file net tr) = tr ++ init_post file :: chunks ++ closing /\
       Forall (chunk_loop_event file uploadId) chunks /\
       ((closing = [finalize_post uploadId] /\
         fst (for_loop 0 (chunk_count (size file)) (upload_one_chunk this file uploadId) net t0)
           = Ok tt) \/
        (closing = [] /\
         exists e,
           fst (for_loop 0 (chunk_count (size file)) (upload_one_chunk this file uploadId) net t0)
             = Throw e))).
Proof.
  rewrite uploadFile_run.
  pose proof (initializeUpload_trace file net tr) as Ei.
  destruct (initializeUpload _ _ _ net tr) as [[uploadId|e] t0]; cbn [snd] in Ei; subst t0.
  2:{ split; [intros; reflexivity | intros ? ? H; discriminate H]. }
  split; [intros ? ? H; discriminate H|].
  intros uploadId' t0' [= <- <-].
  unfold for_loop. rewrite Z.sub_0_r.
  destruct (Z.le_gt_cases (chunk_count (size file)) 0) as [Hle|Hgt].
  - replace (Z.to_nat (chunk_count (size file))) with O by lia.
    cbn [for_range]. unfold ret at 1.
    pose proof (finalizeUpload_trace uploadId net (tr ++ [init_post file])) as Ef.
    exists [], [finalize_post uploadId].
    destruct (finalizeUpload uploadId net _) as [[finalUrl|e] t2]; cbn [snd] in *; subst t2;
      (split; [rewrite <- app_assoc; reflexivity|]);
      (split; [constructor|]); left; split; reflexivity.
  - destruct (for_range_loop_events this file uploadId (Z.to_nat (chunk_count (size file)))
                0 net (tr ++ [init_post file]) ltac:(lia) ltac:(lia)) as (chunks & Ec & Sc).
    destruct (for_range _ 0 _ net (tr ++ [init_post file])) as [[[]|e] t1];
      cbn [snd] in Ec; subst t1.
    + pose proof (finalizeUpload_trace uploadId net ((tr ++ [init_post file]) ++ chunks)) as Ef.
      exists chunks, [finalize_post uploadId].
      destruct (finalizeUpload uploadId net _) as [[finalUrl|e] t2]; cbn [snd] in *; subst t2;
        (split; [rewrite <- !app_assoc; reflexivity|]);
        (split; [exact Sc|]); left; split; reflexivity.
    + exists chunks, []. cbn [snd fst]. rewrite app_nil_r.
      split; [rewrite <- app_assoc; reflexivity|]. split; [exact Sc|].
      right. split; [reflexivity | exists e; reflexivity].
Qed.

(** A backend that refuses chunk 1: init, chunk 0, three posts of chunk 1,
    and no finalize request. *)
Lemma session_shape_witness :
  exists chunks,
    snd (uploadFile recording_uploader small_bin (net_failing_chunk 1) [])
      = init_post small_bin :: chunks ++ [] /\
    Forall (chunk_loop_event small_bin (JsString "session-1")) chunks.
Proof.
  destruct (proj2 (session_shape recording_uploader small_bin (net_failing_chunk 1) [])
              (JsString "session-1") [init_post small_bin])
    as (chunks & closing & Erun & Hchunks & [[_ Hok]|[-> _]]).
  - vm_compute. reflexivity.
  - vm_compute in Hok. discriminate Hok.
  - exists chunks. split; [exact Erun | exact Hchunks].
Defined.





End ChunkedClientMore.

(** ** More of the proxy route *)
Module ProxyRouteMore.
Import UploadSingleRoute.

(** The run of the route, case by case. *)
Lemma POST_run (env : option string) (request : Result FormData) (net : Network) (tr : Trace) :
  POST env request net tr =
  match request with
  | Throw e => (Ok (NextResponse_json (proxy_error e) (Some 500)), tr)
  | Ok formData =>
      match net (forward_history env tr formData) with
      | Rejects e =>
          (Ok (NextResponse_json (proxy_error e) (Some 500)), forward_history env tr formData)
      | Resolves r =>
          (Ok (if ok r
               then match json r with
                    | Ok j => NextResponse_json j None
                    | Throw e => NextResponse_json (proxy_error e) (Some 500)
                    end
               else match text r with
                    | Ok t =>
                        NextResponse_json
                          (JsObject [("success", JsBool false);
                                     ("error", JsString ("Backend error: "
                                                         ++ Text.decimal (status r))%string);
                                     ("details", JsString t)])
                          (Some (status r))
                    | Throw e => NextResponse_json (proxy_error e) (Some 500)
                    end),
           forward_history env tr formData ++ [ClearTimeout])
      end
  end.
Proof.
  unfold POST, try_catch, bind, await, emit, fetch, ret, forward_history. cbv beta zeta.
  destruct request as [formData|e0]; [|reflexivity].
  rewrite <- app_assoc. cbn [app].
  destruct (net _) as [r|e]; [|reflexivity].
  destruct (ok r); cbn [negb].
  - destruct (json r); reflexivity.
  - destruct (text r); reflexivity.
Qed.

(** X9.  The proxy always answers, with at most one request to the
    backend: it never throws.  A request whose form cannot be read, a
    forward that fails or is aborted by the timer, and a backend body that
    cannot be read all give status 500 with
    [{success: false, error: 'Proxy server error', details: <message>}];
    otherwise the status is 200 or the backend's own status outside
    200-299.  The abort timer is cleared exactly when the forward resolved:
    after a failed or aborted forward it is left armed. *)
Theorem proxy_always_answers (env : option string) (request : Result FormData)
    (net : Network) (tr : Trace) :
  exists response added,
    POST env request net tr = (Ok response, tr ++ added) /\
    (List.length (requests added) <= 1)%nat /\
    (response_status response = 200 \/
     (response_status response = 500 /\
      exists e, response_body response = proxy_error e) \/
     (exists formData r,
        request = Ok formData /\ net (forward_history env tr formData) = Resolves r /\
        ok r = false /\ response_status response = status r)) /\
    (forall formData e,
       request = Ok formData -> net (forward_history env tr formData) = Rejects e ->
       tr ++ added = forward_history env tr formData /\
       response = NextResponse_json (proxy_error e) (Some 500)) /\
    (In ClearTimeout added <->
     exists formData r,
       request = Ok formData /\ net (forward_history env tr formData) = Resolves r).
Proof.
  rewrite POST_run.
  destruct request as [formData|e0].
  2:{ eexists. exists []. rewrite app_nil_r. split; [reflexivity|].
      split; [simpl; lia|].
      split; [right; left; split; [reflexivity | exists e0; reflexivity]|].
      split; [intros ? ? H; discriminate H|].
      split; [intros [] | intros (f & r & H & _); discriminate H]. }
  destruct (net (forward_history env tr formData)) as [r|e] eqn:Enet.
  - eexists. eexists. unfold forward_history at 1. rewrite <- app_assoc.
    split; [reflexivity|]. split; [simpl; lia|]. split; [|split].
    + destruct (ok r) eqn:Eok.
      * destruct (json r) as [j|e]; [left; reflexivity|].
        right. left. split; [reflexivity | exists e; reflexivity].
      * destruct (text r) as [t|e].
        -- right. right. exists formData, r. repeat split; assumption.
        -- right. left. split; [reflexivity | exists e; reflexivity].
    + intros f e [= <-] H. congruence.
    + split; [intros _; exists formData, r; split; [reflexivity | exact Enet]|].
      intros _. cbn. auto.
  - eexists. eexists. unfold forward_history at 1.
    split; [reflexivity|]. split; [simpl; lia|].
    split; [right; left; split; [reflexivity | exists e; reflexivity]|]. split.
    + intros f e' [= <-] H. rewrite Enet in H. injection H as <-. split; reflexivity.
    + split.
      * intros [H|[H|[]]]; discriminate H.
      * intros (f & r & [= <-] & H). congruence.
Qed.

(** A forward that is aborted. *)
Lemma proxy_always_answers_witness :
  exists response,
    fst (POST None (Ok [("files", FormFile big_pdf)])
              (fun _ => Rejects (DOMException "This operation was aborted")) [])
      = Ok response /\
    response_status response = 500.
Proof.
  destruct (proxy_always_answers None (Ok [("files", FormFile big_pdf)])
              (fun _ => Rejects (DOMException "This operation was aborted")) [])
    as (response & added & E & _ & _ & Hrej & _).
  exists response. rewrite E. split; [reflexivity|].
  rewrite (proj2 (Hrej _ _ eq_refl eq_refl)). reflexivity.
Defined.

End ProxyRouteMore.

(** ** The other calls of the API client and the dashboard *)
Module ClientCalls.
Import GrantAPI GrantAPIFacts GrantAPICalls Dashboard.

(** X10.  The health indicator does not look at the status: after the one
    GET of /health, [checkAPIHealth] reports the API as online exactly when
    the request resolved and its body parsed as JSON, so a backend that
    answers 500 with a JSON body is shown as online, and one that answers
    200 with a body that is not JSON as offline.  It never throws. *)
Theorem health_ignores_status (env : option string) (net : Network) (tr : Trace) :
  exists healthy,
    checkAPIHealth env net tr = (Ok healthy, tr ++ [health_request env]) /\
    (healthy = true <->
     exists r j, net (tr ++ [health_request env]) = Resolves r /\ json r = Ok j).
Proof.
  unfold checkAPIHealth, checkHealth, try_catch. unfold bind at 1.
  rewrite rethrowing_run. unfold bind, fetch, await, ret. fold (health_request env).
  cbv beta zeta.
  destruct (net (tr ++ [health_request env])) as [r|e].
  - destruct (json r) as [j|e] eqn:Ej; eexists; (split; [reflexivity|]).
    + split; [intros _; exists r, j; auto | reflexivity].
    + split; [discriminate | intros (r' & j & [= <-] & H); congruence].
  - eexists. split; [reflexivity|].
    split; [discriminate | intros (r' & j & H & _); discriminate H].
Qed.

(** A backend that answers 500 with a JSON body. *)
Lemma health_ignores_status_witness :
  ok unhealthy_response = false /\
  fst (checkAPIHealth None (fun _ => Resolves unhealthy_response) []) = Ok true.
Proof.
  split; [reflexivity|].
  destruct (health_ignores_status None (fun _ => Resolves unhealthy_response) [])
    as (healthy & E & Hiff).
  rewrite E. cbn [fst]. f_equal. apply Hiff.
  exists unhealthy_response, (JsObject [("status", JsString "error")]). split; reflexivity.
Defined.

(** X11.  [generateQuickProposal] and [generateFullProposal] each send
    exactly one POST with the JSON of their argument, to /quick_proposal
    and /full_proposal, and treat the answer alike: a status in 200-299
    gives what reading the JSON body gives; another status gives
    [HTTP error! status: <status>] without the body being read, so the
    backend's explanation is dropped; a failed request gives its own
    error.  Nothing is retried. *)
Theorem proposal_calls_outcome (env : option string) (data : JsValue)
    (net : Network) (tr : Trace) :
  let outcome (history : Trace) : Result JsValue :=
    match net history with
    | Rejects e => Throw e
    | Resolves r =>
        if ok r then json r
        else Throw (Error ("HTTP error! status: " ++ Text.decimal (status r))%string)
    end in
  let quick := tr ++ [Fetch (API_BASE env ++ "/quick_proposal")%string (POST_json data)] in
  let full := tr ++ [Fetch (API_BASE env ++ "/full_proposal")%string (POST_json data)] in
  generateQuickProposal env data net tr = (outcome quick, quick) /\
  generateFullProposal env data net tr = (outcome full, full).
Proof.
  cbv zeta. unfold generateQuickProposal, generateFullProposal.
  rewrite !rethrowing_run. unfold bind, fetch, await, throw. cbv beta zeta.
  split.
  - destruct (net _) as [r|e]; [|reflexivity]. destruct (ok r); reflexivity.
  - destruct (net _) as [r|e]; [|reflexivity]. destruct (ok r); reflexivity.
Qed.

Lemma count_status_bounds (status : string) (proposals : list JsValue) (n : Z) :
  count_status status proposals = Ok n -> 0 <= n <= Z.of_nat (List.length proposals).
Proof.
  revert n. induction proposals as [|p rest IH]; intros n H.
  - injection H as <-. simpl. lia.
  - cbn [count_status] in H. destruct (get p "status") as [s|e]; [|discriminate].
    destruct (count_status status rest) as [m|e]; [|discriminate].
    specialize (IH m eq_refl). cbn [List.length]. rewrite Nat2Z.inj_succ.
    cbv zeta in H.
    destruct (match s with JsString s' => String.eqb s' status | _ => false end);
      injection H as <-; lia.
Qed.

Lemma count_status_disjoint (a b : string) (proposals : list JsValue) (n m : Z) :
  a <> b ->
  count_status a proposals = Ok n -> count_status b proposals = Ok m ->
  n + m <= Z.of_nat (List.length proposals).
Proof.
  intros Hab. revert n m. induction proposals as [|p rest IH]; intros n m Hn Hm.
  - injection Hn as <-. injection Hm as <-. simpl. lia.
  - cbn [count_status] in Hn, Hm. destruct (get p "status") as [s|e]; [|discriminate].
    destruct (count_status a rest) as [n'|e]; [|discriminate].
    destruct (count_status b rest) as [m'|e]; [|discriminate].
    specialize (IH n' m' eq_refl eq_refl). cbn [List.length]. rewrite Nat2Z.inj_succ.
    cbv zeta in Hn, Hm.
    destruct s as [| |x|q|s|items|fields];
      try (injection Hn as <-; injection Hm as <-; lia).
    destruct (String.eqb_spec s a) as [Ha|Ha], (String.eqb_spec s b) as [Hb|Hb];
      injection Hn as <-; injection Hm as <-; try lia.
    congruence.
Qed.

Lemma count_status_defined (status : string) (proposals : list JsValue) :
  existsb nullish proposals = false -> exists n, count_status status proposals = Ok n.
Proof.
  induction proposals as [|p rest IH]; intros H; [exists 0; reflexivity|].
  cbn [existsb] in H. apply orb_false_iff in H. destruct H as [Hp Hrest].
  destruct (IH Hrest) as [n Hn]. cbn [count_status]. rewrite Hn.
  destruct p; try discriminate Hp; eexists; reflexivity.
Qed.

Lemma percentage_of_zero (total : Z) : percentage_of 0 total = 0.
Proof.
  unfold percentage_of, JsNumber.mul, JsNumber.div.
  assert (E0 : (inject_Z 0 / inject_Z total == 0)%Q).
  { unfold Qdiv. change (inject_Z 0) with 0%Q. ring. }
  rewrite (JsNumberFacts.fl_zero _ E0).
  rewrite (JsNumberFacts.fl_zero (0 * 100)%Q) by reflexivity. reflexivity.
Qed.

(** X12.  The statistics of the dashboard are consistent for every stored
    array of proposals without a [null] entry: they are defined, the total
    is the length of the array, the completed and in-progress counts are
    not negative and together do not exceed the total, the success rate is
    a whole number between 0 and 100, it is 0 for the empty array (nothing
    is divided by zero) and 100 when every proposal is completed; and at
    most three proposals are shown as recent. *)
Theorem dashboard_stats_consistent (proposals : list JsValue) :
  existsb nullish proposals = false ->
  exists stats,
    stats_of proposals = Ok stats /\
    totalProposals stats = Z.of_nat (List.length proposals) /\
    0 <= completed stats /\ 0 <= inProgress stats /\
    completed stats + inProgress stats <= totalProposals stats /\
    0 <= successRate stats <= 100 /\
    (proposals = [] -> successRate stats = 0) /\
    (proposals <> [] -> completed stats = totalProposals stats -> successRate stats = 100) /\
    fundingAmount stats = 50000 * totalProposals stats /\
    (List.length (recent_proposals proposals) <= 3)%nat.
Proof.
  intros Hdefined.
  destruct (count_status_defined "completed" proposals Hdefined) as [c Hc].
  destruct (count_status_defined "in_progress" proposals Hdefined) as [p Hp].
  unfold stats_of. rewrite Hc, Hp. eexists. split; [reflexivity|].
  cbn [totalProposals completed inProgress successRate fundingAmount].
  pose proof (count_status_bounds _ _ _ Hc) as Bc.
  pose proof (count_status_bounds _ _ _ Hp) as Bp.
  pose proof (count_status_disjoint "completed" "in_progress" proposals c p
                ltac:(discriminate) Hc Hp) as Bcp.
  set (total := Z.of_nat (List.length proposals)) in *.
  split; [reflexivity|]. split; [lia|]. split; [lia|]. split; [lia|].
  assert (Hrate : 0 <= (if total >? 0 then percentage_of c total else 0) <= 100).
  { destruct (Z.gtb_spec total 0) as [Hpos|Hzero]; [|lia].
    pose proof (ProgressFacts.percentage_of_mono total 0 c Hpos ltac:(lia)) as M1.
    pose proof (ProgressFacts.percentage_of_mono total c total Hpos ltac:(lia)) as M2.
    rewrite percentage_of_zero in M1.
    rewrite ProgressFacts.percentage_of_full in M2 by assumption. lia. }
  split; [exact Hrate|]. split; [|split; [|split]].
  - intros ->. reflexivity.
  - intros Hne Hall. subst c.
    assert (0 < total) by (unfold total; destruct proposals; [contradiction | simpl; lia]).
    destruct (Z.gtb_spec total 0); [|lia].
    apply ProgressFacts.percentage_of_full. assumption.
  - lia.
  - unfold recent_proposals. rewrite length_firstn. lia.
Qed.

(** Four stored proposals, three of them completed: a success rate of 75. *)
Lemma dashboard_stats_consistent_witness :
  exists stats,
    stats_of [JsObject [("status", JsString "completed")];
              JsObject [("status", JsString "completed")];
              JsObject [("status", JsString "in_progress")];
              JsObject [("status", JsString "completed")]] = Ok stats /\
    successRate stats = 75 /\ 0 <= successRate stats <= 100.
Proof.
  destruct (dashboard_stats_consistent
              [JsObject [("status", JsString "completed")];
               JsObject [("status", JsString "completed")];
               JsObject [("status", JsString "in_progress")];
               JsObject [("status", JsString "completed")]] eq_refl)
    as (stats & E & _ & _ & _ & _ & Hrate & _).
  exists stats. split; [exact E|]. split; [|exact Hrate].
  vm_compute in E. injection E as <-. reflexivity.
Defined.

End ClientCalls.

(** ** The upload handlers of the forms *)
Module FormHandlers.
Import GrantAPI GrantAPIFacts.

Section Handlers.

Variable member : JsValue -> string -> JsValue.
Variable to_text : JsValue -> string.

(** The call and the test of the answer, in terms of the run of
    [uploadDocuments]: nothing is requested besides. *)
Lemma upload_and_check_run (newFiles : list File) net tr :
  upload_and_check to_text newFiles net tr =
  (match fst (uploadDocuments (Some newFiles) net tr) with
   | Ok answer =>
       if answer_accepted answer then
         match get answer "file_urls" with
         | Ok urls => Ok urls
         | Throw e => Throw e
         end
       else
         match get answer "success", get answer "message" with
         | Throw e, _ => Throw e
         | Ok _, Throw e => Throw e
         | Ok _, Ok message =>
             Throw (Error (if truthy message then to_text message else "Upload failed"%string))
         end
   | Throw e => Throw e
   end,
   snd (uploadDocuments (Some newFiles) net tr)).
Proof.
  unfold upload_and_check. unfold bind at 1.
  destruct (uploadDocuments (Some newFiles) net tr) as [[answer|e] t]; cbn [fst snd];
    [|reflexivity].
  unfold answer_accepted, bind, await, throw.
  destruct (get answer "success") as [success|e]; [|reflexivity].
  destruct (truthy success).
  - destruct (get answer "file_urls"); reflexivity.
  - destruct (get answer "message"); reflexivity.
Qed.

(** The answer is taken as a success exactly when it is accepted. *)
Lemma upload_and_check_outcome (newFiles : list File) net tr :
  match fst (uploadDocuments (Some newFiles) net tr) with
  | Ok answer =>
      if answer_accepted answer
      then exists urls, get answer "file_urls" = Ok urls /\
                        fst (upload_and_check to_text newFiles net tr) = Ok urls
      else exists e, fst (upload_and_check to_text newFiles net tr) = Throw e
  | Throw _ => exists e, fst (upload_and_check to_text newFiles net tr) = Throw e
  end.
Proof.
  rewrite upload_and_check_run. cbn [fst].
  destruct (fst (uploadDocuments (Some newFiles) net tr)) as [answer|e]; [|eauto].
  destruct (answer_accepted answer) eqn:Hacc.
  - unfold answer_accepted in Hacc.
    destruct answer; try discriminate Hacc; eexists; split; reflexivity.
  - destruct (get answer "success"); [|eauto].
    destruct (get answer "message"); eauto.
Qed.

Lemma uploaded_entries_names (urls : JsValue) (newFiles : list File) :
  map file_name (uploaded_entries member urls newFiles) = map name newFiles.
Proof. unfold uploaded_entries. rewrite map_map. reflexivity. Qed.

Lemma failed_entries_names (newFiles : list File) :
  map file_name (failed_entries newFiles) = map name newFiles.
Proof. unfold failed_entries. rewrite map_map. reflexivity. Qed.

Lemma uploaded_entries_marks (urls : JsValue) (newFiles : list File) :
  Forall uploaded_mark (uploaded_entries member urls newFiles).
Proof. unfold uploaded_entries. apply Forall_map, Forall_forall. reflexivity. Qed.

Lemma failed_entries_marks (newFiles : list File) :
  Forall failed_mark (failed_entries newFiles).
Proof. unfold failed_entries. apply Forall_map, Forall_forall. split; reflexivity. Qed.

(** Without [file_urls] in the answer no entry has a link, whatever the
    member access gives. *)
Lemma uploaded_entries_unlinked (newFiles : list File) :
  uploaded_entries member JsUndefined newFiles = map unlinked_entry newFiles.
Proof. reflexivity. Qed.

(** The run of the handler of [QuickProposalForm]. *)
Lemma QuickForm_handleFileUpload_run (newFiles : list File) (st : QuickForm) net tr :
  QuickForm_handleFileUpload member to_text (Some newFiles) st net tr =
  (Ok match fst (upload_and_check to_text newFiles net tr) with
      | Ok urls =>
          {| documents := documents st ++ newFiles;
             uploadedFiles := uploadedFiles st ++ uploaded_entries member urls newFiles;
             error := EmptyString;
             uploadStatus := UploadSuccess;
             isUploading := false;
             uploadProgress := [];
             currentStep := currentStep st |}
      | Throw _ =>
          {| documents := documents st ++ newFiles;
             uploadedFiles := uploadedFiles st ++ failed_entries newFiles;
             error := upload_failure_text;
             uploadStatus := UploadFailed;
             isUploading := false;
             uploadProgress := [];
             currentStep := currentStep st |}
      end,
   snd (uploadDocuments (Some newFiles) net tr)).
Proof.
  pose proof (upload_and_check_run newFiles net tr) as Hrun.
  apply (f_equal snd) in Hrun. cbn [snd] in Hrun. rewrite <- Hrun.
  unfold QuickForm_handleFileUpload. unfold bind at 1. unfold try_catch. unfold bind at 1.
  destruct (upload_and_check to_text newFiles net tr) as [[urls|e] t]; reflexivity.
Qed.

(** The simulated progress of the builder only waits. *)
Lemma simulate_file_run (fileName : string) (n : nat) :
  forall progress shown net tr,
  exists shown',
    simulate_file fileName n progress shown net tr
    = (Ok shown', tr ++ repeat (SetTimeout ResolveDelay 100) n).
Proof.
  induction n as [|n IH]; intros progress shown net tr.
  - exists shown. cbn. rewrite app_nil_r. reflexivity.
  - cbn [simulate_file repeat]. unfold bind at 1. unfold emit at 1.
    destruct (IH (progress + 10) (set_progress fileName progress shown) net
                 (tr ++ [SetTimeout ResolveDelay 100])) as [shown' E].
    exists shown'. rewrite E, <- app_assoc. reflexivity.
Qed.

Lemma simulate_files_run (newFiles : list File) :
  forall shown net tr,
  exists shown',
    simulate_files newFiles shown net tr
    = (Ok shown', tr ++ simulated_waits (List.length newFiles)).
Proof.
  unfold simulated_waits.
  induction newFiles as [|file rest IH]; intros shown net tr.
  - exists shown. cbn. rewrite app_nil_r. reflexivity.
  - cbn [simulate_files List.length]. unfold bind at 1.
    destruct (simulate_file_run (name file) 11 0 shown net tr) as [shown1 E1]. rewrite E1.
    destruct (IH shown1 net (tr ++ repeat (SetTimeout ResolveDelay 100) 11)) as [shown2 E2].
    exists shown2. rewrite E2, <- app_assoc, <- repeat_app.
    replace (11 * S (List.length rest))%nat with (11 + 11 * List.length rest)%nat by lia.
    reflexivity.
Qed.

(** The run of the handler of [FullProposalBuilder]. *)
Lemma FullForm_handleFileUpload_run (newFiles : list File) (st : FullForm) net tr :
  let waited := tr ++ simulated_waits (List.length newFiles) in
  FullForm_handleFileUpload member to_text (Some newFiles) st net tr =
  (Ok match fst (upload_and_check to_text newFiles net waited) with
      | Ok urls =>
          {| full_files := full_files st ++ newFiles;
             full_uploadedFiles :=
               full_uploadedFiles st ++ uploaded_entries member urls newFiles;
             full_error := EmptyString;
             full_isUploading := false;
             full_uploadProgress := [];
             activeTab := activeTab st |}
      | Throw _ =>
          {| full_files := full_files st ++ newFiles;
             full_uploadedFiles := full_uploadedFiles st ++ failed_entries newFiles;
             full_error := upload_failure_text;
             full_isUploading := false;
             full_uploadProgress := [];
             activeTab := activeTab st |}
      end,
   snd (uploadDocuments (Some newFiles) net waited)).
Proof.
  cbv zeta.
  pose proof (upload_and_check_run newFiles net
                (tr ++ simulated_waits (List.length newFiles))) as Hrun.
  apply (f_equal snd) in Hrun. cbn [snd] in Hrun. rewrite <- Hrun.
  unfold FullForm_handleFileUpload. unfold bind at 1.
  destruct (simulate_files_run newFiles
              (fold_left (fun m file => set_progress (name file) 0 m) newFiles [])
              net tr) as [shown Esim].
  cbn [full_uploadProgress]. rewrite Esim.
  unfold bind at 1. unfold try_catch. unfold bind at 1.
  destruct (upload_and_check to_text newFiles net _) as [[urls|e] t]; reflexivity.
Qed.

(** An answer of the per-file path is its result object. *)
Lemma uploadDocumentsChunked_answer (files : list File) net tr (answer : JsValue) :
  fst (uploadDocumentsChunked files net tr) = Ok answer ->
  exists artifact_ids, answer = chunked_result files artifact_ids.
Proof.
  unfold uploadDocumentsChunked. rewrite rethrowing_run. unfold bind at 1.
  destruct (upload_each_single files [] net tr) as [[results|e] t]; [|discriminate].
  unfold bind, await, ret.
  destruct (flatMap_artifact_ids results) as [ids|e]; [|discriminate].
  cbn [fst]. intros [= <-]. exists ids. reflexivity.
Qed.

Lemma large_batch_unlinked (files : list File) net tr (answer : JsValue) :
  rejected_before_any_request files = false ->
  total_size files > CLOUD_RUN_LIMIT ->
  fst (uploadDocuments (Some files) net tr) = Ok answer ->
  fst (upload_and_check to_text files net tr) = Ok JsUndefined.
Proof.
  intros Hvalid Hlarge Hanswer.
  rewrite upload_and_check_run, Hanswer. cbn [fst].
  rewrite (proj2 (EntryPointMore.validation_run files net tr) Hvalid) in Hanswer.
  destruct (Z.gtb_spec (total_size files) CLOUD_RUN_LIMIT); [|lia].
  destruct (uploadDocumentsChunked_answer files net tr answer Hanswer) as [ids ->].
  reflexivity.
Qed.

End Handlers.

(** X13.  The upload handler of the quick form marks a selection as a whole
    and never throws.  For every selection, state and network it ends with
    [isUploading] false and an empty progress map, has added the selected
    files to [documents], and has added to [uploadedFiles] one entry per
    selected file, in order and under the file's name; its only requests
    are those of [uploadDocuments].  The entries are all [uploaded], with
    status [success] and no error text, when [uploadDocuments] returned an
    answer with a truthy [success]; in every other case (an exception, or
    an answer without a truthy [success]) they are all [failed] with the
    url [#], the status is [failed] and the error text is the fixed
    sentence, whatever the cause and however many of the files the backend
    had already accepted. *)
Theorem quick_upload_marks_whole_selection
    (member : JsValue -> string -> JsValue) (to_text : JsValue -> string)
    (newFiles : list File) (st : QuickForm) (net : Network) (tr : Trace) :
  exists st' marks,
    QuickForm_handleFileUpload member to_text (Some newFiles) st net tr
      = (Ok st', snd (uploadDocuments (Some newFiles) net tr)) /\
    isUploading st' = false /\ uploadProgress st' = [] /\
    currentStep st' = currentStep st /\
    documents st' = documents st ++ newFiles /\
    uploadedFiles st' = uploadedFiles st ++ marks /\
    map file_name marks = map name newFiles /\
    match fst (uploadDocuments (Some newFiles) net tr) with
    | Ok answer =>
        if answer_accepted answer
        then Forall uploaded_mark marks /\
             uploadStatus st' = UploadSuccess /\ error st' = EmptyString
        else Forall failed_mark marks /\
             uploadStatus st' = UploadFailed /\ error st' = upload_failure_text
    | Throw _ =>
        Forall failed_mark marks /\
        uploadStatus st' = UploadFailed /\ error st' = upload_failure_text
    end.
Proof.
  rewrite QuickForm_handleFileUpload_run.
  pose proof (upload_and_check_outcome to_text newFiles net tr) as Hout.
  destruct (fst (uploadDocuments (Some newFiles) net tr)) as [answer|e0].
  - destruct (answer_accepted answer).
    + destruct Hout as (urls & _ & ->).
      eexists. exists (uploaded_entries member urls newFiles).
      split; [reflexivity|]. cbn.
      repeat split; auto using uploaded_entries_names, uploaded_entries_marks.
    + destruct Hout as (e & ->).
      eexists. exists (failed_entries newFiles).
      split; [reflexivity|]. cbn.
      repeat split; auto using failed_entries_names; apply failed_entries_marks.
  - destruct Hout as (e & ->).
    eexists. exists (failed_entries newFiles).
    split; [reflexivity|]. cbn.
    repeat split; auto using failed_entries_names; apply failed_entries_marks.
Qed.

(** X14.  The builder's handler first plays its simulated progress: eleven
    waits of 100 ms for every selected file, before [uploadDocuments] is
    called at all, so a selection that [uploadDocuments] rejects without a
    request (an empty one, or one above a size cap) is rejected only after
    these waits.  After them it marks the selection as the quick form does:
    one entry per file in order, all [uploaded] when the answer has a
    truthy [success], all [failed] with the url [#] and the fixed error
    text otherwise; it never throws and ends with [isUploading] false and
    an empty progress map. *)
Theorem full_upload_waits_then_marks
    (member : JsValue -> string -> JsValue) (to_text : JsValue -> string)
    (newFiles : list File) (st : FullForm) (net : Network) (tr : Trace) :
  let waited := tr ++ simulated_waits (List.length newFiles) in
  exists st' marks,
    FullForm_handleFileUpload member to_text (Some newFiles) st net tr
      = (Ok st', snd (uploadDocuments (Some newFiles) net waited)) /\
    (rejected_before_any_request newFiles = true ->
     snd (uploadDocuments (Some newFiles) net waited) = waited) /\
    full_isUploading st' = false /\ full_uploadProgress st' = [] /\
    activeTab st' = activeTab st /\
    full_files st' = full_files st ++ newFiles /\
    full_uploadedFiles st' = full_uploadedFiles st ++ marks /\
    map file_name marks = map name newFiles /\
    match fst (uploadDocuments (Some newFiles) net waited) with
    | Ok answer =>
        if answer_accepted answer
        then Forall uploaded_mark marks /\ full_error st' = EmptyString
        else Forall failed_mark marks /\ full_error st' = upload_failure_text
    | Throw _ => Forall failed_mark marks /\ full_error st' = upload_failure_text
    end.
Proof.
  cbv zeta. rewrite FullForm_handleFileUpload_run. cbv zeta.
  set (waited := tr ++ simulated_waits (List.length newFiles)).
  assert (Hrej : rejected_before_any_request newFiles = true ->
                 snd (uploadDocuments (Some newFiles) net waited) = waited).
  { intros R. destruct (proj1 (EntryPointMore.validation_run newFiles net waited) R) as [m E].
    rewrite E. reflexivity. }
  pose proof (upload_and_check_outcome to_text newFiles net waited) as Hout.
  destruct (fst (uploadDocuments (Some newFiles) net waited)) as [answer|e0].
  - destruct (answer_accepted answer).
    + destruct Hout as (urls & _ & ->).
      eexists. exists (uploaded_entries member urls newFiles).
      split; [reflexivity|]. split; [exact Hrej|]. cbn.
      repeat split; auto using uploaded_entries_names, uploaded_entries_marks.
    + destruct Hout as (e & ->).
      eexists. exists (failed_entries newFiles).
      split; [reflexivity|]. split; [exact Hrej|]. cbn.
      repeat split; auto using failed_entries_names; apply failed_entries_marks.
  - destruct Hout as (e & ->).
    eexists. exists (failed_entries newFiles).
    split; [reflexivity|]. split; [exact Hrej|]. cbn.
    repeat split; auto using failed_entries_names; apply failed_entries_marks.
Qed.

(** X15.  A batch above 30 MB that uploads successfully is listed without
    links: its answer is the result object of [uploadDocumentsChunked],
    which has no [file_urls], so both handlers give every file the url [#]
    with the status [uploaded], whatever the backend answered for the
    single files. *)
Theorem large_batch_has_no_links
    (member : JsValue -> string -> JsValue) (to_text : JsValue -> string)
    (newFiles : list File) (quick : QuickForm) (full : FullForm)
    (net : Network) (tr : Trace) (answer answer' : JsValue) :
  rejected_before_any_request newFiles = false ->
  total_size newFiles > CLOUD_RUN_LIMIT ->
  fst (uploadDocuments (Some newFiles) net tr) = Ok answer ->
  fst (uploadDocuments (Some newFiles) net
         (tr ++ simulated_waits (List.length newFiles))) = Ok answer' ->
  (exists st', fst (QuickForm_handleFileUpload member to_text (Some newFiles) quick net tr)
               = Ok st' /\
               uploadedFiles st' = uploadedFiles quick ++ map unlinked_entry newFiles) /\
  (exists st', fst (FullForm_handleFileUpload member to_text (Some newFiles) full net tr)
               = Ok st' /\
               full_uploadedFiles st'
               = full_uploadedFiles full ++ map unlinked_entry newFiles).
Proof.
  intros Hvalid Hlarge Hanswer Hanswer'. split.
  - rewrite QuickForm_handleFileUpload_run.
    rewrite (large_batch_unlinked to_text newFiles net tr answer Hvalid Hlarge Hanswer).
    eexists. split; reflexivity.
  - rewrite FullForm_handleFileUpload_run. cbv zeta.
    rewrite (large_batch_unlinked to_text newFiles net _ answer' Hvalid Hlarge Hanswer').
    eexists. split; reflexivity.
Qed.

(** One file of 120 MB and a backend that accepts everything. *)
Lemma large_batch_has_no_links_witness :
  exists st',
    fst (QuickForm_handleFileUpload own_member (fun _ => EmptyString) (Some [big_pdf])
           empty_quick_form net_ok []) = Ok st' /\
    uploadedFiles st' = [unlinked_entry big_pdf].
Proof.
  refine (proj1 (large_batch_has_no_links own_member (fun _ => EmptyString) [big_pdf]
                   empty_quick_form empty_full_form net_ok []
                   (chunked_result [big_pdf] [JsString "artifact-1"])
                   (chunked_result [big_pdf] [JsString "artifact-1"]) _ _ _ _)).
  - vm_compute. reflexivity.
  - vm_compute. reflexivity.
  - vm_compute. reflexivity.
  - vm_compute. reflexivity.
Defined.

Lemma remove_at_spec {A : Type} (index : Z) (files : list A) :
  forall i,
  remove_at index i files =
  if (i <=? index) && (index <? i + Z.of_nat (List.length files))
  then firstn (Z.to_nat (index - i)) files ++ skipn (S (Z.to_nat (index - i))) files
  else files.
Proof.
  induction files as [|file rest IH]; intros i.
  - cbn [remove_at List.length]. destruct (_ && _); [|reflexivity].
    rewrite firstn_nil, skipn_nil. reflexivity.
  - cbn [remove_at List.length]. rewrite IH, Nat2Z.inj_succ.
    destruct (Z.eqb_spec i index) as [->|Hne].
    + replace (index - index) with 0 by lia. cbn [Z.to_nat firstn skipn app].
      destruct (Z.leb_spec index index); [|lia].
      destruct (Z.leb_spec (index + 1) index); [lia|].
      destruct (Z.ltb_spec index (index + Z.succ (Z.of_nat (List.length rest)))); [|lia].
      reflexivity.
    + destruct (Z.leb_spec (i + 1) index), (Z.leb_spec i index); try lia; cbn [andb];
        [|reflexivity].
      destruct (Z.ltb_spec index (i + 1 + Z.of_nat (List.length rest))),
               (Z.ltb_spec index (i + Z.succ (Z.of_nat (List.length rest))));
        try lia; [|reflexivity].
      replace (Z.to_nat (index - i)) with (S (Z.to_nat (index - (i + 1)))) by lia.
      reflexivity.
Qed.

(** X16.  [removeFile] takes exactly the pending file at the given index
    out of [files] and keeps the order of the others; an index outside the
    list changes nothing.  The entry the file has in [uploadedFiles] stays,
    and the active tab is kept. *)
Theorem removeFile_removes_one (index : Z) (st : FullForm) :
  full_files (removeFile index st) =
    (if (0 <=? index) && (index <? Z.of_nat (List.length (full_files st)))
     then firstn (Z.to_nat index) (full_files st)
          ++ skipn (S (Z.to_nat index)) (full_files st)
     else full_files st) /\
  (0 <= index < Z.of_nat (List.length (full_files st)) ->
   S (List.length (full_files (removeFile index st))) = List.length (full_files st)) /\
  full_uploadedFiles (removeFile index st) = full_uploadedFiles st /\
  activeTab (removeFile index st) = activeTab st.
Proof.
  unfold removeFile. cbn [full_files full_uploadedFiles activeTab].
  rewrite remove_at_spec. replace (index - 0) with index by lia. cbn [Z.add].
  split; [reflexivity|]. split; [|split; reflexivity].
  intros Hin.
  destruct (Z.leb_spec 0 index); [|lia].
  destruct (Z.ltb_spec index (Z.of_nat (List.length (full_files st)))); [|lia].
  cbn [andb]. rewrite length_app, length_firstn, length_skipn. lia.
Qed.

(** The second of three pending files. *)
Lemma removeFile_removes_one_witness :
  full_files (removeFile 1 {| full_files := [big_pdf; medium_pdf; small_bin];
                              full_uploadedFiles := []; full_error := EmptyString;
                              full_isUploading := false; full_uploadProgress := [];
                              activeTab := 3 |})
  = [big_pdf; small_bin].
Proof.
  exact (proj1 (removeFile_removes_one 1 {| full_files := [big_pdf; medium_pdf; small_bin];
                              full_uploadedFiles := []; full_error := EmptyString;
                              full_isUploading := false; full_uploadProgress := [];
                              activeTab := 3 |})).
Defined.

(** X17.  The step of the wizard never leaves the four steps: from a step
    between 0 and 3, every sequence of presses of Next, Previous and Create
    Another Proposal leaves a step between 0 and 3.  In that range,
    pressing Next generates the proposal exactly at the last step, and
    there the step stays. *)
Theorem wizard_step_in_range (actions : list StepAction) (currentStep : Z) :
  0 <= currentStep <= 3 ->
  0 <= steps_after actions currentStep <= 3 /\
  (snd (nextStep currentStep) = true <-> currentStep = 3) /\
  (snd (nextStep currentStep) = true -> fst (nextStep currentStep) = currentStep).
Proof.
  intros Hrange. split; [|split].
  - unfold steps_after. revert currentStep Hrange.
    induction actions as [|action rest IH]; intros step Hrange; [exact Hrange|].
    cbn [fold_left]. apply IH.
    destruct action; cbn [step_after]; unfold nextStep, prevStep, steps_length.
    + destruct (Z.ltb_spec step (4 - 1)); cbn [fst]; lia.
    + destruct (Z.gtb_spec step 0); lia.
    + lia.
  - unfold nextStep, steps_length.
    destruct (Z.ltb_spec currentStep (4 - 1)) as [Hlt|Hge]; cbn [snd]; split; intros Hx;
      try discriminate; lia.
  - unfold nextStep, steps_length.
    destruct (Z.ltb_spec currentStep (4 - 1)); cbn [snd fst]; [discriminate | reflexivity].
Qed.

(** Five presses of Next from the first step, then one of Previous. *)
Lemma wizard_step_in_range_witness :
  0 <= 0 <= 3 /\
  0 <= steps_after [PressNext; PressNext; PressNext; PressNext; PressNext; PressPrevious] 0 <= 3.
Proof.
  split; [lia|].
  apply (wizard_step_in_range
           [PressNext; PressNext; PressNext; PressNext; PressNext; PressPrevious] 0).
  lia.
Defined.

(** X18.  The active tab of the builder never leaves the five tabs: from a
    tab between 0 and 4, every sequence of tab selections, Previous and
    Next leaves a tab between 0 and 4; Previous at the first tab and Next
    at the last change nothing, and four presses of Next reach the review
    tab from every tab. *)
Theorem builder_tab_in_range (actions : list TabAction) (activeTab : Z) :
  0 <= activeTab <= 4 ->
  0 <= tabs_after actions activeTab <= 4 /\
  setActiveTab PreviousTab 0 = 0 /\
  setActiveTab NextTab 4 = 4 /\
  tabs_after [NextTab; NextTab; NextTab; NextTab] activeTab = 4.
Proof.
  intros Hrange. split; [|split; [reflexivity | split; [reflexivity|]]].
  - unfold tabs_after. revert activeTab Hrange.
    induction actions as [|action rest IH]; intros tab Hrange; [exact Hrange|].
    cbn [fold_left]. apply IH.
    destruct action as [index| |]; cbn [setActiveTab]; unfold tabs_length.
    + destruct (Nat.ltb_spec index 5); lia.
    + lia.
    + lia.
  - unfold tabs_after. cbn [fold_left setActiveTab]. lia.
Qed.

(** The last tab, Next, the first tab, Previous. *)
Lemma builder_tab_in_range_witness :
  0 <= 2 <= 4 /\ 0 <= tabs_after [SelectTab 4; NextTab; SelectTab 0; PreviousTab] 2 <= 4.
Proof.
  split; [lia|].
  apply (builder_tab_in_range [SelectTab 4; NextTab; SelectTab 0; PreviousTab] 2). lia.
Defined.

End FormHandlers.

(** ** The waits between the attempts of a chunk *)
Module Backoff.
Import RetryFacts ChunkedUploaderFacts.

Lemma waits_app (tr1 tr2 : Trace) : waits (tr1 ++ tr2) = waits tr1 ++ waits tr2.
Proof. unfold waits. apply flat_map_app. Qed.

Lemma total_wait_app (tr1 tr2 : Trace) :
  total_wait (tr1 ++ tr2) = total_wait tr1 + total_wait tr2.
Proof.
  unfold total_wait. rewrite waits_app.
  induction (waits tr1) as [|ms rest IH]; cbn [app fold_right]; lia.
Qed.

Lemma waits_progress_events this file i : waits (progress_events this file i) = [].
Proof.
  unfold progress_events. destruct (onProgress this) as [callback|]; [|reflexivity].
  induction (callback (progress_sample file i)) as [|o rest IH]; [reflexivity | exact IH].
Qed.

(** One chunk waits 0, 1000 or 1000 + 2000 ms, and never after its third
    failure. *)
Lemma upload_one_chunk_waits this file uploadId i net tr :
  exists added,
    snd (upload_one_chunk this file uploadId i net tr) = tr ++ added /\
    (waits added = [] \/ waits added = [1000] \/ waits added = [1000; 2000]) /\
    (waits added = [1000; 2000] \/
     fst (upload_one_chunk this file uploadId i net tr) = Ok tt).
Proof.
  rewrite upload_one_chunk_run. cbv zeta.
  pose proof (waits_progress_events this file i) as HP.
  destruct (failed net (tr ++ [chunk_post file uploadId i])); cbn [negb].
  2:{ eexists. rewrite <- app_assoc. split; [reflexivity|].
      rewrite waits_app, HP. split; [left; reflexivity | right; reflexivity]. }
  destruct (failed net (tr ++ [chunk_post file uploadId i; _; _])); cbn [negb].
  2:{ eexists. rewrite <- app_assoc. split; [reflexivity|].
      rewrite waits_app, HP. split; [right; left; reflexivity | right; reflexivity]. }
  destruct (failed net _); cbn [negb].
  2:{ eexists. rewrite <- app_assoc. split; [reflexivity|].
      rewrite waits_app, HP. split; [right; right; reflexivity | left; reflexivity]. }
  eexists. split; [reflexivity|]. split; [right; right; reflexivity | left; reflexivity].
Qed.

Lemma for_range_waits this file uploadId n i net tr :
  exists added,
    snd (for_range n i (upload_one_chunk this file uploadId) net tr) = tr ++ added /\
    Forall (fun ms => ms = 1000 \/ ms = 2000) (waits added) /\
    total_wait added <= 3000 * Z.of_nat n.
Proof.
  revert i tr. induction n as [|n IH]; intros i tr.
  - exists []. cbn. rewrite app_nil_r. split; [reflexivity|]. split; [constructor | lia].
  - cbn [for_range].
    destruct (upload_one_chunk_waits this file uploadId i net tr) as (a1 & E1 & W1 & _).
    assert (B1 : Forall (fun ms => ms = 1000 \/ ms = 2000) (waits a1) /\ total_wait a1 <= 3000).
    { unfold total_wait. destruct W1 as [ -> | [ -> | -> ] ]; cbn [fold_right];
        (split; [repeat (apply Forall_cons; [lia|]); apply Forall_nil | lia]). }
    destruct B1 as [F1 T1].
    destruct (upload_one_chunk this file uploadId i net tr) as [[[]|e] t1] eqn:E;
      cbn [snd] in E1; subst t1.
    + rewrite (bind_ok _ _ _ _ _ _ E).
      destruct (IH (i + 1) (tr ++ a1)) as (a2 & E2 & F2 & T2).
      exists (a1 ++ a2). rewrite E2, app_assoc. split; [reflexivity|].
      rewrite waits_app, total_wait_app. split; [apply Forall_app; auto | lia].
    + rewrite (bind_throw _ _ _ _ _ _ E). exists a1.
      split; [reflexivity|]. split; [exact F1 | lia].
Qed.

(** X19.  The waits of [uploadFile] are bounded whatever the network does:
    every wait it starts lasts 1000 or 2000 ms, and all its waits together
    last at most 3000 ms per chunk of the file. *)
Theorem waits_bounded (this : ChunkedUploader) (file : File) (net : Network) (tr : Trace) :
  exists added,
    snd (uploadFile this file net tr) = tr ++ added /\
    Forall (fun ms => ms = 1000 \/ ms = 2000) (waits added) /\
    total_wait added <= 3000 * Z.max 0 (chunk_count (size file)).
Proof.
  rewrite uploadFile_run.
  pose proof (initializeUpload_trace file net tr) as Ei.
  destruct (initializeUpload _ _ _ net tr) as [[uploadId|e] t0]; cbn [snd] in Ei; subst t0.
  2:{ exists [init_post file]. split; [reflexivity|]. split; [constructor|].
      change (total_wait [init_post file]) with 0. lia. }
  unfold for_loop. rewrite Z.sub_0_r.
  destruct (for_range_waits this file uploadId (Z.to_nat (chunk_count (size file))) 0 net
              (tr ++ [init_post file])) as (chunks & Ec & Fc & Tc).
  assert (Hinit : waits [init_post file] = []) by reflexivity.
  destruct (for_range _ 0 _ net (tr ++ [init_post file])) as [[[]|e] t1];
    cbn [snd] in Ec; subst t1.
  - pose proof (finalizeUpload_trace uploadId net ((tr ++ [init_post file]) ++ chunks)) as Ef.
    exists ([init_post file] ++ chunks ++ [finalize_post uploadId]).
    assert (Hw : waits ([init_post file] ++ chunks ++ [finalize_post uploadId]) = waits chunks).
    { rewrite !waits_app, Hinit. cbn [app]. change (waits [finalize_post uploadId]) with (@nil Z).
      apply app_nil_r. }
    destruct (finalizeUpload uploadId net _) as [[finalUrl|e] t2]; cbn [snd] in *; subst t2;
      (split; [rewrite <- !app_assoc; reflexivity|]);
      (split; [rewrite Hw; exact Fc|]); unfold total_wait in *; rewrite Hw; lia.
  - exists ([init_post file] ++ chunks). cbn [snd].
    split; [rewrite <- app_assoc; reflexivity|].
    assert (Hw : waits ([init_post file] ++ chunks) = waits chunks).
    { rewrite waits_app, Hinit. reflexivity. }
    split; [rewrite Hw; exact Fc|]. unfold total_wait in *. rewrite Hw. lia.
Qed.

End Backoff.
